(** * ShopSmarter-AI: the Gemini response sanitizer and its two callers

    A shallow embedding of [services/geminiService.ts]:
    [sanitizeAndParseJson], [analyzeImageAndSuggestProducts] and
    [sendMessageInChat], together with the JavaScript built-ins the code
    relies on (string trimming, the five regular expressions, [JSON.parse]).

    JavaScript strings are sequences of UTF-16 code units; a code unit is
    modelled as an [N] and a string as a [list N]. *)

From Stdlib Require Import String Ascii NArith ZArith List Bool Lia.
From Stdlib Require Import DecimalString.
Import ListNotations.

Local Open Scope string_scope.
Local Open Scope list_scope.
Local Open Scope N_scope.

(* ===================================================================== *)
(** ** JavaScript strings *)
(* ===================================================================== *)

Module JsString.

Abbreviation char := N.
Abbreviation jsstring := (list N).

(** Code units the source names in its literals and regular expressions. *)
Definition TAB : char := 9.
Definition LF : char := 10.
Definition CR : char := 13.
Definition SPACE : char := 32.
Definition DQUOTE : char := 34.
Definition PLUS : char := 43.
Definition COMMA : char := 44.
Definition MINUS : char := 45.
Definition DOT : char := 46.
Definition COLON : char := 58.
Definition LBRACKET : char := 91.
Definition BACKSLASH : char := 92.
Definition RBRACKET : char := 93.
Definition UNDERSCORE : char := 95.
Definition BACKTICK : char := 96.
Definition LBRACE : char := 123.
Definition RBRACE : char := 125.

(** Conversion of a Rocq string literal; an apostrophe stands for the
    double quote, which a Rocq literal cannot hold undoubled. *)
Definition js (s : string) : jsstring :=
  map (fun a => let n := N_of_ascii a in if n =? 39 then DQUOTE else n)
      (list_ascii_of_string s).

(** [lines [l1; ...; ln]] is the text [l1 \n ... \n ln]. *)
Fixpoint lines (ls : list string) : jsstring :=
  match ls with
  | [] => []
  | [l] => js l
  | l :: rest => js l ++ LF :: lines rest
  end.

(** *** Character classes *)

Definition inRange (lo hi c : char) : bool := (lo <=? c) && (c <=? hi).

(** [WhiteSpace] and [LineTerminator] of ECMAScript: the set stripped by
    [String.prototype.trim] and matched by [\s]. *)
Definition isSpace (c : char) : bool :=
  inRange 9 13 c || (c =? 32) || (c =? 160) || (c =? 5760)
  || inRange 8192 8202 c || (c =? 8232) || (c =? 8233) || (c =? 8239)
  || (c =? 8287) || (c =? 12288) || (c =? 65279).

(** [LineTerminator]: where [^] and [$] match under the [m] flag. *)
Definition isLineTerminator (c : char) : bool :=
  (c =? 10) || (c =? 13) || (c =? 8232) || (c =? 8233).

Definition isDigit (c : char) : bool := inRange 48 57 c.
Definition isAlpha (c : char) : bool := inRange 97 122 c || inRange 65 90 c.
Definition isAlnum (c : char) : bool := isAlpha c || isDigit c.
(** [\w] *)
Definition isWord (c : char) : bool := isAlnum c || (c =? UNDERSCORE).

(** *** List helpers used for strings *)

Fixpoint span (p : char -> bool) (s : jsstring) : jsstring * jsstring :=
  match s with
  | [] => ([], [])
  | c :: r => if p c then let (a, b) := span p r in (c :: a, b) else ([], s)
  end.

Definition takeWhile (p : char -> bool) (s : jsstring) : jsstring := fst (span p s).
Definition dropWhile (p : char -> bool) (s : jsstring) : jsstring := snd (span p s).

Definition isEmpty (s : jsstring) : bool :=
  match s with [] => true | _ => false end.

Fixpoint startsWith (p s : jsstring) : bool :=
  match p, s with
  | [], _ => true
  | a :: p', b :: s' => (a =? b) && startsWith p' s'
  | _ :: _, [] => false
  end.

Definition endsWith (p s : jsstring) : bool := startsWith (rev p) (rev s).

(** [===] on strings *)
Fixpoint streq (a b : jsstring) : bool :=
  match a, b with
  | [], [] => true
  | x :: a', y :: b' => (x =? y) && streq a' b'
  | _, _ => false
  end.

(** [String.prototype.includes] *)
Fixpoint includes (p s : jsstring) : bool :=
  startsWith p s || match s with [] => false | _ :: r => includes p r end.

(** [String.prototype.indexOf] and [lastIndexOf] for a one-character needle;
    [-1] when it does not occur. *)
Fixpoint indexOfFrom (i : Z) (c : char) (s : jsstring) : Z :=
  match s with
  | [] => (-1)%Z
  | d :: r => if d =? c then i else indexOfFrom (i + 1)%Z c r
  end.
Definition indexOf (c : char) (s : jsstring) : Z := indexOfFrom 0%Z c s.

Fixpoint lastIndexOfFrom (i : Z) (c : char) (s : jsstring) : Z :=
  match s with
  | [] => (-1)%Z
  | d :: r =>
      let later := lastIndexOfFrom (i + 1)%Z c r in
      if (later =? -1)%Z then (if d =? c then i else (-1)%Z) else later
  end.
Definition lastIndexOf (c : char) (s : jsstring) : Z := lastIndexOfFrom 0%Z c s.

(** *** [trimStart], [trimEnd], [trim] *)

Fixpoint trimStart (s : jsstring) : jsstring :=
  match s with
  | [] => []
  | c :: r => if isSpace c then trimStart r else s
  end.

Fixpoint trimEnd (s : jsstring) : jsstring :=
  match s with
  | [] => []
  | c :: r =>
      match trimEnd r with
      | [] => if isSpace c then [] else [c]
      | r' => c :: r'
      end
  end.

Definition trim (s : jsstring) : jsstring := trimEnd (trimStart s).

(** [split('\n')] and [join('\n')] *)
Fixpoint splitLF (s : jsstring) : list jsstring :=
  match s with
  | [] => [[]]
  | c :: r =>
      if c =? LF then [] :: splitLF r
      else match splitLF r with
           | l :: ls => (c :: l) :: ls
           | [] => [[c]]
           end
  end.

Fixpoint joinLF (ls : list jsstring) : jsstring :=
  match ls with
  | [] => []
  | [l] => l
  | l :: rest => l ++ LF :: joinLF rest
  end.

End JsString.

(* ===================================================================== *)
(** ** The regular expressions of [sanitizeAndParseJson] *)
(* ===================================================================== *)

(** Each regular expression of the source is embedded as the function that
    computes the match the ECMAScript backtracking matcher finds first.  The
    comment of each definition reads the pattern left to right and says why
    the first successful alternative is the one computed.  In these comments
    a pattern is written with a blank between a star and a closing
    parenthesis, and with DQ for the double quote. *)

Module Regex.
Import JsString.

(** *** [fenceRegex = /^```(\w* )?\s*\n?(.*?)\n?\s*```$/s]

    No [m] flag: [^] and [$] are the two ends of the string, so the string
    must start with three backticks, end with three backticks that do not
    overlap the first three, and the pattern in between runs over the middle
    [mid].  The first group is greedy and takes the longest run of word characters;
    [\s*] is greedy and takes all the white space that follows, which leaves
    nothing for [\n?].  The lazy [(.*?)] (with [s], the dot matches every
    code unit) then grows until what remains of [mid] can be matched by
    [\n?\s*], that is until only white space remains: capture group 2 is the
    rest of [mid] without its trailing white space.  With the first two
    quantifiers at their longest this always succeeds, so no other
    alternative is ever tried. *)
Definition fenceRegex_exec (s : jsstring) : option jsstring :=
  match s with
  | a :: b :: c :: r =>
      if (a =? BACKTICK) && (b =? BACKTICK) && (c =? BACKTICK) then
        match rev r with
        | x :: y :: z :: dim =>
            if (x =? BACKTICK) && (y =? BACKTICK) && (z =? BACKTICK) then
              let mid := rev dim in
              Some (trimEnd (dropWhile isSpace (dropWhile isWord mid)))
            else None
        | _ => None
        end
      else None
  | _ => None
  end.

(** *** Ends of lines inside a run of white space

    [lastEol w atEnd] is the largest [p <= length w] at which [$] (with the
    [m] flag) matches, when [w] is a run of white space followed by the end
    of the input ([atEnd = true]) or by a character that is not white space:
    [$] matches at [p] when [p] is the end of the input or the character at
    [p] is a line terminator. *)
Fixpoint lastEol (w : jsstring) (atEnd : bool) : option nat :=
  match w with
  | [] => if atEnd then Some 0%nat else None
  | c :: w' =>
      match lastEol w' atEnd with
      | Some p => Some (S p)
      | None => if isLineTerminator c then Some 0%nat else None
      end
  end.

(** *** Regex 1: [/^\s*([a-zA-Z_][a-zA-Z0-9_]* ):\s*(\[\]|\{\})\s*,?\s*$/gm] *)

Definition isIdentStart (c : char) : bool := isAlpha c || (c =? UNDERSCORE).
Definition isIdentChar (c : char) : bool := isAlnum c || (c =? UNDERSCORE).

(** The tail [\s*,?\s*$] at [s], the text after the bracket pair: number of
    code units it consumes.  The first [\s*] is greedy over the white space
    [w1]; when a comma follows, [,?] takes it and the second [\s*] gives back
    white space of [w2] until [$] holds.  When that fails (or no comma
    follows), the two [\s*] share [w1] and the match ends at the last end of
    line inside [w1]. *)
Definition placeholderTail (s : jsstring) : option nat :=
  let (w1, r1) := span isSpace s in
  match r1 with
  | c :: r2 =>
      if c =? COMMA then
        let (w2, r3) := span isSpace r2 in
        match lastEol w2 (isEmpty r3) with
        | Some p => Some (length w1 + 1 + p)%nat
        | None => lastEol w1 false
        end
      else lastEol w1 false
  | [] => lastEol w1 true
  end.

(** Length of the match of Regex 1 that starts at the beginning of [s],
    which the caller knows to be a beginning of line.  Every quantifier
    before the tail is followed by a character outside its class, so each
    takes its longest run and nothing else can match. *)
Definition placeholderLine_matchLength (s : jsstring) : option nat :=
  let (w0, s1) := span isSpace s in
  match s1 with
  | c :: s2 =>
      if isIdentStart c then
        let (ident, s3) := span isIdentChar s2 in
        match s3 with
        | d :: s4 =>
            if d =? COLON then
              let (w1, s5) := span isSpace s4 in
              match s5 with
              | x :: y :: s6 =>
                  if ((x =? LBRACKET) && (y =? RBRACKET))
                     || ((x =? LBRACE) && (y =? RBRACE)) then
                    match placeholderTail s6 with
                    | Some t =>
                        Some (length w0 + 1 + length ident + 1
                              + length w1 + 2 + t)%nat
                    | None => None
                    end
                  else None
              | _ => None
              end
            else None
        | [] => None
        end
      else None
  | [] => None
  end.

(** [s.replace(regex1, '')]: scan left to right; [bol] says whether the
    current position is a beginning of line (start of the input or just
    after a line terminator), [skip] counts the code units of the current
    match still to be dropped.  After a match the search resumes at its
    end. *)
Fixpoint removePlaceholderLines_from (skip : nat) (bol : bool) (s : jsstring)
  : jsstring :=
  match s with
  | [] => []
  | c :: r =>
      match skip with
      | S k => removePlaceholderLines_from k (isLineTerminator c) r
      | O =>
          match (if bol then placeholderLine_matchLength s else None) with
          | Some (S k) => removePlaceholderLines_from k (isLineTerminator c) r
          | _ => c :: removePlaceholderLines_from 0 (isLineTerminator c) r
          end
      end
  end.

Definition removePlaceholderLines (s : jsstring) : jsstring :=
  removePlaceholderLines_from 0 true s.

(** *** Regex 2:
    [/^(\s* )([a-zA-Z][a-zA-Z0-9\s_.-]*[a-zA-Z0-9]|[a-zA-Z])\s+(DQ)/gm]
    replaced by ['$1$3'] *)

(** The class [[a-zA-Z0-9\s_.-]] *)
Definition isJunkChar (c : char) : bool :=
  isAlnum c || isSpace c || (c =? UNDERSCORE) || (c =? DOT) || (c =? MINUS).

(** Match at the beginning of [s] (a beginning of line): group 1 and the
    length of the whole match.  Group 1 is the leading white space, all of
    it since a letter must follow.  Neither alternative of group 2 nor [\s+]
    can contain a double quote, so group 3 is the first double quote after
    the letter, and the text [j] between the two is a run of junk-class
    characters.  It must split into group 2 and the non-empty white space of
    [\s+]; group 2 ends in a letter or digit, which is not white space, so
    group 2 is [j] without its trailing white space. *)
Definition junkPrefix_match (s : jsstring) : option (jsstring * nat) :=
  let (lead, s1) := span isSpace s in
  match s1 with
  | c :: _ =>
      if isAlpha c then
        let (j, s2) := span isJunkChar s1 in
        match s2 with
        | q :: _ =>
            if q =? DQUOTE then
              let body := trimEnd j in
              if (length body <? length j)%nat && isAlnum (last body 0) then
                Some (lead, (length lead + length j + 1)%nat)
              else None
            else None
        | [] => None
        end
      else None
  | [] => None
  end.

Fixpoint stripJunkPrefixes_from (skip : nat) (bol : bool) (s : jsstring)
  : jsstring :=
  match s with
  | [] => []
  | c :: r =>
      match skip with
      | S k => stripJunkPrefixes_from k (isLineTerminator c) r
      | O =>
          match (if bol then junkPrefix_match s else None) with
          | Some (lead, S k) =>
              lead ++ DQUOTE :: stripJunkPrefixes_from k (isLineTerminator c) r
          | _ => c :: stripJunkPrefixes_from 0 (isLineTerminator c) r
          end
      end
  end.

Definition stripJunkPrefixes (s : jsstring) : jsstring :=
  stripJunkPrefixes_from 0 true s.

(** *** The tests of the line filter *)

(** [[\{\}\[\],DQ]] *)
Definition isStructuralOrQuote (c : char) : bool :=
  (c =? LBRACE) || (c =? RBRACE) || (c =? LBRACKET) || (c =? RBRACKET)
  || (c =? COMMA) || (c =? DQUOTE).

(** [[\{\}\[\],]] *)
Definition isStructural (c : char) : bool :=
  (c =? LBRACE) || (c =? RBRACE) || (c =? LBRACKET) || (c =? RBRACKET)
  || (c =? COMMA).

(** [/^[\{\}\[\],DQ]/.test] *)
Definition startsStructural (t : jsstring) : bool :=
  match t with c :: _ => isStructuralOrQuote c | [] => false end.

(** [/[\{\}\[\],]$/.test]: without the [m] flag [$] is the end of the
    string. *)
Definition endsStructural (t : jsstring) : bool :=
  match rev t with c :: _ => isStructural c | [] => false end.

(** [/[a-zA-Z]/.test] *)
Definition hasLetter (t : jsstring) : bool := existsb isAlpha t.

(** [\d+]: the digits taken and the rest, [None] when there is no digit. *)
Definition digits1 (t : jsstring) : option jsstring :=
  let (d, r) := span isDigit t in
  if isEmpty d then None else Some r.

(** [([eE][+-]?\d+)?$] *)
Definition exponent_test (t : jsstring) : bool :=
  match t with
  | [] => true
  | c :: r =>
      if (c =? 101) || (c =? 69) then
        let r1 := match r with
                  | s :: r' => if (s =? PLUS) || (s =? MINUS) then r' else r
                  | [] => r
                  end in
        match digits1 r1 with
        | Some [] => true
        | _ => false
        end
      else false
  end.

(** [(\.\d+)?([eE][+-]?\d+)?$] *)
Definition fractionAndExponent_test (t : jsstring) : bool :=
  match t with
  | c :: r =>
      if c =? DOT then
        match digits1 r with
        | Some t3 => exponent_test t3
        | None => false
        end
      else exponent_test t
  | [] => true
  end.

(** [^-?\d+(\.\d+)?([eE][+-]?\d+)?$]: every optional part is followed by
    a character it cannot be confused with, so the match is deterministic. *)
Definition numberLiteral_test (t : jsstring) : bool :=
  let t1 := match t with c :: r => if c =? MINUS then r else t | [] => t end in
  match digits1 t1 with
  | Some t2 => fractionAndExponent_test t2
  | None => false
  end.

(** [/^(true|false|-?\d+(\.\d+)?([eE][+-]?\d+)?)$/.test] *)
Definition literalRegex_test (t : jsstring) : bool :=
  streq t [116; 114; 117; 101]
  || streq t [102; 97; 108; 115; 101]
  || numberLiteral_test t.

(** *** [/\n\s*\n/g] replaced by ['\n'] *)

(** [lastLF w]: length of the shortest prefix of [w] that holds every line
    feed of [w]; [None] when [w] has none.  After a line feed, the greedy
    [\s*] followed by [\n] ends the match at the last line feed of the run of
    white space. *)
Fixpoint lastLF (w : jsstring) : option nat :=
  match w with
  | [] => None
  | c :: w' =>
      match lastLF w' with
      | Some p => Some (S p)
      | None => if c =? LF then Some 1%nat else None
      end
  end.

Fixpoint collapseBlankLines_from (skip : nat) (s : jsstring) : jsstring :=
  match s with
  | [] => []
  | c :: r =>
      match skip with
      | S k => collapseBlankLines_from k r
      | O =>
          if c =? LF then
            match lastLF (takeWhile isSpace r) with
            | Some p => LF :: collapseBlankLines_from p r
            | None => c :: collapseBlankLines_from 0 r
            end
          else c :: collapseBlankLines_from 0 r
      end
  end.

Definition collapseBlankLines (s : jsstring) : jsstring :=
  collapseBlankLines_from 0 s.

End Regex.

(* ===================================================================== *)
(** ** A reference matcher for the regular expressions *)
(* ===================================================================== *)

(** The patterns of the source once more, this time written as syntax
    trees and run by a backtracking matcher in continuation-passing style
    that tries the alternatives in the order of ECMA-262 (clause RegExp
    Pattern Semantics): the left branch of a disjunction first, one more
    iteration first for a greedy quantifier, one iteration less first for a
    lazy one, and no iteration that matches the empty string.  The
    functions of [Regex] are compared with it on sample texts. *)

Module RegexReference.
Import JsString Regex.

Inductive Pattern :=
| Char (p : char -> bool)
| Empty
| Seq (a b : Pattern)
| Alt (a b : Pattern)
| Star (greedy : bool) (a : Pattern)
| Group (n : nat) (a : Pattern)
| LineStart (multiline : bool)
| LineEnd (multiline : bool).

(** The code unit before the cursor, the index of the cursor, the text
    after it and the captures so far. *)
Record MatchState := mkMatchState {
  prev : option char;
  pos : nat;
  rest : jsstring;
  captures : list (nat * jsstring)
}.

Definition advance (s : MatchState) : MatchState :=
  match rest s with
  | c :: t => mkMatchState (Some c) (S (pos s)) t (captures s)
  | [] => s
  end.

Definition capture (n : nat) (from to : MatchState) : MatchState :=
  mkMatchState (prev to) (pos to) (rest to)
    ((n, firstn (pos to - pos from) (rest from))
       :: filter (fun c => negb (Nat.eqb (fst c) n)) (captures to)).

Fixpoint matcher (r : Pattern) (k : MatchState -> option MatchState)
  (s : MatchState) {struct r} : option MatchState :=
  match r with
  | Char p =>
      match rest s with
      | c :: _ => if p c then k (advance s) else None
      | [] => None
      end
  | Empty => k s
  | Seq a b => matcher a (matcher b k) s
  | Alt a b =>
      match matcher a k s with
      | Some x => Some x
      | None => matcher b k s
      end
  | Star greedy a =>
      (fix loop (fuel : nat) (s : MatchState) {struct fuel}
         : option MatchState :=
         match fuel with
         | O => k s
         | S fuel' =>
             let once :=
               matcher a
                 (fun s' =>
                    if (length (rest s') <? length (rest s))%nat
                    then loop fuel' s' else None) s in
             if greedy
             then match once with Some x => Some x | None => k s end
             else match k s with Some x => Some x | None => once end
         end) (length (rest s)) s
  | Group n a => matcher a (fun s' => k (capture n s s')) s
  | LineStart multiline =>
      match prev s with
      | None => k s
      | Some c => if multiline && isLineTerminator c then k s else None
      end
  | LineEnd multiline =>
      match rest s with
      | [] => k s
      | c :: _ => if multiline && isLineTerminator c then k s else None
      end
  end.

Definition optional (a : Pattern) : Pattern := Alt a Empty.
Definition plus (a : Pattern) : Pattern := Seq a (Star true a).
Definition only (c : char) : Pattern := Char (N.eqb c).

Fixpoint sequence (l : list Pattern) : Pattern :=
  match l with
  | [] => Empty
  | [a] => a
  | a :: r => Seq a (sequence r)
  end.

Definition word (t : jsstring) : Pattern := sequence (map only t).

(** The match that starts at the cursor. *)
Definition matchAt (r : Pattern) (s : MatchState) : option MatchState :=
  matcher r (fun x => Some x) s.

Definition captured (n : nat) (s : MatchState) : option jsstring :=
  match filter (fun c => Nat.eqb (fst c) n) (captures s) with
  | (_, v) :: _ => Some v
  | [] => None
  end.

(** [String.prototype.replace] with a global pattern: the matches are
    looked for from left to right, each search starting where the last
    match ended, one code unit further after an empty match. *)
Fixpoint replaceFrom (fuel : nat) (r : Pattern)
  (replacement : MatchState -> jsstring) (s : MatchState) : jsstring :=
  match fuel with
  | O => rest s
  | S fuel' =>
      match matchAt r (mkMatchState (prev s) (pos s) (rest s) []) with
      | Some e =>
          if (pos s <? pos e)%nat
          then replacement e ++ replaceFrom fuel' r replacement e
          else match rest s with
               | [] => replacement e
               | c :: _ =>
                   replacement e
                     ++ c :: replaceFrom fuel' r replacement (advance s)
               end
      | None =>
          match rest s with
          | [] => []
          | c :: _ => c :: replaceFrom fuel' r replacement (advance s)
          end
      end
  end.

Definition replaceAll (r : Pattern) (replacement : MatchState -> jsstring)
  (s : jsstring) : jsstring :=
  replaceFrom (S (length s)) r replacement (mkMatchState None 0 s []).

Definition start (s : jsstring) : MatchState := mkMatchState None 0 s [].

Definition space : Pattern := Char isSpace.
Definition backtick : Pattern := only BACKTICK.
Definition anything : Pattern := Char (fun _ => true).
Definition digit : Pattern := Char isDigit.

(** [fenceRegex] and the value of [match[2]]. *)
Definition fencePattern : Pattern :=
  sequence
    [LineStart false; backtick; backtick; backtick;
     optional (Group 1 (Star true (Char isWord)));
     Star true space; optional (only LF);
     Group 2 (Star false anything);
     optional (only LF); Star true space;
     backtick; backtick; backtick; LineEnd false].

Definition fenceRegex_reference (s : jsstring) : option jsstring :=
  match matchAt fencePattern (start s) with
  | Some e => captured 2 e
  | None => None
  end.

(** Regex 1, replaced by the empty string. *)
Definition placeholderPattern : Pattern :=
  sequence
    [LineStart true; Star true space;
     Group 1 (Seq (Char isIdentStart) (Star true (Char isIdentChar)));
     only COLON; Star true space;
     Group 2 (Alt (Seq (only LBRACKET) (only RBRACKET))
                  (Seq (only LBRACE) (only RBRACE)));
     Star true space; optional (only COMMA); Star true space; LineEnd true].

Definition removePlaceholderLines_reference : jsstring -> jsstring :=
  replaceAll placeholderPattern (fun _ => []).

(** Regex 2, replaced by its first and third groups. *)
Definition junkPattern : Pattern :=
  sequence
    [LineStart true; Group 1 (Star true space);
     Group 2 (Alt (sequence [Char isAlpha; Star true (Char isJunkChar);
                             Char isAlnum])
                  (Char isAlpha));
     plus space; Group 3 (only DQUOTE)].

Definition stripJunkPrefixes_reference : jsstring -> jsstring :=
  replaceAll junkPattern
    (fun e =>
       match captured 1 e, captured 3 e with
       | Some a, Some b => a ++ b
       | _, _ => []
       end).

(** The blank-line pattern, replaced by one line feed. *)
Definition blankLinesPattern : Pattern :=
  sequence [only LF; Star true space; only LF].

Definition collapseBlankLines_reference : jsstring -> jsstring :=
  replaceAll blankLinesPattern (fun _ => [LF]).

(** The pattern of bare literals; with [^] in front, only a match that
    starts at index 0 exists. *)
Definition literalPattern : Pattern :=
  sequence
    [LineStart false;
     Group 1
       (Alt (word [116; 114; 117; 101])
          (Alt (word [102; 97; 108; 115; 101])
             (sequence
                [optional (only MINUS); plus digit;
                 optional (Group 2 (Seq (only DOT) (plus digit)));
                 optional
                   (Group 3
                      (sequence
                         [Char (fun c => (c =? 101) || (c =? 69));
                          optional
                            (Char (fun c => (c =? PLUS) || (c =? MINUS)));
                          plus digit]))])));
     LineEnd false].

Definition literalRegex_reference (s : jsstring) : bool :=
  match matchAt literalPattern (start s) with
  | Some _ => true
  | None => false
  end.

(** The functions of [Regex] and the reference matcher agree on [s]. *)
Definition agree (s : jsstring) : bool :=
  match fenceRegex_reference s, fenceRegex_exec s with
  | Some a, Some b => streq a b
  | None, None => true
  | _, _ => false
  end
  && streq (removePlaceholderLines_reference s) (removePlaceholderLines s)
  && streq (stripJunkPrefixes_reference s) (stripJunkPrefixes s)
  && streq (collapseBlankLines_reference s) (collapseBlankLines s)
  && Bool.eqb (literalRegex_reference s) (literalRegex_test s).

End RegexReference.

(* ===================================================================== *)
(** ** [JSON.parse] *)
(* ===================================================================== *)

(** The built-in [JSON.parse] is modelled after the JSON grammar of
    ECMA-262 (clause JSON.parse) as a pushdown recogniser that reads the text
    one code unit at a time and builds the value on its stack. *)

Module Json.
Import JsString.

(** The three literal names. *)

Inductive Literal : Type := LitTrue | LitFalse | LitNull.

Definition literalText (l : Literal) : jsstring :=
  match l with
  | LitTrue => [116; 114; 117; 101]
  | LitFalse => [102; 97; 108; 115; 101]
  | LitNull => [110; 117; 108; 108]
  end.

(** Values [JSON.parse] can produce.  A number is kept as the decimal it was
    written as, [(-1)^neg * mantissa * 10^exp10]; the Number value of
    JavaScript is the double nearest to it.  An object is the list of its
    own properties in creation order, without duplicate names. *)
#[warnings="-register-all"] Inductive JValue : Type :=
| JNull
| JBool (b : bool)
| JNumber (neg : bool) (mantissa : N) (exp10 : Z)
| JString (s : jsstring)
| JArray (elems : list JValue)
| JObject (members : list (jsstring * JValue)).

Definition literalValue (l : Literal) : JValue :=
  match l with
  | LitTrue => JBool true
  | LitFalse => JBool false
  | LitNull => JNull
  end.

(** [CreateDataProperty]: a repeated name overwrites the earlier value. *)
Fixpoint setProperty (k : jsstring) (v : JValue)
  (ms : list (jsstring * JValue)) : list (jsstring * JValue) :=
  match ms with
  | [] => [(k, v)]
  | (k', v') :: r =>
      if streq k k' then (k, v) :: r else (k', v') :: setProperty k v r
  end.

(** Property read on a plain object: [None] is [undefined]. *)
Fixpoint getProperty (k : jsstring) (ms : list (jsstring * JValue))
  : option JValue :=
  match ms with
  | [] => None
  | (k', v') :: r => if streq k k' then Some v' else getProperty k r
  end.

(** JSON white space: tab, line feed, carriage return, space. *)
Definition isJsonSpace (c : char) : bool :=
  (c =? TAB) || (c =? LF) || (c =? CR) || (c =? SPACE).

(** *** Numbers *)

Inductive NumPhase : Type :=
| PMinus      (* after the sign: a digit must follow *)
| PZero       (* after a leading 0 *)
| PInt        (* inside the integer part *)
| PDot        (* after the point: a digit must follow *)
| PFrac       (* inside the fraction *)
| PExp        (* after e or E: a sign or a digit must follow *)
| PExpSign    (* after the sign of the exponent: a digit must follow *)
| PExpDigits. (* inside the exponent *)

Record NumState : Type := mkNum {
  nphase : NumPhase;
  nneg : bool;
  nmant : N;
  nfrac : N;      (* digits read after the point *)
  nexpneg : bool;
  nexp : N
}.

Definition digitVal (c : char) : N := c - 48.

Definition isExpMark (c : char) : bool := (c =? 101) || (c =? 69).

Definition numStep (n : NumState) (c : char) : option NumState :=
  let push ph := Some (mkNum ph (nneg n) (nmant n * 10 + digitVal c)
                             (nfrac n) (nexpneg n) (nexp n)) in
  let pushFrac := Some (mkNum PFrac (nneg n) (nmant n * 10 + digitVal c)
                              (nfrac n + 1) (nexpneg n) (nexp n)) in
  let pushExp := Some (mkNum PExpDigits (nneg n) (nmant n) (nfrac n)
                             (nexpneg n) (nexp n * 10 + digitVal c)) in
  let goto ph := Some (mkNum ph (nneg n) (nmant n) (nfrac n)
                             (nexpneg n) (nexp n)) in
  match nphase n with
  | PMinus => if c =? 48 then goto PZero
              else if isDigit c then push PInt else None
  | PZero => if c =? DOT then goto PDot
             else if isExpMark c then goto PExp else None
  | PInt => if isDigit c then push PInt
            else if c =? DOT then goto PDot
            else if isExpMark c then goto PExp else None
  | PDot => if isDigit c then pushFrac else None
  | PFrac => if isDigit c then pushFrac
             else if isExpMark c then goto PExp else None
  | PExp => if c =? PLUS then goto PExpSign
            else if c =? MINUS then
              Some (mkNum PExpSign (nneg n) (nmant n) (nfrac n) true (nexp n))
            else if isDigit c then pushExp else None
  | PExpSign => if isDigit c then pushExp else None
  | PExpDigits => if isDigit c then pushExp else None
  end.

Definition numFinal (n : NumState) : bool :=
  match nphase n with
  | PZero | PInt | PFrac | PExpDigits => true
  | _ => false
  end.

Definition numValue (n : NumState) : JValue :=
  JNumber (nneg n) (nmant n)
    ((if nexpneg n then - Z.of_N (nexp n) else Z.of_N (nexp n))
     - Z.of_N (nfrac n))%Z.

(** *** Strings *)

Inductive StrPhase : Type :=
| SBody
| SEscape                    (* after a backslash *)
| SHex (todo : nat) (code : N). (* inside \uXXXX, [todo] digits to read *)

Definition hexVal (c : char) : option N :=
  if isDigit c then Some (c - 48)
  else if inRange 97 102 c then Some (c - 87)
  else if inRange 65 70 c then Some (c - 55)
  else None.

Definition escapeVal (c : char) : option char :=
  if c =? DQUOTE then Some DQUOTE
  else if c =? BACKSLASH then Some BACKSLASH
  else if c =? 47 then Some 47
  else if c =? 98 then Some 8
  else if c =? 102 then Some 12
  else if c =? 110 then Some LF
  else if c =? 114 then Some CR
  else if c =? 116 then Some TAB
  else None.

(** *** The recogniser *)

Inductive Frame : Type :=
| FArray (done : list JValue)   (* elements read, most recent first *)
| FObject (done : list (jsstring * JValue)) (key : jsstring).
                                (* properties created, and the current name *)

Inductive Mode : Type :=
| MValue        (* a value must start: at the top, after a colon, after a
                   comma of an array *)
| MArrayStart   (* after an opening bracket: a value or the closing bracket *)
| MObjectStart  (* after an opening brace: a name or the closing brace *)
| MKey          (* after a comma of an object: a name *)
| MColon        (* after a name: the colon *)
| MAfterValue   (* after a value inside an array or object *)
| MDone (v : JValue) (* the text's value is complete *)
| MString (isKey : bool) (acc : jsstring) (ph : StrPhase)
                (* inside a string; [acc] is its value so far, reversed *)
| MLiteral (l : Literal) (seen : nat)
                (* inside true, false or null, [seen] code units read *)
| MNumber (n : NumState)
| MError.

Record PState : Type := mkP { stack : list Frame; mode : Mode }.

Definition failed : PState := mkP [] MError.

(** A complete value [v] is handed to what encloses it. *)
Definition deliver (v : JValue) (st : list Frame) : PState :=
  match st with
  | [] => mkP [] (MDone v)
  | FArray done :: rest => mkP (FArray (v :: done) :: rest) MAfterValue
  | FObject ms k :: rest =>
      mkP (FObject (setProperty k v ms) k :: rest) MAfterValue
  end.

Definition closeArray (st : list Frame) : PState :=
  match st with
  | FArray done :: rest => deliver (JArray (rev done)) rest
  | _ => failed
  end.

Definition closeObject (st : list Frame) : PState :=
  match st with
  | FObject ms _ :: rest => deliver (JObject ms) rest
  | _ => failed
  end.

Definition startValue (c : char) (st : list Frame) : PState :=
  if c =? LBRACE then mkP (FObject [] [] :: st) MObjectStart
  else if c =? LBRACKET then mkP (FArray [] :: st) MArrayStart
  else if c =? DQUOTE then mkP st (MString false [] SBody)
  else if c =? MINUS then mkP st (MNumber (mkNum PMinus true 0 0 false 0))
  else if c =? 48 then mkP st (MNumber (mkNum PZero false 0 0 false 0))
  else if isDigit c then
    mkP st (MNumber (mkNum PInt false (digitVal c) 0 false 0))
  else if c =? 116 then mkP st (MLiteral LitTrue 1)
  else if c =? 102 then mkP st (MLiteral LitFalse 1)
  else if c =? 110 then mkP st (MLiteral LitNull 1)
  else failed.

Definition endString (isKey : bool) (s : jsstring) (st : list Frame) : PState :=
  if isKey then
    match st with
    | FObject ms _ :: rest => mkP (FObject ms s :: rest) MColon
    | _ => failed
    end
  else deliver (JString s) st.

Definition stepString (isKey : bool) (acc : jsstring) (ph : StrPhase)
  (c : char) (st : list Frame) : PState :=
  match ph with
  | SBody =>
      if c =? DQUOTE then endString isKey (rev acc) st
      else if c =? BACKSLASH then mkP st (MString isKey acc SEscape)
      else if c <? 32 then failed
      else mkP st (MString isKey (c :: acc) SBody)
  | SEscape =>
      if c =? 117 then mkP st (MString isKey acc (SHex 4 0))
      else match escapeVal c with
           | Some d => mkP st (MString isKey (d :: acc) SBody)
           | None => failed
           end
  | SHex todo code =>
      match hexVal c with
      | Some d =>
          match todo with
          | S (S k) => mkP st (MString isKey acc (SHex (S k) (code * 16 + d)))
          | _ => mkP st (MString isKey ((code * 16 + d) :: acc) SBody)
          end
      | None => failed
      end
  end.

(** One code unit in any mode but [MNumber]. *)
Definition stepPlain (p : PState) (c : char) : PState :=
  let st := stack p in
  match mode p with
  | MValue => if isJsonSpace c then p else startValue c st
  | MArrayStart =>
      if isJsonSpace c then p
      else if c =? RBRACKET then closeArray st
      else startValue c st
  | MObjectStart =>
      if isJsonSpace c then p
      else if c =? DQUOTE then mkP st (MString true [] SBody)
      else if c =? RBRACE then closeObject st
      else failed
  | MKey =>
      if isJsonSpace c then p
      else if c =? DQUOTE then mkP st (MString true [] SBody)
      else failed
  | MColon =>
      if isJsonSpace c then p
      else if c =? COLON then mkP st MValue
      else failed
  | MAfterValue =>
      if isJsonSpace c then p
      else if c =? COMMA then
        match st with
        | FArray _ :: _ => mkP st MValue
        | FObject _ _ :: _ => mkP st MKey
        | [] => failed
        end
      else if c =? RBRACKET then closeArray st
      else if c =? RBRACE then closeObject st
      else failed
  | MDone _ => if isJsonSpace c then p else failed
  | MString isKey acc ph => stepString isKey acc ph c st
  | MLiteral l seen =>
      match skipn seen (literalText l) with
      | x :: rest =>
          if c =? x then
            match rest with
            | [] => deliver (literalValue l) st
            | _ => mkP st (MLiteral l (S seen))
            end
          else failed
      | [] => failed
      end
  | MNumber _ => failed
  | MError => failed
  end.

(** One code unit.  A number ends at the first code unit that cannot extend
    it; that code unit is then read in the enclosing context. *)
Definition step (p : PState) (c : char) : PState :=
  match mode p with
  | MNumber n =>
      match numStep n c with
      | Some n' => mkP (stack p) (MNumber n')
      | None =>
          if numFinal n then stepPlain (deliver (numValue n) (stack p)) c
          else failed
      end
  | _ => stepPlain p c
  end.

Definition run (p : PState) (s : jsstring) : PState := fold_left step s p.

Definition initial : PState := mkP [] MValue.

(** The value at the end of the text; [None] is a [SyntaxError]. *)
Definition finish (p : PState) : option JValue :=
  match stack p, mode p with
  | [], MDone v => Some v
  | [], MNumber n => if numFinal n then Some (numValue n) else None
  | _, _ => None
  end.

Definition parse (s : jsstring) : option JValue := finish (run initial s).

End Json.

(* ===================================================================== *)
(** ** [services/geminiService.ts] *)
(* ===================================================================== *)

Module Service.
Import JsString Regex Json.

(** *** Exceptions *)

(** A thrown value: an instance of [Error] (which includes [SyntaxError] and
    [TypeError]) with its [message], or anything else. *)
Inductive Thrown : Type :=
| JsError (message : jsstring)
| NonError.

Inductive Completion (A : Type) : Type :=
| Normal (a : A)
| Throw (e : Thrown).
Arguments Normal {A} a.
Arguments Throw {A} e.

(** [try { body } catch (e) { handler }] *)
Definition tryCatch {A : Type} (body : Completion A)
  (handler : Thrown -> Completion A) : Completion A :=
  match body with
  | Normal a => Normal a
  | Throw e => handler e
  end.

Definition bind {A B : Type} (m : Completion A) (k : A -> Completion B)
  : Completion B :=
  match m with
  | Normal a => k a
  | Throw e => Throw e
  end.

Notation "x <- m ;; k" := (bind m (fun x => k))
  (at level 61, m at next level, right associativity).

(** [JSON.parse] throws a [SyntaxError]; its message is chosen by the engine
    and the code never reads it, the text here stands for it. *)
Definition JSON_parse (s : jsstring) : Completion JValue :=
  match Json.parse s with
  | Some v => Normal v
  | None => Throw (JsError (js "Unexpected token in JSON"))
  end.

(** *** The sanitization stage (lines 15 to 51) *)

(** Lines 15 to 20, after the first [trim]: [match && match[2]] holds when
    the pattern matches and group 2 is not the empty string. *)
Definition unwrapFence (saneJsonString : jsstring) : jsstring :=
  match fenceRegex_exec saneJsonString with
  | Some group2 =>
      if isEmpty group2 then saneJsonString else trim group2
  | None => saneJsonString
  end.

(** The callback of [filter] (lines 29 to 48). *)
Definition keepLine (line : jsstring) : bool :=
  let trimmedLine := trim line in
  if (length trimmedLine =? 0)%nat then true
  else if startsStructural trimmedLine then true
  else if endsStructural trimmedLine then true
  else if includes [DQUOTE; COLON; DQUOTE] trimmedLine
          && (indexOf DQUOTE trimmedLine <? lastIndexOf DQUOTE trimmedLine)%Z
       then true
  else if hasLetter trimmedLine then
    (if literalRegex_test trimmedLine then true else false)
  else true.

Definition filterLines (s : jsstring) : jsstring :=
  joinLF (filter keepLine (splitLF s)).

(** Everything [sanitizeAndParseJson] does before its first [JSON.parse]. *)
Definition sanitize (jsonString : jsstring) : jsstring :=
  let s0 := unwrapFence (trim jsonString) in
  let s1 := removePlaceholderLines s0 in
  let s2 := stripJunkPrefixes s1 in
  let s3 := filterLines s2 in
  trim (collapseBlankLines s3).

(** *** The brace and bracket counting fallback (lines 65 to 130) *)

Definition expectedOpenOf (firstChar : option char) : option char :=
  match firstChar with
  | Some c => if c =? LBRACE then Some LBRACE
              else if c =? LBRACKET then Some LBRACKET else None
  | None => None
  end.

Definition expectedCloseOf (firstChar : option char) : option char :=
  match firstChar with
  | Some c => if c =? LBRACE then Some RBRACE
              else if c =? LBRACKET then Some RBRACKET else None
  | None => None
  end.

Section Fallback.
Variable saneJsonString : jsstring.
Variables expectedOpen expectedClose : char.

(** The loop over [j] (lines 100 to 110), on the code units [0..i]. *)
Fixpoint initialStructuralCharFound (upTo : jsstring) : bool :=
  match upTo with
  | [] => false
  | c :: r =>
      if c =? expectedOpen then true
      else if negb ((c =? SPACE) || (c =? LF) || (c =? CR) || (c =? TAB))
      then false
      else initialStructuralCharFound r
  end.

(** The loop over [i] (lines 76 to 117) from index [i] on, [rest] being the
    code units from [i]; the result is [endIndex]. *)
Fixpoint scanFrom (i : nat) (openCount : Z) (inString escapeNextChar : bool)
  (rest : jsstring) : Z :=
  match rest with
  | [] => (-1)%Z
  | char :: rest' =>
      if escapeNextChar then scanFrom (S i) openCount inString false rest'
      else if char =? BACKSLASH then scanFrom (S i) openCount inString true rest'
      else
        let inString' := if char =? DQUOTE then negb inString else inString in
        let openCount' :=
          if negb inString' then
            if char =? expectedOpen then (openCount + 1)%Z
            else if char =? expectedClose then (openCount - 1)%Z
            else openCount
          else openCount in
        if (openCount' =? 0)%Z
           && initialStructuralCharFound (firstn (S i) saneJsonString)
        then Z.of_nat (S i)
        else scanFrom (S i) openCount' inString' false rest'
  end.

Definition findEndIndex : Z := scanFrom 0 0%Z false false saneJsonString.

End Fallback.

(** [saneJsonString.substring(0, endIndex)] for [endIndex >= 0]. *)
Definition substring0 (endIndex : Z) (s : jsstring) : jsstring :=
  firstn (Z.to_nat endIndex) s.

(** The text handed to the second [JSON.parse], when there is one. *)
Definition potentialJsonOf (saneJsonString : jsstring) : option jsstring :=
  let firstChar := hd_error (trimStart saneJsonString) in
  match expectedOpenOf firstChar, expectedCloseOf firstChar with
  | Some expectedOpen, Some expectedClose =>
      let endIndex := findEndIndex saneJsonString expectedOpen expectedClose in
      if negb (endIndex =? -1)%Z
      then Some (substring0 endIndex saneJsonString)
      else None
  | _, _ => None
  end.

(** The [catch] block of lines 57 to 134. *)
Definition fallback (saneJsonString : jsstring) : Completion JValue :=
  if (length saneJsonString =? 0)%nat then Normal JNull
  else
    match potentialJsonOf saneJsonString with
    | Some potentialJson =>
        tryCatch (JSON_parse potentialJson) (fun _ => Normal JNull)
    | None => Normal JNull
    end.

(** [sanitizeAndParseJson]; the value [null] it returns on failure is
    [JNull], the very value [JSON.parse] gives for the text [null]. *)
Definition sanitizeAndParseJson (jsonString : jsstring) : Completion JValue :=
  let saneJsonString := sanitize jsonString in
  tryCatch (JSON_parse saneJsonString) (fun _ => fallback saneJsonString).

(** *** Objects at run time *)

(** The object [analyzeImageAndSuggestProducts] resolves with: a plain
    object, or an array that was given named properties. *)
Inductive ResponseObject : Type :=
| PlainObject (props : list (jsstring * JValue))
| ArrayObject (elems : list JValue) (named : list (jsstring * JValue)).

Definition asObject (v : JValue) : option ResponseObject :=
  match v with
  | JObject ms => Some (PlainObject ms)
  | JArray es => Some (ArrayObject es [])
  | _ => None
  end.

(** [o.name]; [None] is [undefined]. *)
Definition getField (name : jsstring) (o : ResponseObject) : option JValue :=
  match o with
  | PlainObject ps => getProperty name ps
  | ArrayObject _ named => getProperty name named
  end.

(** [o.name = v] *)
Definition setField (name : jsstring) (v : JValue) (o : ResponseObject)
  : ResponseObject :=
  match o with
  | PlainObject ps => PlainObject (setProperty name v ps)
  | ArrayObject es named => ArrayObject es (setProperty name v named)
  end.

(** A decimal [mantissa * 10^exp10] whose nearest double is zero: the
    mantissa is zero or the magnitude is at most [2^-1075]. *)
Definition numberIsZero (mantissa : N) (exp10 : Z) : bool :=
  (mantissa =? 0)
  || ((exp10 <? 0)%Z
      && (Z.of_N mantissa * 2 ^ 1075 <=? 10 ^ (- exp10))%Z).

(** [ToBoolean] *)
Definition toBoolean (v : JValue) : bool :=
  match v with
  | JNull => false
  | JBool b => b
  | JNumber _ m e => negb (numberIsZero m e)
  | JString s => negb (isEmpty s)
  | JArray _ => true
  | JObject _ => true
  end.

(** [x || []] for a property read [x]. *)
Definition orEmptyArray (x : option JValue) : JValue :=
  match x with
  | Some v => if toBoolean v then v else JArray []
  | None => JArray []
  end.

Definition s_analysis := js "analysis".
Definition s_similarProducts := js "similarProducts".
Definition s_complementaryProducts := js "complementaryProducts".

(** *** The two exported operations *)

(** [GenerateContentResponse]: the [text] accessor gives a string or
    [undefined]. *)
Record GenerateContentResponse : Type := { text : option jsstring }.

(** The settled state of the promise an [async] function returns. *)
Inductive Settled (A : Type) : Type :=
| Resolved (a : A)
| Rejected (e : Thrown).
Arguments Resolved {A} a.
Arguments Rejected {A} e.

Definition settle {A : Type} (c : Completion A) : Settled A :=
  match c with
  | Normal a => Resolved a
  | Throw e => Rejected e
  end.

(** [error instanceof Error ? error.message : fallbackText] *)
Definition errorMessageOf (error : Thrown) (fallbackText : jsstring) : jsstring :=
  match error with
  | JsError message => message
  | NonError => fallbackText
  end.

Record Request : Type := {
  model : jsstring;
  mimeType : jsstring;
  data : jsstring;
  prompt : jsstring;
  responseMimeType : jsstring
}.

Section Gemini.

(** The SDK: [ai.models.generateContent] and [chat.sendMessage], each
    awaited, so either a response or a thrown value comes back. *)
Variable Chat : Type.
Variable generateContent : Request -> Completion GenerateContentResponse.
Variable sendMessage : Chat -> jsstring -> Completion GenerateContentResponse.

(** The template literal [textPrompt] of lines 153 to 178, a function of
    [userPrompt]. *)
Variable textPrompt : option jsstring -> jsstring.

(** Messages the engine gives its own [TypeError]s: for [undefined.trim()],
    and for an assignment to a property of a primitive value in strict
    code. *)
Variable trimOfUndefinedMessage : jsstring.
Variable cannotCreatePropertyMessage : jsstring -> JValue -> jsstring.

(** [parsedData.name = parsedData.name || []] on the value [parsedData],
    already known to be truthy.  The module is strict code: the assignment
    throws on a primitive. *)
Definition defaultField (name : jsstring) (parsedData : JValue)
  (o : option ResponseObject) : Completion ResponseObject :=
  match o with
  | Some obj => Normal (setField name (orEmptyArray (getField name obj)) obj)
  | None => Throw (JsError (cannotCreatePropertyMessage name parsedData))
  end.

(** The argument of [ai.models.generateContent] (lines 144 to 188). *)
Definition analysisRequest (imageBase64 imageType : jsstring)
  (userPrompt : option jsstring) : Request :=
  {| model := js "gemini-2.5-flash-preview-04-17";
     mimeType := imageType;
     data := imageBase64;
     prompt := textPrompt userPrompt;
     responseMimeType := js "application/json" |}.

(** The [try] block of [analyzeImageAndSuggestProducts] (lines 143 to 204). *)
Definition analyzeBody (imageBase64 imageType : jsstring)
  (userPrompt : option jsstring) : Completion ResponseObject :=
  response <- generateContent
                (analysisRequest imageBase64 imageType userPrompt) ;;
  let rawJson := text response in
  parsedData <- match rawJson with
                | Some raw => sanitizeAndParseJson raw
                | None => Throw (JsError trimOfUndefinedMessage)
                end ;;
  if negb (toBoolean parsedData) then
    Throw (JsError (js "Failed to parse Gemini response or response was empty."))
  else
    o1 <- defaultField s_similarProducts parsedData (asObject parsedData) ;;
    o2 <- defaultField s_complementaryProducts parsedData (Some o1) ;;
    Normal o2.

(** The object built in the [catch] block (lines 209 to 213). *)
Definition errorResponse (errorMessage : jsstring) : ResponseObject :=
  PlainObject
    [ (s_analysis,
       JString (js "Error during analysis: " ++ errorMessage
                ++ js ". Please try a different image or prompt."));
      (s_similarProducts, JArray []);
      (s_complementaryProducts, JArray []) ].

Definition analyzeImageAndSuggestProducts (imageBase64 imageType : jsstring)
  (userPrompt : option jsstring) : Settled ResponseObject :=
  settle
    (tryCatch (analyzeBody imageBase64 imageType userPrompt)
       (fun error =>
          let errorMessage :=
            errorMessageOf error
              (js "An unknown error occurred during image analysis.") in
          Normal (errorResponse errorMessage))).

(** [sendMessageInChat]; [None] is [undefined], which [response.text] can
    be. *)
Definition sendMessageInChat (chat : Chat) (message : jsstring)
  : Settled (option jsstring) :=
  settle
    (tryCatch
       (response <- sendMessage chat message ;; Normal (text response))
       (fun error =>
          let errorMessage :=
            errorMessageOf error (js "An unknown error occurred during chat.") in
          Normal (Some (js "I apologize, but I encountered an error: "
                        ++ errorMessage)))).

End Gemini.

(** [Array.isArray] on the value of a property. *)
Definition isArrayValue (v : JValue) : bool :=
  match v with JArray _ => true | _ => false end.

(** The three-backtick delimiter of a fenced block. *)
Definition fenceMarker : jsstring := [BACKTICK; BACKTICK; BACKTICK].

(** A fenced block around [j]: the opening delimiter with its language tag,
    white space [sep1] (in a formatted text, the line break that ends the
    opening line), [j], white space [sep2], the closing delimiter. *)
Definition fenced (tag sep1 j sep2 : jsstring) : jsstring :=
  fenceMarker ++ tag ++ sep1 ++ j ++ sep2 ++ fenceMarker.

End Service.

(* ===================================================================== *)
(** ** [App.tsx]: the handlers that call the two operations *)
(* ===================================================================== *)

(** The state of [App] is a record; each [setState(prev => ...)] is the
    function it is given, and a handler is the list of the functions it
    hands to [setState], in order, with what it hands to
    [setInitialChatPrompt].  [Date.now()] and [new Date()] are read from the
    arguments [dateNow] and [newDate]. *)

Module App.
Import JsString Json Service.

(** A text of the source without double quotes, apostrophes kept. *)
Definition txt (s : string) : jsstring :=
  map N_of_ascii (list_ascii_of_string s).

(** [n.toString()] for a non-negative integer below [10^21]. *)
Definition numberToString (n : N) : jsstring :=
  txt (NilZero.string_of_uint (N.to_uint n)).

(** [types.ts] *)
Inductive LoadingState : Type := IDLE | ANALYZING_IMAGE | CHATTING.
Inductive Sender : Type := user | ai.
Inductive Tab : Type := similar | complementary.

Definition LoadingState_eqb (a b : LoadingState) : bool :=
  match a, b with
  | IDLE, IDLE | ANALYZING_IMAGE, ANALYZING_IMAGE | CHATTING, CHATTING => true
  | _, _ => false
  end.

(** [text] is typed [string]; [sendMessageInChat] can resolve with
    [undefined], which is [None]. *)
Record ChatMessage : Type := {
  id : jsstring;
  sender : Sender;
  text : option jsstring;
  timestamp : N
}.

(** [AppState].  The product lists and [analyzedText] hold whatever value
    the result of the analysis has under that name; [None] is
    [undefined], and [null] is [Some JNull]. *)
Record AppState (Chat : Type) : Type := {
  uploadedImage : option jsstring;
  uploadedImageType : option jsstring;
  analyzedText : option JValue;
  similarProducts : option JValue;
  complementaryProducts : option JValue;
  chatMessages : list ChatMessage;
  currentChat : option Chat;
  isLoading : bool;
  loadingState : LoadingState;
  error : option jsstring;
  isCheckoutModalOpen : bool;
  userInput : jsstring;
  activeTab : Tab
}.
Arguments uploadedImage {Chat} a.
Arguments uploadedImageType {Chat} a.
Arguments analyzedText {Chat} a.
Arguments similarProducts {Chat} a.
Arguments complementaryProducts {Chat} a.
Arguments chatMessages {Chat} a.
Arguments currentChat {Chat} a.
Arguments isLoading {Chat} a.
Arguments loadingState {Chat} a.
Arguments error {Chat} a.
Arguments isCheckoutModalOpen {Chat} a.
Arguments userInput {Chat} a.
Arguments activeTab {Chat} a.

Definition initialState (Chat : Type) : AppState Chat :=
  {| uploadedImage := None;
     uploadedImageType := None;
     analyzedText := Some JNull;
     similarProducts := Some (JArray []);
     complementaryProducts := Some (JArray []);
     chatMessages := [];
     currentChat := None;
     isLoading := false;
     loadingState := IDLE;
     error := None;
     isCheckoutModalOpen := false;
     userInput := [];
     activeTab := similar |}.

(** What a handler does: the functions handed to [setState], in order, and
    the argument of [setInitialChatPrompt] when it is called. *)
Record Effects (Chat : Type) : Type := {
  updates : list (AppState Chat -> AppState Chat);
  initialChatPrompt : option jsstring
}.
Arguments updates {Chat} e.
Arguments initialChatPrompt {Chat} e.

(** The state once the functions have been applied, when nothing else
    changes the state in between. *)
Definition applyUpdates {Chat : Type} (us : list (AppState Chat -> AppState Chat))
  (s : AppState Chat) : AppState Chat :=
  fold_left (fun st u => u st) us s.

Section Handlers.
Variable Chat : Type.

(** The SDK, as in [Service]. *)
Variable generateContent : Request -> Completion GenerateContentResponse.
Variable sendMessage : Chat -> jsstring -> Completion GenerateContentResponse.
Variable textPrompt : option jsstring -> jsstring.
Variable trimOfUndefinedMessage : jsstring.
Variable cannotCreatePropertyMessage : jsstring -> JValue -> jsstring.

(** [startChatSession()], which calls [ai.chats.create]. *)
Variable startChatSession : unit -> Completion Chat.

(** The message of the [TypeError] the engine raises for
    [result.analysis.startsWith(...)] when [result.analysis] is not a
    string: no value of another type that [JSON.parse] gives has a method
    of that name. *)
Variable startsWithFailureMessage : option JValue -> jsstring.

(** *** [handleImageUpload] *)

(** The first [setState] (lines 33 to 44). *)
Definition uploadStarted (base64Image imageType : jsstring)
  (prev : AppState Chat) : AppState Chat :=
  {| uploadedImage := Some base64Image;
     uploadedImageType := Some imageType;
     analyzedText := Some JNull;
     similarProducts := Some (JArray []);
     complementaryProducts := Some (JArray []);
     chatMessages := [];
     currentChat := currentChat prev;
     isLoading := true;
     loadingState := ANALYZING_IMAGE;
     error := None;
     isCheckoutModalOpen := isCheckoutModalOpen prev;
     userInput := userInput prev;
     activeTab := activeTab prev |}.

(** The [setState] at the end of the [try] block (lines 70 to 79). *)
Definition uploadFinished (result : ResponseObject) (newChat : Chat)
  (initialMessages : list ChatMessage) (prev : AppState Chat)
  : AppState Chat :=
  {| uploadedImage := uploadedImage prev;
     uploadedImageType := uploadedImageType prev;
     analyzedText := getField s_analysis result;
     similarProducts := getField s_similarProducts result;
     complementaryProducts := getField s_complementaryProducts result;
     chatMessages := initialMessages;
     currentChat := Some newChat;
     isLoading := false;
     loadingState := IDLE;
     error := error prev;
     isCheckoutModalOpen := isCheckoutModalOpen prev;
     userInput := userInput prev;
     activeTab := activeTab prev |}.

(** The [setState] of the [catch] block (lines 83 to 88). *)
Definition uploadFailed (err : Thrown) (prev : AppState Chat)
  : AppState Chat :=
  let errorMsg := errorMessageOf err (txt "An unknown error occurred.") in
  {| uploadedImage := uploadedImage prev;
     uploadedImageType := uploadedImageType prev;
     analyzedText := analyzedText prev;
     similarProducts := similarProducts prev;
     complementaryProducts := complementaryProducts prev;
     chatMessages := chatMessages prev;
     currentChat := currentChat prev;
     isLoading := false;
     loadingState := IDLE;
     error := Some (txt "Failed to analyze image: " ++ errorMsg);
     isCheckoutModalOpen := isCheckoutModalOpen prev;
     userInput := userInput prev;
     activeTab := activeTab prev |}.

(** Lines 50 to 67: the first message of the chat and the prompt proposed
    to the user.  Both branches call [result.analysis.startsWith], the
    first after [result.analysis] was found truthy, the second while the
    message is built; when [result.analysis] is not a string the call
    throws before anything is pushed or set. *)
Definition firstMessage (analysis : option JValue) (dateNow newDate : N)
  : Completion (ChatMessage * jsstring) :=
  match analysis with
  | Some (JString s) =>
      if negb (isEmpty s) && negb (startsWith (txt "Error:") s) then
        Normal
          ({| id := numberToString dateNow;
              sender := ai;
              text :=
                Some (txt "Okay, I've analyzed your image! Here's what I see: "
                      ++ s);
              timestamp := newDate |},
           txt "Tell me more about similar items or what I can pair with this.")
      else
        Normal
          ({| id := numberToString dateNow;
              sender := ai;
              text :=
                Some (if startsWith (txt "Error:") s then s
                      else txt "I've processed the image. How can I help you find what you're looking for?");
              timestamp := newDate |},
           txt "Can you find products like in the image?")
  | other => Throw (JsError (startsWithFailureMessage other))
  end.

(** The [try] block (lines 46 to 79): the result is awaited, the chat is
    created, then the message is built. *)
Definition uploadTry (base64Image imageType : jsstring) (dateNow newDate : N)
  : Completion (jsstring * (AppState Chat -> AppState Chat)) :=
  match analyzeImageAndSuggestProducts generateContent textPrompt
          trimOfUndefinedMessage cannotCreatePropertyMessage
          base64Image imageType None with
  | Rejected err => Throw err
  | Resolved result =>
      newChat <- startChatSession tt ;;
      first <- firstMessage (getField s_analysis result) dateNow newDate ;;
      Normal (snd first, uploadFinished result newChat [fst first])
  end.

Definition handleImageUpload (base64Image imageType : jsstring)
  (dateNow newDate : N) : Effects Chat :=
  match uploadTry base64Image imageType dateNow newDate with
  | Normal (prompt, finished) =>
      {| updates := [uploadStarted base64Image imageType; finished];
         initialChatPrompt := Some prompt |}
  | Throw err =>
      {| updates := [uploadStarted base64Image imageType; uploadFailed err];
         initialChatPrompt := None |}
  end.

(** *** [handleSendMessage] *)

(** [chatMessages: [...prev.chatMessages, message]] with the other fields
    the three calls of [setState] give. *)
Definition messageAdded (message : ChatMessage) (loading : bool)
  (state : LoadingState) (err : AppState Chat -> option jsstring)
  (prev : AppState Chat) : AppState Chat :=
  {| uploadedImage := uploadedImage prev;
     uploadedImageType := uploadedImageType prev;
     analyzedText := analyzedText prev;
     similarProducts := similarProducts prev;
     complementaryProducts := complementaryProducts prev;
     chatMessages := chatMessages prev ++ [message];
     currentChat := currentChat prev;
     isLoading := loading;
     loadingState := state;
     error := err prev;
     isCheckoutModalOpen := isCheckoutModalOpen prev;
     userInput := userInput prev;
     activeTab := activeTab prev |}.

(** Lines 102 to 108: the message of the user is added and [error] is
    reset. *)
Definition userMessageAdded (messageText : jsstring) (dateNow newDate : N)
  : AppState Chat -> AppState Chat :=
  messageAdded
    {| id := numberToString dateNow; sender := user;
       text := Some messageText; timestamp := newDate |}
    true CHATTING (fun _ => None).

(** Lines 118 to 122 and 133 to 138: a message of the assistant is added,
    [error] is left as it is. *)
Definition aiMessageAdded (messageText : option jsstring) (dateNow newDate : N)
  : AppState Chat -> AppState Chat :=
  messageAdded
    {| id := numberToString (dateNow + 1); sender := ai;
       text := messageText; timestamp := newDate |}
    false IDLE error.

(** [state] is the state the handler was created with: it reads
    [state.currentChat], not the state at the time of the call. *)
Definition handleSendMessage (state : AppState Chat) (messageText : jsstring)
  (dateNow newDate dateNow' newDate' : N)
  : list (AppState Chat -> AppState Chat) :=
  match currentChat state with
  | None => []
  | Some chat =>
      userMessageAdded messageText dateNow newDate
      :: match sendMessageInChat Chat sendMessage chat messageText with
         | Resolved aiResponseText =>
             [aiMessageAdded aiResponseText dateNow' newDate']
         | Rejected err =>
             let errorMsg :=
               errorMessageOf err
                 (txt "An unknown error occurred during chat.") in
             [aiMessageAdded
                (Some (txt "Sorry, I encountered an error: " ++ errorMsg))
                dateNow' newDate']
         end
  end.

End Handlers.

End App.

(* ===================================================================== *)
(** ** The components that call the handlers *)
(* ===================================================================== *)

Module ChatInterface.
Import JsString.

(** [handleSend] on the current [input]: the argument of [onSendMessage]
    when it is called, and the value of [input] afterwards. *)
Definition handleSend (input : jsstring) (isLoading : bool)
  : option jsstring * jsstring :=
  if negb (isEmpty (trim input)) && negb isLoading
  then (Some (trim input), [])
  else (None, input).

(** [handleKeyPress]: whether [preventDefault] is called, and what
    [handleSend] does. *)
Definition handleKeyPress (key : jsstring) (shiftKey : bool)
  (input : jsstring) (isLoading : bool)
  : bool * (option jsstring * jsstring) :=
  if streq key (App.txt "Enter") && negb shiftKey
  then (true, handleSend input isLoading)
  else (false, (None, input)).

(** The condition under which the spinner is drawn after the messages. *)
Definition spinnerShown (messages : list App.ChatMessage) (isLoading : bool)
  : bool :=
  isLoading && (0 <? length messages)%nat
  && match nth_error messages (length messages - 1) with
     | Some m =>
         match App.sender m with App.user => true | App.ai => false end
     | None => false
     end.

(** The [isLoading] property [App] gives the component. *)
Definition isLoadingOf {Chat : Type} (state : App.AppState Chat) : bool :=
  App.LoadingState_eqb (App.loadingState state) App.CHATTING.

End ChatInterface.

Module ImageUpload.
Import JsString.

(** [String.prototype.split] with a separator of one code unit. *)
Fixpoint split (separator : char) (s : jsstring) : list jsstring :=
  match s with
  | [] => [[]]
  | c :: r =>
      if c =? separator then [] :: split separator r
      else match split separator r with
           | l :: ls => (c :: l) :: ls
           | [] => [[c]]
           end
  end.

(** What the handler reads of the chosen [File]. *)
Record File : Type := { type : jsstring; size : N }.

(** What [handleFileChange] does with a file: it refuses it with a message
    (and clears the preview), or it starts reading it. *)
Inductive Decision : Type :=
| Refused (error : jsstring)
| Reading.

Definition handleFileChange (file : option File) : option Decision :=
  match file with
  | None => None
  | Some file =>
      Some
        (if negb (startsWith (App.txt "image/") (type file)) then
           Refused (App.txt "Invalid file type. Please upload an image (jpeg, png, gif, webp).")
         else if 5 * 1024 * 1024 <? size file then
           Refused (App.txt "File is too large. Maximum size is 5MB.")
         else Reading)
  end.

(** [reader.onloadend]: the two arguments of [onImageUpload];
    [result.split(',')[1]] is [undefined] ([None]) when [result] holds no
    comma. *)
Definition onloadend (file : File) (result : jsstring)
  : option jsstring * jsstring :=
  (nth_error (split COMMA result) 1, type file).

End ImageUpload.

Module ProductCard.
Import JsString.

(** The text under the name of the product:
    [description.substring(0, 100)] followed by three dots when the
    description is longer. *)
Definition shownDescription (description : jsstring) : jsstring :=
  firstn 100 description
  ++ (if (100 <? length description)%nat then App.txt "..." else []).

(** [product.imageUrl || `https://picsum.photos/seed/${product.id}/300/200`] *)
Definition imageSrc (imageUrl id : jsstring) : jsstring :=
  if isEmpty imageUrl
  then App.txt "https://picsum.photos/seed/" ++ id ++ App.txt "/300/200"
  else imageUrl.

End ProductCard.

(* ===================================================================== *)
(** ** Sample collaborators *)
(* ===================================================================== *)

(** Stand-ins for the SDK, used to run the two operations on concrete
    inputs. *)
Module Samples.
Import JsString Json Service.

Definition noPrompt (_ : option jsstring) : jsstring := js "prompt".
Definition trimMessage : jsstring :=
  js "Cannot read properties of undefined (reading 'trim')".
Definition createMessage (name : jsstring) (_ : JValue) : jsstring :=
  js "Cannot create property '" ++ name ++ js "'".

(** A model call that fails in transport. *)
Definition offline (_ : Request) : Completion GenerateContentResponse :=
  Throw (JsError (js "fetch failed")).

(** A model call that answers with the given text. *)
Definition answering (t : jsstring) (_ : Request)
  : Completion GenerateContentResponse :=
  Normal {| text := Some t |}.

Definition chatOffline (_ : unit) (_ : jsstring)
  : Completion GenerateContentResponse :=
  Throw (JsError (js "quota exceeded")).

Definition analyzeWith (gen : Request -> Completion GenerateContentResponse)
  : Settled ResponseObject :=
  analyzeImageAndSuggestProducts gen noPrompt trimMessage createMessage
    (js "aGVsbG8=") (js "image/png") None.

(** Texts on which the patterns are exercised. *)
Definition patternSamples : list jsstring :=
  [ js "-12.5e-7"; js "0.5E+10"; js "1e"; js "1.e5"; js "-"; js "-.5";
    js "12a"; js "1e5x"; js "1.5.5"; js "tru"; js "truee"; js "false ";
    js "-0"; js "00"; js "true"; js "false"; js "-1.5e+3"; js "1."; [];
    js "a: []"; js "ab_1: {}"; js " a:[] ,"; js "1a: []"; js "a : []";
    lines ["a: [],"; ""]; lines ["a: {}"; ""; "b: []"];
    lines ["{"; "  a: []"; "  'b': 1,"; "  c: {} , "; "}"];
    js "a: []" ++ [CR; LF] ++ js "b: {}";
    js "a: []" ++ [8232] ++ js "b: {}" ++ [8233] ++ js "c: [] x";
    lines ["a: [] , "; ""; " b: {}"];
    lines ["```json"; "{}"; "```"]; lines ["```"; "```"]; js "``````";
    js "```a```"; js "``` ```a``` ```"; js "```json{'a':1}```";
    lines ["```json"; ""; "{'a':"; "1}"; ""; "  ```"];
    lines ["```js on"; "x"; "```"]; js "```` ````"; js "``` x ``";
    lines ["```"; "```"; "x"; "```"; "```"];
    js "junk 'x'"; js "a b 'c'"; lines ["a"; "b 'x'"]; js " a- '";
    js "a_ '"; js "a.b  'q"; js "a'"; js "a  'b' c 'd'"; js "_a 'x'";
    js "Here is: 'x'"; lines ["x 'a'"; "  note 'b'"; "'c'"];
    js "ab" ++ [TAB; 160] ++ js "'x'"; js "a" ++ [LF] ++ js "'x'";
    lines [""; ""; ""]; lines ["a"; " "; ""; "b"]; lines ["x"; ""; ""];
    [LF; TAB; LF; LF; 32; LF]; lines ["a"; ""; "b"; ""; ""; ""; "c"];
    js "x" ++ [LF; CR; LF] ++ js "y"; lines ["{"; ""; "  'a': 1"; ""; "}"] ].

(** A chat session that is created at once, and a model that answers every
    message of the chat with the same text. *)
Definition chatCreated (_ : unit) : Completion unit := Normal tt.

Definition chatAnswering (t : jsstring) (_ : unit) (_ : jsstring)
  : Completion GenerateContentResponse :=
  Normal {| text := Some t |}.

Definition startsWithMessage (_ : option JValue) : jsstring :=
  js "result.analysis.startsWith is not a function".

Definition uploadWith (gen : Request -> Completion GenerateContentResponse)
  : App.Effects unit :=
  App.handleImageUpload unit gen noPrompt trimMessage createMessage
    chatCreated startsWithMessage (js "aGVsbG8=") (js "image/png")
    1700000000000 1700000000001.

End Samples.

(* ===================================================================== *)
(** ** Notions used in the proofs *)
(* ===================================================================== *)

Module Analysis.
Import JsString Regex Json Service.

(** Characters a JSON value can start with. *)
Definition valueStart (c : char) : bool :=
  (c =? LBRACE) || (c =? LBRACKET) || (c =? DQUOTE) || (c =? MINUS)
  || isDigit c || (c =? 116) || (c =? 102) || (c =? 110).

Definition noLF (w : jsstring) : bool := forallb (fun c => negb (c =? LF)) w.

(** Number of backticks the text starts with. *)
Fixpoint btRun (s : jsstring) : nat :=
  match s with
  | c :: r => if c =? BACKTICK then S (btRun r) else 0%nat
  | [] => 0%nat
  end.

(** No three backticks in a row. *)
Fixpoint noFence (s : jsstring) : bool :=
  match s with
  | [] => true
  | _ :: r => (btRun s <? 3)%nat && noFence r
  end.

(** The output so far can be continued by anything without completing a
    marker across the junction. *)
Definition safeEnd (pre : jsstring) : bool :=
  match rev pre with
  | [] => true
  | c :: _ => negb (c =? BACKTICK)
  end.

Definition isObjectFrame (f : Frame) : bool :=
  match f with FObject _ _ => true | FArray _ => false end.

(** The kinds of the open containers, innermost first: [true] for an
    object. *)
Definition kinds (st : list Frame) : list bool := map isObjectFrame st.

(** How many open containers are of kind [K]. *)
Fixpoint depthOf (K : bool) (ks : list bool) : Z :=
  match ks with
  | [] => 0%Z
  | k :: r => ((if Bool.eqb k K then 1 else 0) + depthOf K r)%Z
  end.

Definition inStringMode (m : Mode) : bool :=
  match m with MString _ _ _ => true | _ => false end.

Definition inEscapeMode (m : Mode) : bool :=
  match m with MString _ _ SEscape => true | _ => false end.

Definition openChar (K : bool) : char := if K then LBRACE else LBRACKET.

Definition closeChar (K : bool) : char := if K then RBRACE else RBRACKET.

(** What one turn of the loop over [i] does to [openCount], [inString] and
    [escapeNextChar]. *)
Definition scanStep (expectedOpen expectedClose : char)
  (openCount : Z) (inString escapeNextChar : bool) (c : char)
  : Z * bool * bool :=
  if escapeNextChar then (openCount, inString, false)
  else if c =? BACKSLASH then (openCount, inString, true)
  else
    let inString' := if c =? DQUOTE then negb inString else inString in
    let openCount' :=
      if negb inString' then
        if c =? expectedOpen then (openCount + 1)%Z
        else if c =? expectedClose then (openCount - 1)%Z
        else openCount
      else openCount in
    (openCount', inString', false).

(** How the stack changes in one step that does not fail. *)
Inductive StackMove (ks ks' : list bool) : Prop :=
| SameStack : ks' = ks -> StackMove ks ks'
| Pushed k : ks' = k :: ks -> StackMove ks ks'
| Popped k : ks = k :: ks' -> StackMove ks ks'.

Definition noLT (s : jsstring) : bool :=
  forallb (fun c => negb (isLineTerminator c)) s.

(** The number automaton run on a whole text. *)
Fixpoint numAccepts (n : NumState) (r : jsstring) : bool :=
  match r with
  | [] => numFinal n
  | c :: r' =>
      match numStep n c with
      | Some n' => numAccepts n' r'
      | None => false
      end
  end.

(** The recogniser is between tokens: not inside a string, a literal name
    or a number. *)
Definition plainMode (m : Mode) : bool :=
  match m with
  | MString _ _ _ | MLiteral _ _ | MNumber _ => false
  | _ => true
  end.

(** The recogniser is between tokens and has just read a value or is
    reading a literal name: an identifier character can follow only as the
    next letter of the name. *)
Definition afterWord (m : Mode) : bool :=
  match m with
  | MLiteral _ _ | MAfterValue | MDone _ => true
  | _ => false
  end.

(** No line separator and no paragraph separator. *)
Definition noSeparator (s : jsstring) : bool :=
  forallb (fun c => negb ((c =? 8232) || (c =? 8233))) s.

(** The state of the loop over [i] once it has gone through the code units
    of [p]: [openCount], [inString] and [escapeNextChar]. *)
Definition scanState (expectedOpen expectedClose : char) (p : jsstring)
  : Z * bool * bool :=
  fold_left
    (fun st c =>
       let '(openCount, inString, escapeNextChar) := st in
       scanStep expectedOpen expectedClose openCount inString escapeNextChar c)
    p (0%Z, false, false).

Definition openCountAfter (expectedOpen expectedClose : char) (p : jsstring)
  : Z :=
  fst (fst (scanState expectedOpen expectedClose p)).

Definition inStringAfter (expectedOpen expectedClose : char) (p : jsstring)
  : bool :=
  snd (fst (scanState expectedOpen expectedClose p)).

Definition escapeAfter (expectedOpen expectedClose : char) (p : jsstring)
  : bool :=
  snd (scanState expectedOpen expectedClose p).

(** A character that is no line terminator, double quote, bracket or
    brace. *)
Definition isPlainChar (c : char) : bool :=
  negb (isLineTerminator c || (c =? DQUOTE)
        || (c =? LBRACE) || (c =? RBRACE)
        || (c =? LBRACKET) || (c =? RBRACKET)).

(** A line of commentary around the JSON text: made of such characters,
    and either dropped by the line filter or made of spaces and tabs
    only. *)
Definition commentaryLine (l : jsstring) : bool :=
  forallb isPlainChar l && (negb (keepLine l) || forallb isJsonSpace l).

(** The lines [ls], each followed by a line feed, and each preceded by
    one. *)
Definition linesBefore (ls : list jsstring) : jsstring :=
  concat (map (fun l => l ++ [LF]) ls).

Definition linesAfter (ls : list jsstring) : jsstring :=
  concat (map (fun l => LF :: l) ls).

(** The characters of such lines and the line feeds between them. *)
Definition isCommentaryChar (c : char) : bool := isPlainChar c || (c =? LF).

(** A space or a tab. *)
Definition isBlankChar (c : char) : bool := (c =? SPACE) || (c =? TAB).

End Analysis.

(* ===================================================================== *)
(** * Properties *)
(* ===================================================================== *)

Import JsString Regex Json Service Analysis.

(** ** Character classes *)

Ltac bool2prop :=
  repeat (rewrite ?Bool.andb_true_iff, ?Bool.orb_true_iff,
            ?Bool.andb_false_iff, ?Bool.orb_false_iff,
            ?Bool.negb_true_iff, ?Bool.negb_false_iff,
            ?N.eqb_eq, ?N.eqb_neq, ?N.leb_le, ?N.leb_gt,
            ?N.ltb_lt, ?N.ltb_ge in * ).

Ltac unfold_classes :=
  unfold isJunkChar, isIdentStart, isIdentChar, isStructuralOrQuote,
    isStructural, isWord, isAlnum, isAlpha, isDigit, isSpace,
    isLineTerminator, isJsonSpace, isExpMark, inRange,
    TAB, LF, CR, SPACE, DQUOTE, PLUS, COMMA, MINUS, DOT, COLON, LBRACKET,
    BACKSLASH, RBRACKET, UNDERSCORE, BACKTICK, LBRACE, RBRACE in *.

(** Arithmetic on code units: goals and hypotheses about character classes
    become linear facts. *)
Ltac charlia := unfold_classes; bool2prop; lia.

Lemma lineTerminator_isSpace c : isLineTerminator c = true -> isSpace c = true.
Proof. charlia. Qed.

Lemma jsonSpace_isSpace c : isJsonSpace c = true -> isSpace c = true.
Proof. charlia. Qed.

Lemma streq_refl a : streq a a = true.
Proof. induction a; simpl; [reflexivity | rewrite N.eqb_refl; assumption]. Qed.

Lemma streq_eq a b : streq a b = true -> a = b.
Proof.
  revert b; induction a as [|x a IH]; intros [|y b]; simpl; try congruence.
  rewrite Bool.andb_true_iff, N.eqb_eq. intros [-> H]. f_equal. auto.
Qed.

(** ** The patterns against the reference matcher *)

(** On every sample text the functions of [Regex] compute what the
    reference matcher finds. *)
Example patterns_agree_with_reference :
  forallb RegexReference.agree Samples.patternSamples = true.
Proof. vm_compute. reflexivity. Qed.

(** ** Trimming *)

Lemma trimStart_allSpace s : forallb isSpace s = true -> trimStart s = [].
Proof.
  induction s as [|c r IH]; simpl; [reflexivity|].
  rewrite Bool.andb_true_iff. intros [-> H]. auto.
Qed.

Lemma trim_allSpace s : forallb isSpace s = true -> trim s = [].
Proof. intros H. unfold trim. rewrite trimStart_allSpace; auto. Qed.

Lemma trimStart_app_space w s :
  forallb isSpace w = true -> trimStart (w ++ s) = trimStart s.
Proof.
  induction w as [|c w IH]; simpl; [reflexivity|].
  rewrite Bool.andb_true_iff. intros [-> H]. auto.
Qed.

Lemma trimStart_nonspace c r : isSpace c = false -> trimStart (c :: r) = c :: r.
Proof. simpl. intros ->. reflexivity. Qed.

(** What [trimStart] returns starts with a character that is not white
    space. *)
Lemma trimStart_head s c r : trimStart s = c :: r -> isSpace c = false.
Proof.
  induction s as [|d s IH]; simpl; [discriminate|].
  destruct (isSpace d) eqn:E; [assumption|]. intros [= <- _]. assumption.
Qed.

Lemma trimStart_split s :
  exists w, s = w ++ trimStart s /\ forallb isSpace w = true.
Proof.
  induction s as [|c r [w [Hw Hs]]]; simpl.
  - exists []. auto.
  - destruct (isSpace c) eqn:E.
    + exists (c :: w). simpl. rewrite E, Hs. split; [congruence | reflexivity].
    + exists []. auto.
Qed.

Lemma trimEnd_allSpace s : forallb isSpace s = true -> trimEnd s = [].
Proof.
  induction s as [|c r IH]; simpl; [reflexivity|].
  rewrite Bool.andb_true_iff. intros [-> H]. rewrite IH; auto.
Qed.

Lemma trimEnd_nil_allSpace s : trimEnd s = [] -> forallb isSpace s = true.
Proof.
  induction s as [|c r IH]; simpl; [reflexivity|].
  destruct (trimEnd r) eqn:E; [|discriminate].
  destruct (isSpace c); [intros _; simpl; auto | discriminate].
Qed.

Lemma trimEnd_split s :
  exists w, s = trimEnd s ++ w /\ forallb isSpace w = true.
Proof.
  induction s as [|c r [w [Hw Hs]]]; simpl.
  - exists []. auto.
  - destruct (trimEnd r) as [|d r'] eqn:E.
    + simpl in Hw. subst w.
      destruct (isSpace c) eqn:Ec.
      * exists (c :: r). simpl. rewrite Ec, Hs. auto.
      * exists r. auto.
    + exists w. split; [simpl; f_equal; exact Hw | assumption].
Qed.

Lemma trimEnd_app_space s w :
  forallb isSpace w = true -> trimEnd (s ++ w) = trimEnd s.
Proof.
  intros Hw. induction s as [|c r IH]; simpl.
  - apply trimEnd_allSpace; assumption.
  - rewrite IH. reflexivity.
Qed.

Lemma trimEnd_last_nonspace s :
  trimEnd s <> [] -> isSpace (last (trimEnd s) 0) = false.
Proof.
  induction s as [|c r IH]; simpl; [congruence|].
  destruct (trimEnd r) as [|d r'] eqn:E.
  - destruct (isSpace c) eqn:Ec; [congruence|]. intros _. simpl. assumption.
  - intros _. change (last (c :: d :: r') 0) with (last (d :: r') 0).
    apply IH. congruence.
Qed.

(** A string whose last character is not white space is left alone by
    [trimEnd]. *)
Lemma trimEnd_fixed s :
  s <> [] -> isSpace (last s 0) = false -> trimEnd s = s.
Proof.
  induction s as [|c r IH]; [congruence|]. intros _ Hl.
  destruct r as [|d r'].
  - simpl in *. rewrite Hl. reflexivity.
  - change (last (c :: d :: r') 0) with (last (d :: r') 0) in Hl.
    change (trimEnd (c :: d :: r'))
      with (match trimEnd (d :: r') with
            | [] => if isSpace c then [] else [c]
            | x :: r0 => c :: x :: r0
            end).
    rewrite IH by (congruence || assumption). reflexivity.
Qed.

Lemma trimEnd_idem s : trimEnd (trimEnd s) = trimEnd s.
Proof.
  destruct (trimEnd s) as [|c r] eqn:E; [reflexivity|].
  rewrite <- E. apply trimEnd_fixed; [congruence|].
  apply trimEnd_last_nonspace. congruence.
Qed.

Lemma trimEnd_head s c r : s = c :: r -> isSpace c = false ->
  exists r', trimEnd s = c :: r'.
Proof.
  intros -> Hc. simpl. destruct (trimEnd r); rewrite ?Hc; eauto.
Qed.

Lemma trim_head s c r : trim s = c :: r -> isSpace c = false.
Proof.
  unfold trim. intros H.
  destruct (trimStart s) as [|d t] eqn:E; [discriminate|].
  pose proof (trimStart_head _ _ _ E) as Hd.
  destruct (trimEnd_head (d :: t) d t eq_refl Hd) as [r' Hr'].
  rewrite Hr' in H. congruence.
Qed.

Lemma trimStart_fixed s c r : s = c :: r -> isSpace c = false -> trimStart s = s.
Proof. intros -> H. apply trimStart_nonspace; assumption. Qed.

Lemma trim_idem s : trim (trim s) = trim s.
Proof.
  unfold trim at 1.
  destruct (trim s) as [|c r] eqn:E; [reflexivity|].
  rewrite (trimStart_fixed (c :: r) c r eq_refl (trim_head _ _ _ E)).
  rewrite <- E. unfold trim. apply trimEnd_idem.
Qed.

(** A string that starts and ends with characters that are not white space
    is its own trim. *)
Lemma trim_fixed s c r :
  s = c :: r -> isSpace c = false -> isSpace (last s 0) = false -> trim s = s.
Proof.
  intros Hs Hc Hl. unfold trim.
  rewrite (trimStart_fixed s c r Hs Hc). apply trimEnd_fixed; [congruence | assumption].
Qed.

Lemma trim_app_space s w : forallb isSpace w = true -> trim (s ++ w) = trim s.
Proof.
  intros Hw. unfold trim.
  destruct (trimStart_split s) as [w0 [Hs Hw0]].
  destruct (trimStart s) as [|c r] eqn:E.
  - rewrite app_nil_r in Hs. subst w0.
    rewrite trimStart_allSpace; [reflexivity|].
    rewrite forallb_app, Hw0, Hw. reflexivity.
  - rewrite Hs at 1. rewrite <- app_assoc, trimStart_app_space by assumption.
    simpl app. rewrite (trimStart_nonspace c (r ++ w) (trimStart_head _ _ _ E)).
    change (c :: r ++ w) with ((c :: r) ++ w).
    apply trimEnd_app_space. assumption.
Qed.

Lemma trim_space_app w s : forallb isSpace w = true -> trim (w ++ s) = trim s.
Proof. intros H. unfold trim. rewrite trimStart_app_space; auto. Qed.

(** ** [includes] *)

Lemma startsWith_app p b : startsWith p (p ++ b) = true.
Proof. induction p; simpl; [reflexivity | rewrite N.eqb_refl; assumption]. Qed.

Lemma includes_app_r p a t : includes p t = true -> includes p (a ++ t) = true.
Proof.
  intros H. induction a as [|c a IH]; [assumption|].
  simpl app. destruct p; [reflexivity|].
  cbn [includes]. rewrite IH. apply Bool.orb_true_r.
Qed.

Lemma includes_middle p a b : includes p (a ++ p ++ b) = true.
Proof.
  apply includes_app_r. destruct p as [|x p]; [destruct b; reflexivity|].
  cbn [includes app]. change (x :: p ++ b) with ((x :: p) ++ b).
  rewrite startsWith_app. reflexivity.
Qed.

(** ** Properties of own-property lists *)

Lemma getProperty_set_same k v ms : getProperty k (setProperty k v ms) = Some v.
Proof.
  induction ms as [|[k' v'] r IH]; simpl.
  - rewrite streq_refl. reflexivity.
  - destruct (streq k k') eqn:E; simpl; rewrite ?streq_refl, ?E; auto.
Qed.

Lemma getProperty_set_other k k' v ms :
  streq k' k = false -> streq k k' = false ->
  getProperty k' (setProperty k v ms) = getProperty k' ms.
Proof.
  intros H H'. induction ms as [|[k0 v0] r IH]; simpl.
  - rewrite H. reflexivity.
  - destruct (streq k k0) eqn:E; simpl.
    + apply streq_eq in E. subst k0. rewrite H. reflexivity.
    + rewrite IH. reflexivity.
Qed.

Lemma getField_set_same k v o : getField k (setField k v o) = Some v.
Proof. destruct o; simpl; apply getProperty_set_same. Qed.

Lemma getField_set_other k k' v o :
  streq k' k = false -> streq k k' = false ->
  getField k' (setField k v o) = getField k' o.
Proof. destruct o; simpl; apply getProperty_set_other. Qed.

Lemma orEmptyArray_truthy x : toBoolean (orEmptyArray x) = true.
Proof.
  destruct x as [v|]; simpl; [|reflexivity].
  destruct (toBoolean v) eqn:E; [assumption | reflexivity].
Qed.

Lemma orEmptyArray_cases x :
  orEmptyArray x = JArray [] \/ x = Some (orEmptyArray x).
Proof.
  destruct x as [v|]; simpl; [|left; reflexivity].
  destruct (toBoolean v); [right | left]; reflexivity.
Qed.

(** ** The two operations never reject *)

Section GeminiFacts.
Variable Chat : Type.
Variable generateContent : Request -> Completion GenerateContentResponse.
Variable sendMessage : Chat -> jsstring -> Completion GenerateContentResponse.
Variable textPrompt : option jsstring -> jsstring.
Variable trimOfUndefinedMessage : jsstring.
Variable cannotCreatePropertyMessage : jsstring -> JValue -> jsstring.

Let body :=
  analyzeBody generateContent textPrompt trimOfUndefinedMessage
    cannotCreatePropertyMessage.
Let analyze :=
  analyzeImageAndSuggestProducts generateContent textPrompt
    trimOfUndefinedMessage cannotCreatePropertyMessage.
Let request := analysisRequest textPrompt.

Lemma analyze_on_throw imageBase64 imageType userPrompt error :
  body imageBase64 imageType userPrompt = Throw error ->
  analyze imageBase64 imageType userPrompt
  = Resolved (errorResponse
                (errorMessageOf error
                   (js "An unknown error occurred during image analysis."))).
Proof.
  unfold analyze, analyzeImageAndSuggestProducts, body. intros ->. reflexivity.
Qed.

Lemma analyze_on_normal imageBase64 imageType userPrompt r :
  body imageBase64 imageType userPrompt = Normal r ->
  analyze imageBase64 imageType userPrompt = Resolved r.
Proof.
  unfold analyze, analyzeImageAndSuggestProducts, body. intros ->. reflexivity.
Qed.

(** What the [try] block returns when it completes normally. *)
Lemma body_normal imageBase64 imageType userPrompt r :
  body imageBase64 imageType userPrompt = Normal r ->
  exists raw parsedData o,
    generateContent (request imageBase64 imageType userPrompt)
    = Normal {| text := Some raw |}
    /\ sanitizeAndParseJson raw = Normal parsedData
    /\ asObject parsedData = Some o
    /\ r = setField s_complementaryProducts
             (orEmptyArray
                (getField s_complementaryProducts
                   (setField s_similarProducts
                      (orEmptyArray (getField s_similarProducts o)) o)))
             (setField s_similarProducts
                (orEmptyArray (getField s_similarProducts o)) o).
Proof.
  unfold body, analyzeBody, request.
  destruct (generateContent _) as [[[raw|]]|e] eqn:Eg; simpl; try discriminate.
  destruct (sanitizeAndParseJson raw) as [pd|e] eqn:Ep; simpl; try discriminate.
  destruct (toBoolean pd); simpl; try discriminate.
  destruct (asObject pd) as [o|] eqn:Eo; simpl; try discriminate.
  intros [= <-]. exists raw, pd, o. auto.
Qed.

(** C1. Every error thrown while [analyzeImageAndSuggestProducts] or
    [sendMessageInChat] runs is returned as data.  Whatever the [try] block
    of [analyzeImageAndSuggestProducts] throws, the promise resolves with an
    object whose [analysis] is a non-empty text containing the error
    message and whose two product fields are empty arrays; a failed model
    call and a failed parse are two such throws.  Whatever
    [chat.sendMessage] throws, [sendMessageInChat] resolves with the apology
    followed by the error message.  Neither promise is ever rejected. *)
Theorem C1_errors_are_returned_as_data :
  (forall imageBase64 imageType userPrompt error,
     body imageBase64 imageType userPrompt = Throw error ->
     let msg := errorMessageOf error
                  (js "An unknown error occurred during image analysis.") in
     let analysis := js "Error during analysis: " ++ msg
                     ++ js ". Please try a different image or prompt." in
     let r := errorResponse msg in
     analyze imageBase64 imageType userPrompt = Resolved r
     /\ getField s_analysis r = Some (JString analysis)
     /\ analysis <> []
     /\ includes msg analysis = true
     /\ getField s_similarProducts r = Some (JArray [])
     /\ getField s_complementaryProducts r = Some (JArray []))
  /\ (forall imageBase64 imageType userPrompt error,
        generateContent (request imageBase64 imageType userPrompt) = Throw error ->
        body imageBase64 imageType userPrompt = Throw error)
  /\ (forall imageBase64 imageType userPrompt raw,
        generateContent (request imageBase64 imageType userPrompt)
        = Normal {| text := Some raw |} ->
        sanitizeAndParseJson raw = Normal JNull ->
        body imageBase64 imageType userPrompt
        = Throw (JsError
                   (js "Failed to parse Gemini response or response was empty.")))
  /\ (forall chat message error,
        sendMessage chat message = Throw error ->
        let msg := errorMessageOf error
                     (js "An unknown error occurred during chat.") in
        sendMessageInChat Chat sendMessage chat message
        = Resolved (Some (js "I apologize, but I encountered an error: " ++ msg))
        /\ includes msg (js "I apologize, but I encountered an error: " ++ msg)
           = true)
  /\ (forall imageBase64 imageType userPrompt,
        exists r, analyze imageBase64 imageType userPrompt = Resolved r)
  /\ (forall chat message,
        exists r, sendMessageInChat Chat sendMessage chat message = Resolved r).
Proof.
  split; [|split; [|split; [|split; [|split]]]].
  - intros imageBase64 imageType userPrompt error H msg analysis r.
    repeat split.
    + apply analyze_on_throw; assumption.
    + discriminate.
    + apply includes_middle.
  - intros imageBase64 imageType userPrompt error H.
    unfold body, analyzeBody, request in *. rewrite H. reflexivity.
  - intros imageBase64 imageType userPrompt raw H H0.
    unfold body, analyzeBody, request in *. rewrite H. simpl. rewrite H0.
    reflexivity.
  - intros chat message error H msg. split.
    + unfold sendMessageInChat. rewrite H. reflexivity.
    + rewrite <- (app_nil_r msg) at 2. apply includes_middle.
  - intros imageBase64 imageType userPrompt.
    destruct (body imageBase64 imageType userPrompt) eqn:E.
    + eexists. apply analyze_on_normal. eassumption.
    + eexists. apply analyze_on_throw. eassumption.
  - intros chat message. unfold sendMessageInChat.
    destruct (sendMessage chat message); simpl; eexists; reflexivity.
Qed.


End GeminiFacts.

(** Witness of C1: a model call that fails in transport, a model call whose
    text cannot be parsed, and a chat call that fails. *)
Lemma C1_witness :
  Samples.analyzeWith Samples.offline
  = Resolved (errorResponse (js "fetch failed"))
  /\ analyzeBody (Samples.answering (js "not json")) Samples.noPrompt
       Samples.trimMessage Samples.createMessage [] [] None
     = Throw (JsError
                (js "Failed to parse Gemini response or response was empty."))
  /\ sendMessageInChat unit Samples.chatOffline tt (js "hello")
     = Resolved
         (Some (js "I apologize, but I encountered an error: quota exceeded")).
Proof.
  destruct (C1_errors_are_returned_as_data unit Samples.offline
              Samples.chatOffline Samples.noPrompt Samples.trimMessage
              Samples.createMessage) as (H1 & _ & _ & H4 & _).
  destruct (C1_errors_are_returned_as_data unit
              (Samples.answering (js "not json"))
              Samples.chatOffline Samples.noPrompt Samples.trimMessage
              Samples.createMessage) as (_ & _ & H3 & _).
  split; [|split].
  - apply (H1 (js "aGVsbG8=") (js "image/png") None (JsError (js "fetch failed"))).
    reflexivity.
  - apply (H3 [] [] None (js "not json")); reflexivity.
  - apply (H4 tt (js "hello") (JsError (js "quota exceeded"))). reflexivity.
Defined.


(** ** [sanitizeAndParseJson] never throws *)

Lemma sanitizeAndParseJson_total jsonString :
  exists v, sanitizeAndParseJson jsonString = Normal v.
Proof.
  unfold sanitizeAndParseJson, fallback, JSON_parse.
  destruct (Json.parse (sanitize jsonString)); simpl; [eauto|].
  destruct (length (sanitize jsonString) =? 0)%nat; [eauto|].
  destruct (potentialJsonOf (sanitize jsonString)) as [q|]; [|eauto].
  destruct (Json.parse q); simpl; eauto.
Qed.

Lemma sanitize_blank jsonString :
  forallb isSpace jsonString = true -> sanitize jsonString = [].
Proof.
  intros H. unfold sanitize. rewrite (trim_allSpace _ H). reflexivity.
Qed.

(** C4. For every input string [sanitizeAndParseJson] completes normally:
    it returns a value (possibly [null]) and no exception escapes it.  For
    the empty string and for every string made of white space only it
    returns [null]. *)
Theorem C4_never_throws :
  (forall jsonString, exists v, sanitizeAndParseJson jsonString = Normal v)
  /\ sanitizeAndParseJson [] = Normal JNull
  /\ (forall jsonString,
        forallb isSpace jsonString = true ->
        sanitizeAndParseJson jsonString = Normal JNull).
Proof.
  split; [exact sanitizeAndParseJson_total|]. split; [reflexivity|].
  intros s H. unfold sanitizeAndParseJson. rewrite (sanitize_blank s H).
  reflexivity.
Qed.

Lemma C4_witness :
  sanitizeAndParseJson [SPACE; LF; TAB; SPACE] = Normal JNull.
Proof.
  apply (proj2 (proj2 C4_never_throws) [SPACE; LF; TAB; SPACE]). reflexivity.
Defined.

(** C10. [sanitizeAndParseJson] does not look at the shape of what it
    returns.  A value other than [null] that it returns is what [JSON.parse]
    gave for the sanitized text or, when that parse failed, for the text
    extracted from it; and whatever [JSON.parse] gives for the sanitized
    text is returned as it is.  So the inputs [5], a quoted string, [true]
    and [[1]] each give a value that is not an object. *)
Theorem C10_no_shape_validation :
  (forall jsonString v,
     sanitizeAndParseJson jsonString = Normal v -> v <> JNull ->
     Json.parse (sanitize jsonString) = Some v
     \/ (Json.parse (sanitize jsonString) = None
         /\ exists potentialJson,
              potentialJsonOf (sanitize jsonString) = Some potentialJson
              /\ Json.parse potentialJson = Some v))
  /\ (forall jsonString v,
        Json.parse (sanitize jsonString) = Some v ->
        sanitizeAndParseJson jsonString = Normal v)
  /\ sanitizeAndParseJson (js "5") = Normal (JNumber false 5 0)
  /\ sanitizeAndParseJson (js "'hi'") = Normal (JString (js "hi"))
  /\ sanitizeAndParseJson (js "true") = Normal (JBool true)
  /\ sanitizeAndParseJson (js "[1]") = Normal (JArray [JNumber false 1 0]).
Proof.
  split; [|split; [|repeat split; reflexivity]].
  - intros s v. unfold sanitizeAndParseJson, fallback, JSON_parse.
    destruct (Json.parse (sanitize s)) as [v0|] eqn:E; simpl.
    + intros [= ->] _. left. reflexivity.
    + intros H Hv. right. split; [reflexivity|].
      destruct (length (sanitize s) =? 0)%nat; [congruence|].
      destruct (potentialJsonOf (sanitize s)) as [q|]; [|congruence].
      exists q. split; [reflexivity|].
      destruct (Json.parse q); simpl in H; congruence.
  - intros s v H. unfold sanitizeAndParseJson, JSON_parse. rewrite H.
    reflexivity.
Qed.

Lemma C10_witness :
  Json.parse (sanitize (js "5")) = Some (JNumber false 5 0)
  \/ (Json.parse (sanitize (js "5")) = None
      /\ exists potentialJson,
           potentialJsonOf (sanitize (js "5")) = Some potentialJson
           /\ Json.parse potentialJson = Some (JNumber false 5 0)).
Proof.
  apply (proj1 C10_no_shape_validation (js "5") (JNumber false 5 0)).
  - reflexivity.
  - discriminate.
Defined.

(** ** Basic facts about the recogniser *)

Lemma run_app p a b : run p (a ++ b) = run (run p a) b.
Proof. apply fold_left_app. Qed.

Lemma run_cons p c s : run p (c :: s) = run (step p c) s.
Proof. reflexivity. Qed.

Lemma step_error p c : mode p = MError -> mode (step p c) = MError.
Proof. destruct p as [st m]. simpl. intros ->. reflexivity. Qed.

Lemma run_error s : forall p, mode p = MError -> mode (run p s) = MError.
Proof.
  induction s as [|c r IH]; intros p H; [assumption|].
  rewrite run_cons. apply IH, step_error, H.
Qed.

Lemma finish_error p : mode p = MError -> finish p = None.
Proof. destruct p as [st m]. simpl. intros ->. destruct st; reflexivity. Qed.

Lemma run_error_finish p s : mode p = MError -> finish (run p s) = None.
Proof. intros H. apply finish_error, run_error, H. Qed.

(** A text that is accepted never drove the recogniser into [MError]. *)
Lemma accepted_not_error p s v : finish (run p s) = Some v -> mode p <> MError.
Proof. intros H E. rewrite (run_error_finish p s E) in H. discriminate. Qed.

Ltac case_if :=
  match goal with
  | |- context [if ?b then _ else _] => destruct b eqn:?
  | H : context [if ?b then _ else _] |- _ => destruct b eqn:?
  end.

Lemma startValue_not_start c st :
  valueStart c = false -> startValue c st = failed.
Proof.
  unfold valueStart, startValue. intros H.
  repeat case_if; try reflexivity; exfalso; charlia.
Qed.

Lemma space_not_valueStart c : isSpace c = true -> valueStart c = false.
Proof. unfold valueStart. charlia. Qed.

Lemma step_initial_space c :
  isSpace c = true -> step initial c = initial \/ mode (step initial c) = MError.
Proof.
  intros H. unfold step, stepPlain, initial; simpl.
  destruct (isJsonSpace c); [left; reflexivity|].
  right. rewrite startValue_not_start; [reflexivity|].
  apply space_not_valueStart, H.
Qed.

(** Leading white space that the text has is JSON white space if the text
    is accepted, and can then be dropped. *)
Lemma parse_trimStart s v : parse s = Some v -> parse (trimStart s) = Some v.
Proof.
  unfold parse. induction s as [|c r IH]; [auto|].
  simpl trimStart. destruct (isSpace c) eqn:E; [|auto].
  rewrite run_cons. destruct (step_initial_space c E) as [-> | H].
  - exact IH.
  - intros H'. rewrite (run_error_finish _ r H) in H'. discriminate.
Qed.

Lemma parse_first_char s v :
  parse s = Some v ->
  exists c r, trimStart s = c :: r /\ isSpace c = false /\ valueStart c = true.
Proof.
  intros H. apply parse_trimStart in H.
  destruct (trimStart s) as [|c r] eqn:E; [discriminate|].
  exists c, r. split; [reflexivity|].
  pose proof (trimStart_head _ _ _ E) as Hc. split; [assumption|].
  destruct (valueStart c) eqn:Ev; [reflexivity|].
  unfold parse in H. rewrite run_cons in H.
  assert (Hs : mode (step initial c) = MError).
  { unfold step, stepPlain, initial; simpl.
    destruct (isJsonSpace c) eqn:Ej.
    - apply jsonSpace_isSpace in Ej. congruence.
    - rewrite startValue_not_start by assumption. reflexivity. }
  rewrite (run_error_finish _ r Hs) in H. discriminate.
Qed.

Lemma valueStart_not_backtick c : valueStart c = true -> (c =? BACKTICK) = false.
Proof. unfold valueStart. charlia. Qed.

(** The trimmed text of an accepted input starts with the character a value
    starts with. *)
Lemma parse_trim_head s v :
  parse s = Some v ->
  exists c r, trim s = c :: r /\ isSpace c = false /\ valueStart c = true.
Proof.
  intros H. destruct (parse_first_char s v H) as (c & r & E & Hc & Hv).
  unfold trim. rewrite E.
  destruct (trimEnd_head (c :: r) c r eq_refl Hc) as [r' Hr'].
  exists c, r'. auto.
Qed.

(** ** Fenced blocks *)

Lemma dropWhile_isSpace s : dropWhile isSpace s = trimStart s.
Proof.
  unfold dropWhile. induction s as [|c r IH]; simpl; [reflexivity|].
  destruct (isSpace c); [|reflexivity].
  destruct (span isSpace r). exact IH.
Qed.

Lemma dropWhile_app_all p a b :
  forallb p a = true -> dropWhile p (a ++ b) = dropWhile p b.
Proof.
  unfold dropWhile. induction a as [|c a IH]; simpl; [reflexivity|].
  rewrite Bool.andb_true_iff. intros [-> H].
  specialize (IH H). destruct (span p (a ++ b)). exact IH.
Qed.

Lemma dropWhile_stop p c r : p c = false -> dropWhile p (c :: r) = c :: r.
Proof. unfold dropWhile. simpl. intros ->. reflexivity. Qed.

Lemma fenceRegex_exec_fenced mid :
  fenceRegex_exec (fenceMarker ++ mid ++ fenceMarker)
  = Some (trimEnd (dropWhile isSpace (dropWhile isWord mid))).
Proof.
  unfold fenceMarker. cbn [app fenceRegex_exec].
  rewrite N.eqb_refl. simpl andb. cbv iota.
  rewrite rev_app_distr. cbn [rev app].
  rewrite N.eqb_refl. simpl andb. cbv iota.
  rewrite rev_involutive. reflexivity.
Qed.

Lemma fenceRegex_exec_other c r :
  (c =? BACKTICK) = false -> fenceRegex_exec (c :: r) = None.
Proof.
  intros H. unfold fenceRegex_exec.
  destruct r as [|b [|d r]]; try reflexivity. rewrite H. reflexivity.
Qed.

Lemma unwrapFence_other c r :
  (c =? BACKTICK) = false -> unwrapFence (c :: r) = c :: r.
Proof. intros H. unfold unwrapFence. rewrite fenceRegex_exec_other; auto. Qed.

Lemma last_app_marker a : last (a ++ fenceMarker) 0 = BACKTICK.
Proof.
  induction a as [|c a IH]; [reflexivity|].
  simpl app. destruct (a ++ fenceMarker) eqn:E; [|exact IH].
  destruct a; discriminate.
Qed.

Lemma trim_fenced tag sep1 j sep2 :
  trim (fenced tag sep1 j sep2) = fenced tag sep1 j sep2.
Proof.
  unfold fenced. apply (trim_fixed _ BACKTICK
    ([BACKTICK; BACKTICK] ++ tag ++ sep1 ++ j ++ sep2 ++ fenceMarker)).
  - reflexivity.
  - reflexivity.
  - replace (fenceMarker ++ tag ++ sep1 ++ j ++ sep2 ++ fenceMarker)
      with ((fenceMarker ++ tag ++ sep1 ++ j ++ sep2) ++ fenceMarker)
      by (repeat rewrite <- app_assoc; reflexivity).
    rewrite last_app_marker. reflexivity.
Qed.

(** Unwrapping a fenced block gives the trimmed content, when the content
    is not blank. *)
Lemma unwrapFence_fenced tag sep1 j sep2 :
  forallb isWord tag = true ->
  sep1 <> [] -> forallb isSpace sep1 = true -> forallb isSpace sep2 = true ->
  trim j <> [] ->
  unwrapFence (fenced tag sep1 j sep2) = trim j.
Proof.
  intros Htag Hne Hs1 Hs2 Hj. unfold unwrapFence, fenced.
  replace (fenceMarker ++ tag ++ sep1 ++ j ++ sep2 ++ fenceMarker)
    with (fenceMarker ++ (tag ++ sep1 ++ j ++ sep2) ++ fenceMarker)
    by (repeat rewrite <- app_assoc; reflexivity).
  rewrite fenceRegex_exec_fenced.
  rewrite (dropWhile_app_all isWord tag _ Htag).
  destruct sep1 as [|c sep1']; [congruence|].
  assert (Hc : isWord c = false).
  { simpl in Hs1. apply Bool.andb_true_iff in Hs1. destruct Hs1 as [Hc _].
    revert Hc. unfold isWord. charlia. }
  change ((c :: sep1') ++ j ++ sep2) with (c :: (sep1' ++ j ++ sep2)).
  rewrite (dropWhile_stop isWord c _ Hc).
  rewrite dropWhile_isSpace.
  change (c :: sep1' ++ j ++ sep2) with ((c :: sep1') ++ j ++ sep2).
  change (trimEnd (trimStart ((c :: sep1') ++ j ++ sep2)))
    with (trim ((c :: sep1') ++ j ++ sep2)).
  rewrite (trim_space_app _ _ Hs1), (trim_app_space _ _ Hs2).
  destruct (trim j) eqn:E; [congruence|]. simpl isEmpty. cbv iota.
  rewrite <- E. apply trim_idem.
Qed.

Lemma sanitize_fenced tag sep1 j sep2 c r :
  forallb isWord tag = true ->
  sep1 <> [] -> forallb isSpace sep1 = true -> forallb isSpace sep2 = true ->
  trim j = c :: r -> (c =? BACKTICK) = false ->
  sanitize (fenced tag sep1 j sep2) = sanitize j.
Proof.
  intros Htag Hne Hs1 Hs2 Hj Hc. unfold sanitize.
  rewrite trim_fenced, unwrapFence_fenced by (assumption || congruence).
  rewrite Hj, (unwrapFence_other c r Hc). reflexivity.
Qed.

(** C7. Wrapping a well-formed JSON text [j] in a fenced block that spans
    the whole string does not change what [sanitizeAndParseJson] returns.
    The block is the opening delimiter, a language tag of word characters
    (possibly none), white space that is not empty (the end of the opening
    line), [j], white space (possibly none) and the closing delimiter.  In
    particular the fenced object of the specification gives the object
    whose [a] is 1. *)
Theorem C7_fenced_same_as_unfenced :
  (forall tag sep1 sep2 j v,
     forallb isWord tag = true ->
     sep1 <> [] -> forallb isSpace sep1 = true ->
     forallb isSpace sep2 = true ->
     Json.parse j = Some v ->
     sanitizeAndParseJson (fenced tag sep1 j sep2) = sanitizeAndParseJson j)
  /\ sanitizeAndParseJson (lines ["```json"; "{'a':1}"; "```"])
     = Normal (JObject [(js "a", JNumber false 1 0)])
  /\ sanitizeAndParseJson (lines ["```"; "{'a':1}"; "```"])
     = Normal (JObject [(js "a", JNumber false 1 0)]).
Proof.
  split; [|split; reflexivity].
  intros tag sep1 sep2 j v Htag Hne Hs1 Hs2 Hp.
  destruct (parse_trim_head j v Hp) as (c & r & Hj & _ & Hv).
  unfold sanitizeAndParseJson.
  rewrite (sanitize_fenced tag sep1 j sep2 c r) by
    (assumption || apply valueStart_not_backtick, Hv).
  reflexivity.
Qed.

Lemma C7_witness :
  sanitizeAndParseJson (fenced (js "json") [LF] (js "[1, 2]") [LF])
  = sanitizeAndParseJson (js "[1, 2]").
Proof.
  apply (proj1 C7_fenced_same_as_unfenced (js "json") [LF] [LF] (js "[1, 2]")
           (JArray [JNumber false 1 0; JNumber false 2 0]));
    (reflexivity || discriminate).
Defined.

(** ** [span] *)

Lemma span_spec p s :
  s = fst (span p s) ++ snd (span p s)
  /\ forallb p (fst (span p s)) = true
  /\ match snd (span p s) with [] => True | c :: _ => p c = false end.
Proof.
  induction s as [|c r IH]; simpl; [auto|].
  destruct (p c) eqn:E.
  - destruct (span p r) as [a b]. simpl in *.
    destruct IH as (H1 & H2 & H3). rewrite E, H2. repeat split; auto.
    f_equal. exact H1.
  - simpl. auto.
Qed.

Lemma span_app_stop p a c r :
  forallb p a = true -> p c = false -> span p (a ++ c :: r) = (a, c :: r).
Proof.
  induction a as [|x a IH]; simpl.
  - intros _ ->. reflexivity.
  - rewrite Bool.andb_true_iff. intros [-> H] Hc. rewrite IH; auto.
Qed.

Lemma span_all p a : forallb p a = true -> span p a = (a, []).
Proof.
  induction a as [|x a IH]; simpl; [reflexivity|].
  rewrite Bool.andb_true_iff. intros [-> H]. rewrite IH; auto.
Qed.

Lemma takeWhile_split p s : s = takeWhile p s ++ dropWhile p s.
Proof. apply span_spec. Qed.

Lemma takeWhile_all p s : forallb p (takeWhile p s) = true.
Proof. apply span_spec. Qed.

Lemma dropWhile_head p s c r : dropWhile p s = c :: r -> p c = false.
Proof.
  intros H. pose proof (span_spec p s) as (_ & _ & H3).
  unfold dropWhile in H. rewrite H in H3. exact H3.
Qed.

Lemma takeWhile_app_stop p a c r :
  forallb p a = true -> p c = false -> takeWhile p (a ++ c :: r) = a.
Proof. intros. unfold takeWhile. rewrite span_app_stop; auto. Qed.

Lemma takeWhile_stop p c r : p c = false -> takeWhile p (c :: r) = [].
Proof. unfold takeWhile. simpl. intros ->. reflexivity. Qed.

(** ** Collapsing blank lines *)

Lemma lastLF_none w : lastLF w = None <-> noLF w = true.
Proof.
  induction w as [|c w IH]; simpl; [tauto|].
  destruct (lastLF w) as [p|].
  - split; [discriminate|]. rewrite Bool.andb_true_iff. intros [_ H].
    apply IH in H. discriminate.
  - destruct (c =? LF); simpl; split; try discriminate; auto.
    intros _. apply IH. reflexivity.
Qed.

Lemma lastLF_bounds w p :
  lastLF w = Some p -> (1 <= p <= length w)%nat /\ noLF (skipn p w) = true.
Proof.
  revert p. induction w as [|c w IH]; simpl; [discriminate|]. intros p.
  destruct (lastLF w) as [q|] eqn:E.
  - intros [= <-]. destruct (IH q eq_refl) as [H1 H2]. split; [lia | exact H2].
  - destruct (c =? LF); [|discriminate]. intros [= <-]. split; [lia|].
    simpl. apply lastLF_none. exact E.
Qed.

Lemma noLF_app a b : noLF (a ++ b) = noLF a && noLF b.
Proof. apply forallb_app. Qed.

Lemma collapse_skip s : forall k,
  collapseBlankLines_from k s = collapseBlankLines_from 0 (skipn k s).
Proof.
  induction s as [|c r IH]; intros [|k]; try reflexivity.
  simpl skipn. rewrite <- IH. reflexivity.
Qed.

Lemma collapse_length s : forall k,
  (length (collapseBlankLines_from k s) <= length s)%nat.
Proof.
  induction s as [|c r IH]; intros k; simpl; [lia|].
  destruct k as [|k].
  - destruct (c =? LF).
    + destruct (lastLF (takeWhile isSpace r)) as [p|]; simpl.
      * specialize (IH p). lia.
      * specialize (IH 0%nat). lia.
    + simpl. specialize (IH 0%nat). lia.
  - specialize (IH k). lia.
Qed.

Lemma collapse_cons_other c r :
  (c =? LF) = false ->
  collapseBlankLines (c :: r) = c :: collapseBlankLines r.
Proof. unfold collapseBlankLines. simpl. intros ->. reflexivity. Qed.

Lemma collapse_noLF_prefix w t :
  noLF w = true -> collapseBlankLines (w ++ t) = w ++ collapseBlankLines t.
Proof.
  induction w as [|c w IH]; [reflexivity|]. simpl.
  rewrite Bool.andb_true_iff, Bool.negb_true_iff. intros [Hc Hw].
  rewrite collapse_cons_other by assumption. rewrite IH by assumption.
  reflexivity.
Qed.

(** The white space at the front of a collapsed text, when that of the
    text holds no line feed. *)
Lemma takeWhile_collapse r :
  noLF (takeWhile isSpace r) = true ->
  takeWhile isSpace (collapseBlankLines r) = takeWhile isSpace r.
Proof.
  intros H. rewrite (takeWhile_split isSpace r) at 1.
  rewrite collapse_noLF_prefix by assumption.
  destruct (dropWhile isSpace r) as [|c t] eqn:E.
  - change (collapseBlankLines []) with (@nil N). rewrite app_nil_r.
    unfold takeWhile at 1. rewrite span_all; [reflexivity|].
    apply takeWhile_all.
  - pose proof (dropWhile_head _ _ _ _ E) as Hc.
    assert (Hlf : (c =? LF) = false).
    { destruct (c =? LF) eqn:X; [|reflexivity].
      apply N.eqb_eq in X. subst c. discriminate. }
    rewrite collapse_cons_other by assumption.
    apply takeWhile_app_stop; [apply takeWhile_all | assumption].
Qed.

Lemma takeWhile_skipn_inside p r k :
  (k <= length (takeWhile p r))%nat ->
  takeWhile p (skipn k r) = skipn k (takeWhile p r).
Proof.
  revert k. induction r as [|c r IH]; intros k.
  - destruct k; reflexivity.
  - unfold takeWhile in *. simpl. destruct (p c) eqn:E.
    + destruct (span p r) as [a b] eqn:Es. simpl in *.
      destruct k as [|k]; simpl.
      * rewrite E, Es. reflexivity.
      * intros H. apply IH. lia.
    + simpl. intros H. assert (k = 0%nat) by lia. subst k. simpl.
      rewrite E. reflexivity.
Qed.

(** Collapsing twice is collapsing once. *)
Lemma collapse_idem_len n : forall s,
  (length s <= n)%nat ->
  collapseBlankLines (collapseBlankLines s) = collapseBlankLines s.
Proof.
  induction n as [|n IH]; intros s Hn.
  - destruct s; [reflexivity | simpl in Hn; lia].
  - destruct s as [|c r]; [reflexivity|]. simpl in Hn.
    destruct (c =? LF) eqn:Ec.
    + apply N.eqb_eq in Ec. subst c.
      unfold collapseBlankLines at 2 3. cbn [collapseBlankLines_from].
      change (LF =? LF) with true. cbv iota.
      destruct (lastLF (takeWhile isSpace r)) as [p|] eqn:El.
      * rewrite collapse_skip. fold (collapseBlankLines (skipn p r)).
        destruct (lastLF_bounds _ _ El) as [[Hp1 Hp2] Hno].
        assert (Hw : noLF (takeWhile isSpace (skipn p r)) = true)
          by (rewrite takeWhile_skipn_inside; assumption).
        unfold collapseBlankLines at 1. cbn [collapseBlankLines_from].
        change (LF =? LF) with true. cbv iota.
        rewrite (takeWhile_collapse _ Hw).
        apply lastLF_none in Hw. rewrite Hw.
        fold (collapseBlankLines (collapseBlankLines (skipn p r))).
        rewrite IH; [reflexivity|].
        rewrite length_skipn. lia.
      * fold (collapseBlankLines r).
        assert (Hw : noLF (takeWhile isSpace r) = true)
          by (apply lastLF_none; assumption).
        unfold collapseBlankLines at 1. cbn [collapseBlankLines_from].
        change (LF =? LF) with true. cbv iota.
        rewrite (takeWhile_collapse _ Hw), El.
        fold (collapseBlankLines (collapseBlankLines r)).
        rewrite IH; [reflexivity | lia].
    + rewrite !collapse_cons_other by assumption.
      rewrite IH; [reflexivity | lia].
Qed.

Lemma collapse_idem s :
  collapseBlankLines (collapseBlankLines s) = collapseBlankLines s.
Proof. apply (collapse_idem_len (length s)). lia. Qed.

(** Texts that blank-line collapsing leaves alone are closed under removing
    a prefix or a suffix. *)
Lemma collapse_fixed_tail c r :
  collapseBlankLines (c :: r) = c :: r -> collapseBlankLines r = r.
Proof.
  unfold collapseBlankLines. cbn [collapseBlankLines_from].
  destruct (c =? LF); [|congruence].
  destruct (lastLF (takeWhile isSpace r)) as [p|] eqn:E; [|congruence].
  intros [= _ H]. exfalso.
  destruct (lastLF_bounds _ _ E) as [[Hp1 Hp2] _].
  rewrite collapse_skip in H.
  pose proof (collapse_length (skipn p r) 0) as Hl2. rewrite H in Hl2.
  rewrite length_skipn in Hl2.
  assert (length (takeWhile isSpace r) <= length r)%nat.
  { rewrite (takeWhile_split isSpace r) at 2. rewrite length_app. lia. }
  lia.
Qed.

Lemma collapse_fixed_suffix w t :
  collapseBlankLines (w ++ t) = w ++ t -> collapseBlankLines t = t.
Proof.
  induction w as [|c w IH]; [auto|]. simpl. intros H.
  apply IH, (collapse_fixed_tail c), H.
Qed.

Lemma takeWhile_app_prefix p a b :
  exists x, takeWhile p (a ++ b) = takeWhile p a ++ x.
Proof.
  unfold takeWhile. induction a as [|c a [x IH]]; simpl.
  - exists (fst (span p b)). reflexivity.
  - destruct (p c).
    + destruct (span p (a ++ b)) as [u v], (span p a) as [u' v']. simpl in *.
      exists x. congruence.
    + exists []. reflexivity.
Qed.

Lemma collapse_fixed_prefix t w :
  collapseBlankLines (t ++ w) = t ++ w -> collapseBlankLines t = t.
Proof.
  induction t as [|c t IH]; [reflexivity|]. simpl app. intros H.
  pose proof (collapse_fixed_tail _ _ H) as Ht. specialize (IH Ht).
  revert H. unfold collapseBlankLines in *. cbn [collapseBlankLines_from].
  destruct (c =? LF); [|rewrite IH; reflexivity].
  destruct (lastLF (takeWhile isSpace (t ++ w))) as [p|] eqn:E.
  - intros [= _ H]. exfalso.
    destruct (lastLF_bounds _ _ E) as [[Hp1 Hp2] _].
    rewrite collapse_skip in H.
    pose proof (collapse_length (skipn p (t ++ w)) 0) as Hl. rewrite H in Hl.
    rewrite length_skipn in Hl.
    assert (length (takeWhile isSpace (t ++ w)) <= length (t ++ w))%nat.
    { rewrite (takeWhile_split isSpace (t ++ w)) at 2. rewrite length_app. lia. }
    lia.
  - intros _. apply lastLF_none in E.
    destruct (takeWhile_app_prefix isSpace t w) as [x Hx].
    rewrite Hx, noLF_app in E. apply Bool.andb_true_iff in E.
    destruct E as [E _]. apply lastLF_none in E. rewrite E, IH. reflexivity.
Qed.

Lemma collapse_fixed_trim s :
  collapseBlankLines s = s -> collapseBlankLines (trim s) = trim s.
Proof.
  intros H. unfold trim.
  destruct (trimStart_split s) as [w [Hs _]].
  rewrite Hs in H. apply collapse_fixed_suffix in H.
  destruct (trimEnd_split (trimStart s)) as [w' [Hs' _]].
  rewrite Hs' in H. apply collapse_fixed_prefix in H. exact H.
Qed.

(** The sanitized text is trimmed and has no blank line left. *)
Lemma sanitize_normal jsonString :
  trim (sanitize jsonString) = sanitize jsonString
  /\ collapseBlankLines (sanitize jsonString) = sanitize jsonString.
Proof.
  unfold sanitize. split; [apply trim_idem|].
  apply collapse_fixed_trim, collapse_idem.
Qed.




(** ** Fence markers in a text *)

Lemma startsWith_marker s : startsWith fenceMarker s = (3 <=? btRun s)%nat.
Proof.
  unfold fenceMarker.
  destruct s as [|a [|b [|c r]]]; cbn [startsWith btRun];
    rewrite ?(N.eqb_sym BACKTICK); try reflexivity.
  - destruct (a =? BACKTICK); reflexivity.
  - destruct (a =? BACKTICK), (b =? BACKTICK); reflexivity.
  - destruct (a =? BACKTICK), (b =? BACKTICK), (c =? BACKTICK); reflexivity.
Qed.

Lemma noFence_spec s : noFence s = negb (includes fenceMarker s).
Proof.
  induction s as [|c r IH]; [reflexivity|].
  cbn [noFence includes]. rewrite startsWith_marker, IH, Bool.negb_orb.
  f_equal. rewrite Nat.ltb_antisym. reflexivity.
Qed.

Lemma btRun_app_safe a x : a <> [] -> safeEnd a = true -> btRun (a ++ x) = btRun a.
Proof.
  induction a as [|c a IH]; [congruence|]. intros _ Hs. simpl.
  destruct (c =? BACKTICK) eqn:E; [|reflexivity].
  destruct a as [|d a'].
  - unfold safeEnd in Hs. simpl in Hs. rewrite E in Hs. discriminate.
  - f_equal. apply IH; [congruence|].
    unfold safeEnd in *. simpl in *.
    destruct (rev a' ++ [d]) eqn:Er; [destruct (rev a'); discriminate|].
    simpl in Hs. exact Hs.
Qed.

Lemma safeEnd_tail c d a : safeEnd (c :: d :: a) = safeEnd (d :: a).
Proof.
  unfold safeEnd. simpl.
  destruct (rev a ++ [d]) eqn:Er; [destruct (rev a); discriminate|].
  reflexivity.
Qed.

Lemma noFence_app_safe pre x :
  safeEnd pre = true -> noFence (pre ++ x) = noFence pre && noFence x.
Proof.
  induction pre as [|c a IH]; [reflexivity|]. intros Hs.
  change ((c :: a) ++ x) with (c :: (a ++ x)).
  cbn [noFence].
  change (c :: a ++ x) with ((c :: a) ++ x).
  rewrite (btRun_app_safe (c :: a) x) by (congruence || assumption).
  rewrite <- Bool.andb_assoc. f_equal.
  destruct a as [|d a']; [reflexivity|].
  apply IH. rewrite <- (safeEnd_tail c). exact Hs.
Qed.

Lemma noFence_tail c r : noFence (c :: r) = true -> noFence r = true.
Proof. cbn [noFence]. rewrite Bool.andb_true_iff. tauto. Qed.

Lemma noFence_app_r a b : noFence (a ++ b) = true -> noFence b = true.
Proof.
  induction a as [|c a IH]; [auto|]. intros H. apply IH, (noFence_tail c), H.
Qed.

Lemma btRun_app_le a b : (btRun a <= btRun (a ++ b))%nat.
Proof.
  induction a as [|c a IH]; simpl; [lia|].
  destruct (c =? BACKTICK); lia.
Qed.

Lemma noFence_app_l a b : noFence (a ++ b) = true -> noFence a = true.
Proof.
  induction a as [|c a IH]; [reflexivity|].
  change ((c :: a) ++ b) with (c :: (a ++ b)). cbn [noFence].
  rewrite !Bool.andb_true_iff, !Nat.ltb_lt. intros [H1 H2].
  split; [|auto].
  pose proof (btRun_app_le (c :: a) b). simpl app in *. lia.
Qed.

Lemma safeEnd_snoc pre c : safeEnd (pre ++ [c]) = negb (c =? BACKTICK).
Proof. unfold safeEnd. rewrite rev_app_distr. reflexivity. Qed.

Lemma safeEnd_app_snoc pre a c : safeEnd (pre ++ a ++ [c]) = negb (c =? BACKTICK).
Proof. rewrite app_assoc. apply safeEnd_snoc. Qed.

Lemma noFence_no_backtick a :
  forallb (fun c => negb (c =? BACKTICK)) a = true -> noFence a = true.
Proof.
  induction a as [|c a IH]; [reflexivity|]. simpl.
  rewrite Bool.andb_true_iff, Bool.negb_true_iff. intros [-> H].
  simpl. auto.
Qed.

Lemma space_not_backtick w :
  forallb isSpace w = true -> forallb (fun c => negb (c =? BACKTICK)) w = true.
Proof.
  induction w as [|c w IH]; [reflexivity|]. simpl.
  rewrite !Bool.andb_true_iff. intros [Hc H]. split; [|auto].
  revert Hc. charlia.
Qed.

Lemma lineTerminator_not_backtick c :
  isLineTerminator c = true -> negb (c =? BACKTICK) = true.
Proof. charlia. Qed.

(** If a text is free of markers and it is cut where the output so far
    ends safely, the output is free of markers.  One lemma for each of the
    three replacing passes. *)
Lemma removePlaceholderLines_noFence s : forall skip bol pre,
  (skip = 0%nat ->
   noFence (pre ++ s) = true /\ (bol = true -> safeEnd pre = true)) ->
  (skip <> 0%nat ->
   safeEnd pre = true /\ noFence pre = true /\ noFence s = true) ->
  noFence (pre ++ removePlaceholderLines_from skip bol s) = true.
Proof.
  induction s as [|c r IH]; intros skip bol pre H0 H1.
  - simpl. destruct skip as [|k].
    + apply H0. reflexivity.
    + rewrite app_nil_r. apply H1. discriminate.
  - assert (Hcut : forall k,
              safeEnd pre = true -> noFence pre = true ->
              noFence (c :: r) = true ->
              noFence (pre ++ removePlaceholderLines_from k
                                (isLineTerminator c) r) = true).
    { intros k Hs Hp Hr. apply noFence_tail in Hr.
      apply IH; intros Hk; [split; [|auto]|auto].
      rewrite noFence_app_safe, Hp, Hr by assumption. reflexivity. }
    assert (Hkeep : noFence (pre ++ c :: r) = true ->
              noFence (pre ++ c :: removePlaceholderLines_from 0
                                     (isLineTerminator c) r) = true).
    { intros H.
      change (pre ++ c :: ?x) with (pre ++ [c] ++ x). rewrite app_assoc.
      apply IH; [intros _|congruence]. rewrite <- app_assoc. split; [exact H|].
      intros Hc. rewrite safeEnd_snoc. apply lineTerminator_not_backtick, Hc. }
    cbn [removePlaceholderLines_from]. destruct skip as [|k].
    + destruct (H0 eq_refl) as [Hn Hb].
      destruct bol; [|apply Hkeep, Hn].
      destruct (placeholderLine_matchLength (c :: r)) as [[|k]|];
        try (apply Hkeep, Hn).
      specialize (Hb eq_refl).
      rewrite noFence_app_safe in Hn by assumption.
      apply Bool.andb_true_iff in Hn. apply Hcut; tauto.
    + destruct H1 as (Hs & Hp & Hr); [discriminate|]. apply Hcut; assumption.
Qed.

Lemma junkPrefix_match_lead s l n :
  junkPrefix_match s = Some (l, n) -> forallb isSpace l = true.
Proof.
  unfold junkPrefix_match.
  pose proof (span_spec isSpace s) as (_ & H & _).
  destruct (span isSpace s) as [w s1]. simpl in H.
  destruct s1 as [|c s1']; [discriminate|].
  destruct (isAlpha c); [|discriminate].
  destruct (span isJunkChar (c :: s1')) as [j s2].
  destruct s2 as [|q s2']; [discriminate|].
  destruct (q =? DQUOTE); [|discriminate].
  destruct (_ && _); [|discriminate]. intros [= <- _]. exact H.
Qed.

Lemma stripJunkPrefixes_noFence s : forall skip bol pre,
  (skip = 0%nat ->
   noFence (pre ++ s) = true /\ (bol = true -> safeEnd pre = true)) ->
  (skip <> 0%nat ->
   safeEnd pre = true /\ noFence pre = true /\ noFence s = true) ->
  noFence (pre ++ stripJunkPrefixes_from skip bol s) = true.
Proof.
  induction s as [|c r IH]; intros skip bol pre H0 H1.
  - simpl. destruct skip as [|k].
    + apply H0. reflexivity.
    + rewrite app_nil_r. apply H1. discriminate.
  - assert (Hcut : forall k pre',
              safeEnd pre' = true -> noFence pre' = true ->
              noFence (c :: r) = true ->
              noFence (pre' ++ stripJunkPrefixes_from k
                                 (isLineTerminator c) r) = true).
    { intros k pre' Hs Hp Hr. apply noFence_tail in Hr.
      apply IH; intros Hk; [split; [|auto]|auto].
      rewrite noFence_app_safe, Hp, Hr by assumption. reflexivity. }
    assert (Hkeep : noFence (pre ++ c :: r) = true ->
              noFence (pre ++ c :: stripJunkPrefixes_from 0
                                     (isLineTerminator c) r) = true).
    { intros H.
      change (pre ++ c :: ?x) with (pre ++ [c] ++ x). rewrite app_assoc.
      apply IH; [intros _|congruence]. rewrite <- app_assoc. split; [exact H|].
      intros Hc. rewrite safeEnd_snoc. apply lineTerminator_not_backtick, Hc. }
    cbn [stripJunkPrefixes_from]. destruct skip as [|k].
    + destruct (H0 eq_refl) as [Hn Hb].
      destruct bol; [|apply Hkeep, Hn].
      destruct (junkPrefix_match (c :: r)) as [[l [|k]]|] eqn:Em;
        try (apply Hkeep, Hn).
      specialize (Hb eq_refl).
      rewrite noFence_app_safe in Hn by assumption.
      apply Bool.andb_true_iff in Hn. destruct Hn as [Hp Hr].
      pose proof (junkPrefix_match_lead _ _ _ Em) as Hl.
      change (pre ++ l ++ DQUOTE :: ?x) with (pre ++ l ++ [DQUOTE] ++ x).
      rewrite (app_assoc l), app_assoc.
      apply Hcut; [apply safeEnd_app_snoc | | assumption].
      rewrite noFence_app_safe, Hp by assumption. simpl andb.
      apply noFence_no_backtick. rewrite forallb_app.
      rewrite (space_not_backtick _ Hl). reflexivity.
    + destruct H1 as (Hs & Hp & Hr); [discriminate|]. apply Hcut; assumption.
Qed.

Lemma collapseBlankLines_noFence s : forall skip pre,
  (skip = 0%nat -> noFence (pre ++ s) = true) ->
  (skip <> 0%nat ->
   safeEnd pre = true /\ noFence pre = true /\ noFence s = true) ->
  noFence (pre ++ collapseBlankLines_from skip s) = true.
Proof.
  induction s as [|c r IH]; intros skip pre H0 H1.
  - simpl. destruct skip as [|k].
    + apply H0. reflexivity.
    + rewrite app_nil_r. apply H1. discriminate.
  - assert (Hkeep : noFence (pre ++ c :: r) = true ->
              noFence (pre ++ c :: collapseBlankLines_from 0 r) = true).
    { intros H.
      change (pre ++ c :: ?x) with (pre ++ [c] ++ x). rewrite app_assoc.
      apply IH; [intros _|congruence]. rewrite <- app_assoc. exact H. }
    cbn [collapseBlankLines_from]. destruct skip as [|k].
    + specialize (H0 eq_refl).
      destruct (c =? LF) eqn:Ec; [|apply Hkeep, H0].
      destruct (lastLF (takeWhile isSpace r)) as [p|]; [|apply Hkeep, H0].
      apply N.eqb_eq in Ec. subst c.
      change (pre ++ LF :: ?x) with (pre ++ [LF] ++ x). rewrite app_assoc.
      change (pre ++ LF :: r) with (pre ++ [LF] ++ r) in H0.
      rewrite app_assoc in H0.
      assert (Hs : safeEnd (pre ++ [LF]) = true) by (rewrite safeEnd_snoc; reflexivity).
      rewrite noFence_app_safe in H0 by assumption.
      apply Bool.andb_true_iff in H0. destruct H0 as [Hp Hr].
      apply IH; intros Hk; [|auto].
      rewrite noFence_app_safe, Hp, Hr by assumption. reflexivity.
    + destruct H1 as (Hs & Hp & Hr); [discriminate|].
      apply noFence_tail in Hr.
      apply IH; intros Hk; [|auto].
      rewrite noFence_app_safe, Hp, Hr by assumption. reflexivity.
Qed.

Lemma btRun_snoc l c : (c =? BACKTICK) = false -> btRun (l ++ [c]) = btRun l.
Proof.
  intros Hc. induction l as [|d l IH]; simpl; [rewrite Hc; reflexivity|].
  destruct (d =? BACKTICK); congruence.
Qed.

Lemma noFence_snoc l c : (c =? BACKTICK) = false -> noFence (l ++ [c]) = noFence l.
Proof.
  intros Hc. induction l as [|d l IH]; [simpl; rewrite Hc; reflexivity|].
  change ((d :: l) ++ [c]) with (d :: (l ++ [c])). cbn [noFence].
  change (d :: l ++ [c]) with ((d :: l) ++ [c]).
  rewrite btRun_snoc, IH by assumption. reflexivity.
Qed.

Lemma splitLF_nonempty s : splitLF s <> [].
Proof.
  induction s as [|c r IH]; simpl; [discriminate|].
  destruct (c =? LF); [discriminate|]. destruct (splitLF r); discriminate.
Qed.

Lemma joinLF_cons l ls :
  ls <> [] -> joinLF (l :: ls) = l ++ LF :: joinLF ls.
Proof. destruct ls; [congruence | reflexivity]. Qed.

Lemma joinLF_splitLF s : joinLF (splitLF s) = s.
Proof.
  induction s as [|c r IH]; [reflexivity|]. simpl.
  destruct (c =? LF) eqn:E.
  - apply N.eqb_eq in E. subst c.
    rewrite joinLF_cons by apply splitLF_nonempty. rewrite IH. reflexivity.
  - destruct (splitLF r) as [|l ls] eqn:Es; [destruct (splitLF_nonempty r Es)|].
    destruct ls as [|l' ls'].
    + simpl in *. congruence.
    + rewrite joinLF_cons in IH by discriminate.
      rewrite joinLF_cons by discriminate. simpl. f_equal. exact IH.
Qed.

Lemma noFence_joinLF ls : noFence (joinLF ls) = forallb noFence ls.
Proof.
  induction ls as [|l ls IH]; [reflexivity|].
  destruct ls as [|l' ls'].
  - simpl. rewrite Bool.andb_true_r. reflexivity.
  - rewrite joinLF_cons by discriminate.
    change (l ++ LF :: ?x) with (l ++ [LF] ++ x). rewrite app_assoc.
    rewrite noFence_app_safe by (rewrite safeEnd_snoc; reflexivity).
    rewrite noFence_snoc by reflexivity. rewrite IH. reflexivity.
Qed.

Lemma forallb_filter {A} (p q : A -> bool) l :
  forallb p l = true -> forallb p (filter q l) = true.
Proof.
  induction l as [|x l IH]; [reflexivity|]. simpl.
  rewrite Bool.andb_true_iff. intros [Hx H].
  destruct (q x); simpl; rewrite ?Hx; auto.
Qed.

Lemma filterLines_noFence s : noFence s = true -> noFence (filterLines s) = true.
Proof.
  intros H. unfold filterLines. rewrite noFence_joinLF.
  apply forallb_filter. rewrite <- noFence_joinLF, joinLF_splitLF. exact H.
Qed.

Lemma trim_noFence s : noFence s = true -> noFence (trim s) = true.
Proof.
  intros H. unfold trim.
  destruct (trimStart_split s) as [w [Hs _]].
  rewrite Hs in H. apply noFence_app_r in H.
  destruct (trimEnd_split (trimStart s)) as [w' [Hs' _]].
  rewrite Hs' in H. apply noFence_app_l in H. exact H.
Qed.

(** No pass after the fence unwrapping creates a marker. *)
Lemma sanitize_noFence jsonString :
  noFence (unwrapFence (trim jsonString)) = true ->
  noFence (sanitize jsonString) = true.
Proof.
  intros H. unfold sanitize.
  apply trim_noFence.
  apply (collapseBlankLines_noFence _ 0%nat []); [intros _|congruence].
  apply filterLines_noFence.
  apply (stripJunkPrefixes_noFence _ 0%nat true []); [intros _|congruence].
  split; [|reflexivity].
  apply (removePlaceholderLines_noFence _ 0%nat true []); [intros _|congruence].
  split; [exact H | reflexivity].
Qed.




(** ** The fallback scan against the recogniser *)

Lemma scanFrom_cons sane eo ec i oc inStr esc c r :
  scanFrom sane eo ec i oc inStr esc (c :: r)
  = let '(oc', inStr', esc') := scanStep eo ec oc inStr esc c in
    if negb esc && negb (c =? BACKSLASH) && (oc' =? 0)%Z
       && initialStructuralCharFound eo (firstn (S i) sane)
    then Z.of_nat (S i)
    else scanFrom sane eo ec (S i) oc' inStr' esc' r.
Proof.
  unfold scanStep. cbn [scanFrom].
  destruct esc; [reflexivity|].
  destruct (c =? BACKSLASH); reflexivity.
Qed.

(** Case analysis on a code unit met by the recogniser: once a comparison
    with a constant succeeds the code unit is that constant and everything
    computes. *)
Ltac char_cases :=
  repeat first
    [ discriminate
    | congruence
    | match goal with
      | H : (?c =? ?k) = true |- _ =>
          apply N.eqb_eq in H; subst c; cbn in *
      | |- context [if (?c =? ?k) then _ else _] =>
          destruct (c =? k) eqn:?
      | |- context [(?c =? ?k) || _] =>
          destruct (c =? k) eqn:?
      | |- context [if ?b then _ else _] =>
          destruct b eqn:?
      | |- context [match ?x with Some _ => _ | None => _ end] =>
          destruct x eqn:?
      end
    | progress cbn in * ].

Lemma deliver_kinds v st : kinds (stack (deliver v st)) = kinds st.
Proof. destruct st as [|[|] r]; reflexivity. Qed.

Lemma deliver_mode v st :
  inStringMode (mode (deliver v st)) = false
  /\ mode (deliver v st) <> MError.
Proof. destruct st as [|[|] r]; simpl; split; congruence. Qed.

Lemma test_numStep_phase n c n' :
  numStep n c = Some n' ->
  (c =? BACKSLASH) = false /\ (c =? DQUOTE) = false
  /\ (c =? LBRACE) = false /\ (c =? RBRACE) = false
  /\ (c =? LBRACKET) = false /\ (c =? RBRACKET) = false
  /\ isJsonSpace c = false.
Proof.
  unfold numStep. intros H.
  assert (G : isDigit c = true \/ c = DOT \/ isExpMark c = true
              \/ c = PLUS \/ c = MINUS \/ c = 48).
  { destruct (nphase n); repeat case_if; try discriminate;
      rewrite ?N.eqb_eq in *; auto 10. }
  clear H. repeat split; destruct G as [G|[G|[G|[G|[G|G]]]]]; revert G; charlia.
Qed.

Section Simulation.
#[local] Arguments Z.add _ _ : simpl never.
#[local] Arguments Z.sub _ _ : simpl never.

Lemma sim_stepPlain K p c :
  (forall n, mode p <> MNumber n) ->
  mode (stepPlain p c) <> MError ->
  scanStep (openChar K) (closeChar K) (depthOf K (kinds (stack p)))
    (inStringMode (mode p)) (inEscapeMode (mode p)) c
  = (depthOf K (kinds (stack (stepPlain p c))),
     inStringMode (mode (stepPlain p c)),
     inEscapeMode (mode (stepPlain p c))).
Proof.
  destruct p as [st m]. intros Hn.
  destruct m as [ | | | | | | v | isKey acc ph | l seen | n | ];
    try (exfalso; apply (Hn n); reflexivity);
    try (simpl; congruence); clear Hn.
  all: destruct st as [|[d|ms k] [|[d'|ms' k'] st']]; destruct K.
  all: unfold stepPlain, scanStep, startValue, closeArray, closeObject,
         stepString, endString, deliver, openChar, closeChar, kinds;
       cbn [stack mode inStringMode inEscapeMode map isObjectFrame depthOf].
  all: try (destruct ph as [ | | [|[|todo]] code]).
  all: try (destruct l; destruct seen as [|[|[|[|[|[|seen]]]]]]).
  all: try (destruct isKey).
  all: intros H; char_cases; try reflexivity; try (f_equal; f_equal; lia).
Qed.

End Simulation.

Section SimulationSteps.
#[local] Arguments Z.add _ _ : simpl never.
#[local] Arguments Z.sub _ _ : simpl never.

Lemma plain_moves p c :
  (forall n, mode p <> MNumber n) ->
  mode (stepPlain p c) <> MError ->
  StackMove (kinds (stack p)) (kinds (stack (stepPlain p c)))
  /\ (stack p <> [] -> stack (stepPlain p c) = [] ->
      exists v, mode (stepPlain p c) = MDone v).
Proof.
  destruct p as [st m]. intros Hn.
  destruct m as [ | | | | | | v | isKey acc ph | l seen | n | ];
    try (exfalso; apply (Hn n); reflexivity);
    try (simpl; congruence); clear Hn.
  all: destruct st as [|[d|ms k] [|[d'|ms' k'] st']].
  all: unfold stepPlain, startValue, closeArray, closeObject,
         stepString, endString, deliver, kinds;
       cbn [stack mode map isObjectFrame].
  all: try (destruct ph as [ | | [|[|todo]] code]).
  all: try (destruct l; destruct seen as [|[|[|[|[|[|seen]]]]]]).
  all: try (destruct isKey).
  all: intros H; char_cases.
  all: split;
    [ first [ apply SameStack; reflexivity
            | eapply Pushed; reflexivity
            | eapply Popped; reflexivity ]
    | intros H1 H2; try congruence; eexists; reflexivity ].
Qed.

Lemma inEscape_inString m : inEscapeMode m = true -> inStringMode m = true.
Proof. destruct m; try discriminate. reflexivity. Qed.

Lemma depthOf_kinds_deliver K v st :
  depthOf K (kinds (stack (deliver v st))) = depthOf K (kinds st).
Proof. rewrite deliver_kinds. reflexivity. Qed.

Lemma deliver_not_number v st n : mode (deliver v st) <> MNumber n.
Proof. destruct st as [|[|] r]; simpl; congruence. Qed.

Lemma deliver_stack_nonempty v st : st <> [] -> stack (deliver v st) <> [].
Proof. destruct st as [|[|] r]; simpl; congruence. Qed.

Lemma step_plain p c : (forall n, mode p <> MNumber n) -> step p c = stepPlain p c.
Proof.
  unfold step. destruct (mode p); try reflexivity.
  intros H. exfalso. apply (H n). reflexivity.
Qed.

(** The scan and the recogniser agree, step by step, on being inside a
    string, on a pending escape, and on the number of open containers of
    the kind the scan counts. *)
Lemma sim_step K p c :
  mode (step p c) <> MError ->
  scanStep (openChar K) (closeChar K) (depthOf K (kinds (stack p)))
    (inStringMode (mode p)) (inEscapeMode (mode p)) c
  = (depthOf K (kinds (stack (step p c))),
     inStringMode (mode (step p c)),
     inEscapeMode (mode (step p c))).
Proof.
  destruct (mode p) as [ | | | | | | v | isKey acc ph | l seen | n | ] eqn:Em;
    try (assert (Hp : forall n, mode p <> MNumber n) by (rewrite Em; congruence);
         rewrite (step_plain p c Hp), <- Em; apply sim_stepPlain; exact Hp).
  all: try (intros H; exfalso; apply H, step_error, Em; fail).
  unfold step. rewrite Em.
  destruct (numStep n c) as [n'|] eqn:En.
  - intros _. destruct (test_numStep_phase _ _ _ En) as (H1 & H2 & H3 & H4 & H5 & H6 & _).
    unfold scanStep. cbn [inStringMode inEscapeMode stack mode].
    rewrite H1, H2. cbn [negb].
    destruct K; cbn [openChar closeChar]; rewrite ?H3, ?H4, ?H5, ?H6; reflexivity.
  - destruct (numFinal n); [|simpl; congruence].
    intros H.
    pose proof (sim_stepPlain K (deliver (numValue n) (stack p)) c
                  (deliver_not_number _ _) H) as G.
    rewrite depthOf_kinds_deliver in G.
    destruct (deliver_mode (numValue n) (stack p)) as [Hs _].
    rewrite Hs in G.
    assert (He : inEscapeMode (mode (deliver (numValue n) (stack p))) = false).
    { destruct (inEscapeMode _) eqn:X; [|reflexivity].
      apply inEscape_inString in X. congruence. }
    rewrite He in G. exact G.
Qed.

Lemma step_moves p c :
  mode (step p c) <> MError ->
  StackMove (kinds (stack p)) (kinds (stack (step p c)))
  /\ (stack p <> [] -> stack (step p c) = [] ->
      exists v, mode (step p c) = MDone v).
Proof.
  destruct (mode p) as [ | | | | | | v | isKey acc ph | l seen | n | ] eqn:Em;
    try (assert (Hp : forall n, mode p <> MNumber n) by (rewrite Em; congruence);
         rewrite (step_plain p c Hp); apply plain_moves; exact Hp).
  all: try (intros H; exfalso; apply H, step_error, Em; fail).
  unfold step. rewrite Em.
  destruct (numStep n c) as [n'|] eqn:En.
  - intros _. cbn [stack mode]. split; [apply SameStack; reflexivity|].
    congruence.
  - destruct (numFinal n); [|simpl; congruence].
    intros H.
    destruct (plain_moves (deliver (numValue n) (stack p)) c
                (deliver_not_number _ _) H) as [G1 G2].
    rewrite deliver_kinds in G1. split; [exact G1|].
    intros Hne. apply G2, deliver_stack_nonempty, Hne.
Qed.

End SimulationSteps.
(** ** The scan over an accepted text *)

Lemma depthOf_bottom K ks : (1 <= depthOf K (ks ++ [K]))%Z.
Proof.
  induction ks as [|k ks IH]; simpl.
  - rewrite Bool.eqb_reflx. lia.
  - destruct (Bool.eqb k K); lia.
Qed.

Lemma move_bottom K top ks' :
  StackMove (top ++ [K]) ks' -> ks' = [] \/ exists top', ks' = top' ++ [K].
Proof.
  intros [H | k H | k H].
  - right. exists top. exact H.
  - right. exists (k :: top). exact H.
  - destruct top as [|k' top'].
    + left. simpl in H. congruence.
    + right. exists top'. simpl in H. congruence.
Qed.

Lemma kinds_nil st : kinds st = [] -> st = [].
Proof. destruct st; [reflexivity | discriminate]. Qed.

Lemma kinds_bottom_nonempty K top st : kinds st = top ++ [K] -> st <> [].
Proof. intros H E. subst st. destruct top; discriminate. Qed.

Lemma done_run v' s v :
  finish (run (mkP [] (MDone v')) s) = Some v ->
  v = v' /\ forallb isJsonSpace s = true.
Proof.
  induction s as [|c r IH]; simpl.
  - intros [= <-]. auto.
  - unfold step, stepPlain. cbn [mode stack].
    destruct (isJsonSpace c); [exact IH|].
    intros H. rewrite run_error_finish in H by reflexivity. discriminate.
Qed.

Lemma done_run_stays v' s :
  mode (run (mkP [] (MDone v')) s) = MError
  \/ stack (run (mkP [] (MDone v')) s) = [].
Proof.
  induction s as [|c r IH]; simpl; [right; reflexivity|].
  unfold step, stepPlain. cbn [mode stack].
  destruct (isJsonSpace c); [exact IH|].
  left. apply run_error. reflexivity.
Qed.

Lemma openChar_not_space K : isJsonSpace (openChar K) = false.
Proof. destruct K; reflexivity. Qed.

Lemma found_false eo u :
  forallb isJsonSpace u = true -> isJsonSpace eo = false ->
  initialStructuralCharFound eo u = false.
Proof.
  intros Hu He. induction u as [|c u IH]; [reflexivity|].
  simpl in Hu. apply Bool.andb_true_iff in Hu. destruct Hu as [Hc Hu].
  cbn [initialStructuralCharFound].
  destruct (c =? eo) eqn:E; [apply N.eqb_eq in E; congruence|].
  replace ((c =? SPACE) || (c =? LF) || (c =? CR) || (c =? TAB)) with true.
  - simpl. auto.
  - symmetry. revert Hc. charlia.
Qed.

Lemma found_true eo w x :
  forallb isJsonSpace w = true -> isJsonSpace eo = false ->
  initialStructuralCharFound eo (w ++ eo :: x) = true.
Proof.
  intros Hw He. induction w as [|c w IH].
  - simpl. rewrite N.eqb_refl. reflexivity.
  - simpl in Hw. apply Bool.andb_true_iff in Hw. destruct Hw as [Hc Hw].
    simpl app. cbn [initialStructuralCharFound].
    destruct (c =? eo) eqn:E; [reflexivity|].
    replace ((c =? SPACE) || (c =? LF) || (c =? CR) || (c =? TAB)) with true.
    + simpl. auto.
    + symmetry. revert Hc. charlia.
Qed.

Section ScanFacts.
Variable K : bool.
Variable sane : jsstring.
Let eo := openChar K.
Let ec := closeChar K.

(** One turn of the loop while the recogniser is inside the outermost
    container: either the container stays open and the loop goes on, or it
    has just been closed and the loop stops if the text starts with the
    container. *)
Lemma scan_turn i c r pst top :
  mode (step pst c) <> MError ->
  kinds (stack pst) = top ++ [K] ->
  (stack (step pst c) <> []
   /\ (exists top', kinds (stack (step pst c)) = top' ++ [K])
   /\ scanFrom sane eo ec i (depthOf K (kinds (stack pst)))
        (inStringMode (mode pst)) (inEscapeMode (mode pst)) (c :: r)
      = scanFrom sane eo ec (S i) (depthOf K (kinds (stack (step pst c))))
          (inStringMode (mode (step pst c)))
          (inEscapeMode (mode (step pst c))) r)
  \/ (exists v', step pst c = mkP [] (MDone v')
      /\ scanFrom sane eo ec i (depthOf K (kinds (stack pst)))
           (inStringMode (mode pst)) (inEscapeMode (mode pst)) (c :: r)
         = if initialStructuralCharFound eo (firstn (S i) sane)
           then Z.of_nat (S i)
           else scanFrom sane eo ec (S i) 0%Z false false r).
Proof.
  intros Hne Hk.
  pose proof (sim_step K pst c Hne) as Hsim. fold eo ec in Hsim.
  destruct (step_moves pst c Hne) as [Hmove Hpop].
  rewrite Hk in Hmove. apply move_bottom in Hmove.
  rewrite scanFrom_cons, Hsim.
  destruct Hmove as [Hnil | [top' Htop]].
  - right. apply kinds_nil in Hnil.
    destruct (Hpop (kinds_bottom_nonempty _ _ _ Hk) Hnil) as [v' Hv].
    exists v'. split.
    { destruct (step pst c) as [st' m']. simpl in *. congruence. }
    rewrite Hnil, Hv. cbn [kinds map depthOf inStringMode inEscapeMode].
    assert (Hesc : inEscapeMode (mode pst) = false
                   /\ (c =? BACKSLASH) = false).
    { unfold scanStep in Hsim. rewrite Hnil, Hv in Hsim.
      cbn [kinds map depthOf inStringMode inEscapeMode] in Hsim.
      destruct (inEscapeMode (mode pst)) eqn:Ee.
      - apply inEscape_inString in Ee. rewrite Ee in Hsim. discriminate.
      - destruct (c =? BACKSLASH); [discriminate | auto]. }
    destruct Hesc as [-> ->]. reflexivity.
  - left. split; [|split].
    + apply (kinds_bottom_nonempty K top'). exact Htop.
    + exists top'. exact Htop.
    + rewrite Htop.
      pose proof (depthOf_bottom K top') as Hd.
      replace (depthOf K (top' ++ [K]) =? 0)%Z with false
        by (symmetry; apply Z.eqb_neq; lia).
      rewrite Bool.andb_false_r. reflexivity.
Qed.

(** The scan inside the outermost container of a text that is accepted:
    it stops just after the container is closed, and what follows in the
    accepted text is white space. *)
Lemma scan_inside v tail : forall body pst i top,
  mode pst <> MError ->
  kinds (stack pst) = top ++ [K] ->
  (forall j, (i <= j)%nat ->
     initialStructuralCharFound eo (firstn (S j) sane) = true) ->
  finish (run pst body) = Some v ->
  exists n,
    (n < length body)%nat
    /\ scanFrom sane eo ec i (depthOf K (kinds (stack pst)))
         (inStringMode (mode pst)) (inEscapeMode (mode pst)) (body ++ tail)
       = Z.of_nat (i + n + 1)
    /\ finish (run pst (firstn (S n) body)) = Some v
    /\ forallb isJsonSpace (skipn (S n) body) = true.
Proof.
  induction body as [|c b IH]; intros pst i top Hne Hk Hf Hacc.
  - exfalso. simpl in Hacc. unfold finish in Hacc.
    pose proof (kinds_bottom_nonempty _ _ _ Hk) as Hs.
    destruct (stack pst); [congruence | discriminate].
  - rewrite run_cons in Hacc.
    pose proof (accepted_not_error _ _ _ Hacc) as Hne'.
    simpl app.
    destruct (scan_turn i c (b ++ tail) pst top Hne' Hk)
      as [(Hs & [top' Htop] & Hscan) | (v' & Hd & Hscan)].
    + destruct (IH (step pst c) (S i) top' Hne' Htop) as (n & Hn & Hsc & Hfin & Hws).
      * intros j Hj. apply Hf. lia.
      * exact Hacc.
      * exists (S n). split; [simpl; lia|]. split; [|split].
        -- rewrite Hscan, Hsc. f_equal. lia.
        -- exact Hfin.
        -- exact Hws.
    + exists 0%nat. rewrite Hd in Hacc.
      destruct (done_run _ _ _ Hacc) as [-> Hws].
      split; [simpl; lia|]. split; [|split].
      * rewrite Hscan, (Hf i) by lia. f_equal. lia.
      * simpl. fold (step pst c). rewrite Hd. reflexivity.
      * exact Hws.
Qed.

(** The scan inside a container that is still open at the end of the
    text never stops. *)
Lemma scan_open : forall body pst i top,
  mode pst <> MError ->
  kinds (stack pst) = top ++ [K] ->
  mode (run pst body) <> MError ->
  stack (run pst body) <> [] ->
  scanFrom sane eo ec i (depthOf K (kinds (stack pst)))
    (inStringMode (mode pst)) (inEscapeMode (mode pst)) body
  = (-1)%Z.
Proof.
  induction body as [|c b IH]; intros pst i top Hne Hk Hend Hst;
    [reflexivity|].
  rewrite run_cons in Hend, Hst.
  assert (Hne' : mode (step pst c) <> MError).
  { intros E. apply Hend. apply run_error. exact E. }
  destruct (scan_turn i c b pst top Hne' Hk)
    as [(Hs & [top' Htop] & Hscan) | (v' & Hd & Hscan)].
  - rewrite Hscan. apply (IH _ _ top'); assumption.
  - exfalso. rewrite Hd in Hend, Hst.
    destruct (done_run_stays v' b); contradiction.
Qed.

End ScanFacts.

(** ** The fallback on a text that starts with an accepted container *)

Lemma leading_space w : forall s v,
  forallb isSpace w = true ->
  finish (run initial (w ++ s)) = Some v ->
  forallb isJsonSpace w = true /\ run initial w = initial.
Proof.
  induction w as [|c w IH]; intros s v Hw Hacc; [auto|].
  simpl in Hw. apply Bool.andb_true_iff in Hw. destruct Hw as [Hc Hw].
  simpl app in Hacc. rewrite run_cons in Hacc.
  rewrite run_cons. simpl forallb.
  destruct (isJsonSpace c) eqn:Ej.
  - assert (Hst : step initial c = initial)
      by (unfold step, stepPlain, initial; simpl; rewrite Ej; reflexivity).
    rewrite Hst in *. simpl. apply (IH s v); assumption.
  - exfalso. destruct (step_initial_space c Hc) as [Hst | Hst].
    + unfold step, stepPlain, initial in Hst. simpl in Hst. rewrite Ej in Hst.
      rewrite startValue_not_start in Hst
        by (apply space_not_valueStart; assumption).
      discriminate.
    + rewrite (run_error_finish _ _ Hst) in Hacc. discriminate.
Qed.

Lemma trimStart_app_head p c r t :
  trimStart p = c :: r -> trimStart (p ++ t) = c :: r ++ t.
Proof.
  induction p as [|d p IH]; simpl; [discriminate|].
  destruct (isSpace d); [exact IH|]. intros [= -> ->]. reflexivity.
Qed.

Lemma firstn_app_exact {A} (a b : list A) n :
  firstn (length a + n) (a ++ b) = a ++ firstn n b.
Proof. apply firstn_app_2. Qed.

Lemma firstn_succ_app (a : jsstring) c y :
  firstn (S (length a)) (a ++ c :: y) = a ++ [c].
Proof.
  replace (S (length a)) with (length a + 1)%nat by lia.
  rewrite firstn_app_exact. reflexivity.
Qed.

Section Extraction.
Variable K : bool.
Let eo := openChar K.
Let ec := closeChar K.

(** The loop over the white space that precedes the container. *)
Lemma scan_leading sane w2 : forall w1 x rest,
  forallb isJsonSpace w1 = true ->
  forallb isJsonSpace w2 = true ->
  sane = w1 ++ w2 ++ rest ->
  scanFrom sane eo ec (length w1) 0%Z false false (w2 ++ x)
  = scanFrom sane eo ec (length w1 + length w2) 0%Z false false x.
Proof.
  induction w2 as [|c w2 IH]; intros w1 x rest H1 H2 Hs.
  - simpl. f_equal. lia.
  - simpl in H2. apply Bool.andb_true_iff in H2. destruct H2 as [Hc H2].
    simpl app. cbn [scanFrom].
    assert (T1 : (c =? BACKSLASH) = false) by (revert Hc; charlia).
    assert (T2 : (c =? DQUOTE) = false) by (revert Hc; charlia).
    assert (T3 : (c =? eo) = false)
      by (unfold eo; destruct K; revert Hc; unfold openChar; charlia).
    assert (T4 : (c =? ec) = false)
      by (unfold ec; destruct K; revert Hc; unfold closeChar; charlia).
    rewrite T1, T2. cbn [negb]. rewrite T3, T4.
    assert (Hf : initialStructuralCharFound eo (firstn (S (length w1)) sane)
                 = false).
    { rewrite Hs. simpl app. rewrite firstn_succ_app.
      apply found_false; [|apply openChar_not_space].
      rewrite forallb_app, H1. simpl. rewrite Hc. reflexivity. }
    rewrite Hf, Bool.andb_false_r.
    replace (length w1 + length (c :: w2))%nat
      with (length (w1 ++ [c]) + length w2)%nat
      by (rewrite length_app; simpl; lia).
    replace (S (length w1)) with (length (w1 ++ [c]))
      by (rewrite length_app; simpl; lia).
    apply (IH (w1 ++ [c]) x rest).
    + rewrite forallb_app, H1. simpl. rewrite Hc. reflexivity.
    + exact H2.
    + rewrite Hs, <- app_assoc. reflexivity.
Qed.

(** The turn of the loop that reads the opening character. *)
Lemma scan_open_char sane i y :
  scanFrom sane eo ec i 0%Z false false (eo :: y)
  = scanFrom sane eo ec (S i) 1%Z false false y.
Proof. unfold eo, ec. destruct K; reflexivity. Qed.

Let afterOpen : PState := step initial eo.

Lemma afterOpen_facts :
  mode afterOpen <> MError
  /\ kinds (stack afterOpen) = [] ++ [K]
  /\ depthOf K (kinds (stack afterOpen)) = 1%Z
  /\ inStringMode (mode afterOpen) = false
  /\ inEscapeMode (mode afterOpen) = false.
Proof. unfold afterOpen, eo. destruct K; repeat split; discriminate. Qed.

Lemma expected_of_open :
  expectedOpenOf (Some eo) = Some eo /\ expectedCloseOf (Some eo) = Some ec.
Proof. unfold eo, ec. destruct K; split; reflexivity. Qed.

(** The index the scan starts from once the opening character is read. *)
Lemma findEndIndex_start w body tail :
  forallb isJsonSpace w = true ->
  findEndIndex (w ++ eo :: body ++ tail) eo ec
  = scanFrom (w ++ eo :: body ++ tail) eo ec (S (length w)) 1%Z false false
      (body ++ tail).
Proof.
  intros Hw. unfold findEndIndex.
  change 0%nat with (@length N []) at 1.
  rewrite (scan_leading _ w [] (eo :: body ++ tail) (eo :: body ++ tail))
    by (reflexivity || assumption).
  simpl length. apply scan_open_char.
Qed.

Lemma found_after_open w body tail j :
  forallb isJsonSpace w = true ->
  (S (length w) <= j)%nat ->
  initialStructuralCharFound eo (firstn (S j) (w ++ eo :: body ++ tail)) = true.
Proof.
  intros Hw Hj.
  replace (S j) with (length w + S (j - length w))%nat by lia.
  rewrite firstn_app_exact. cbn [firstn].
  apply found_true; [assumption | apply openChar_not_space].
Qed.

(** If [p] is accepted and starts, after white space, with the opening
    character, the fallback run on [p] followed by anything extracts [p]
    without its trailing white space, and that text is accepted with the
    same value. *)
Lemma extract_accepted_prefix p tail v body :
  Json.parse p = Some v ->
  trimStart p = eo :: body ->
  exists q ws,
    p = q ++ ws
    /\ forallb isJsonSpace ws = true
    /\ potentialJsonOf (p ++ tail) = Some q
    /\ Json.parse q = Some v.
Proof.
  intros Hp Ht.
  destruct (trimStart_split p) as [w [Hsplit Hw]]. rewrite Ht in Hsplit.
  unfold Json.parse in Hp. rewrite Hsplit in Hp.
  destruct (leading_space w _ _ Hw Hp) as [Hjw Hrun].
  rewrite run_app, Hrun, run_cons in Hp. fold afterOpen in Hp.
  destruct afterOpen_facts as (Hne & Hk & Hd & Hs & He).
  assert (Hsane : p ++ tail = w ++ eo :: body ++ tail)
    by (rewrite Hsplit at 1; rewrite <- app_assoc; reflexivity).
  destruct (scan_inside K (p ++ tail) v tail body afterOpen (S (length w)) []
              Hne Hk) as (n & Hn & Hsc & Hfin & Hws).
  { intros j Hj. rewrite Hsane. apply found_after_open; assumption. }
  { exact Hp. }
  exists (w ++ eo :: firstn (S n) body), (skipn (S n) body).
  split; [|split; [exact Hws|split]].
  - rewrite Hsplit at 1. rewrite <- app_assoc. f_equal.
    change ((eo :: firstn (S n) body) ++ skipn (S n) body)
      with (eo :: (firstn (S n) body ++ skipn (S n) body)).
    rewrite firstn_skipn. reflexivity.
  - unfold potentialJsonOf.
    rewrite (trimStart_app_head p eo body tail Ht). cbn [hd_error].
    destruct expected_of_open as [-> ->].
    assert (Hend : findEndIndex (p ++ tail) eo ec
                   = Z.of_nat (S (length w) + n + 1)).
    { rewrite Hsane at 1. rewrite (findEndIndex_start w body tail Hjw).
      rewrite <- Hsane. fold eo ec in Hsc. rewrite Hd, Hs, He in Hsc.
      exact Hsc. }
    cbv zeta. rewrite Hend.
    replace (Z.of_nat (S (length w) + n + 1) =? -1)%Z with false
      by (symmetry; apply Z.eqb_neq; lia).
    cbn [negb]. unfold substring0. rewrite Nat2Z.id. f_equal.
    rewrite Hsane.
    replace (S (length w) + n + 1)%nat with (length w + S (S n))%nat by lia.
    rewrite firstn_app_exact. f_equal.
    change (firstn (S (S n)) (eo :: body ++ tail))
      with (eo :: firstn (S n) (body ++ tail)).
    f_equal. rewrite firstn_app.
    replace (S n - length body)%nat with 0%nat by lia.
    rewrite firstn_O, app_nil_r. reflexivity.
  - unfold Json.parse. rewrite run_app, Hrun, run_cons. exact Hfin.
Qed.

End Extraction.

Lemma fallback_of_potential sane q v :
  sane <> [] ->
  potentialJsonOf sane = Some q -> Json.parse q = Some v ->
  fallback sane = Normal v.
Proof.
  intros Hne Hq Hv. unfold fallback.
  destruct sane; [congruence|]. simpl Nat.eqb. cbv iota.
  rewrite Hq. unfold JSON_parse. rewrite Hv. reflexivity.
Qed.

Lemma potentialJsonOf_not_shaped sane :
  (forall c r, trimStart sane = c :: r -> c <> LBRACE /\ c <> LBRACKET) ->
  potentialJsonOf sane = None.
Proof.
  intros H. unfold potentialJsonOf.
  destruct (trimStart sane) as [|c r] eqn:E; [reflexivity|].
  destruct (H c r eq_refl) as [H1 H2]. simpl.
  apply N.eqb_neq in H1, H2. rewrite H1, H2. reflexivity.
Qed.

(** C3. The brace and bracket counting fallback.  If the first character
    of the text that is not white space is neither an opening brace nor an
    opening bracket, nothing is extracted and the fallback gives [null].
    If the text starts (after white space) with a well-formed JSON object
    or array [p], followed by anything, the fallback extracts exactly [p]
    without its trailing white space and returns the value of [p].  On the
    input of the specification the first [JSON.parse] fails, the object is
    extracted and its value returned. *)
Theorem C3_fallback_extracts_balanced_prefix :
  (forall sane,
     (forall c r, trimStart sane = c :: r -> c <> LBRACE /\ c <> LBRACKET) ->
     potentialJsonOf sane = None /\ fallback sane = Normal JNull)
  /\ (forall p tail v,
        Json.parse p = Some v ->
        (exists r, trimStart p = LBRACE :: r \/ trimStart p = LBRACKET :: r) ->
        exists q ws,
          p = q ++ ws
          /\ forallb isJsonSpace ws = true
          /\ potentialJsonOf (p ++ tail) = Some q
          /\ Json.parse q = Some v
          /\ fallback (p ++ tail) = Normal v)
  /\ (let input := js "{'a':1} some extra commentary here" in
      Json.parse (sanitize input) = None
      /\ potentialJsonOf (sanitize input) = Some (js "{'a':1}")
      /\ sanitizeAndParseJson input
         = Normal (JObject [(js "a", JNumber false 1 0)])).
Proof.
  split; [|split].
  - intros sane H. pose proof (potentialJsonOf_not_shaped sane H) as Hq.
    split; [exact Hq|]. unfold fallback. rewrite Hq.
    destruct (length sane =? 0)%nat; reflexivity.
  - intros p tail v Hp [r Hr].
    assert (G : exists K body, trimStart p = openChar K :: body).
    { destruct Hr as [Hr | Hr]; [exists true | exists false]; exists r; exact Hr. }
    destruct G as (K & body & Ht).
    destruct (extract_accepted_prefix K p tail v body Hp Ht)
      as (q & ws & H1 & H2 & H3 & H4).
    exists q, ws. repeat split; try assumption.
    apply (fallback_of_potential _ q); try assumption.
    destruct p; [discriminate | discriminate].
  - repeat split; reflexivity.
Qed.

Lemma C3_witness :
  potentialJsonOf (js "not json at all") = None
  /\ fallback (js " [1, [2, ']']] and then prose")
     = Normal (JArray [JNumber false 1 0;
                       JArray [JNumber false 2 0; JString (js "]")]]).
Proof.
  destruct C3_fallback_extracts_balanced_prefix as (H1 & H2 & _).
  split.
  - apply H1. intros c r [= <- _]. split; discriminate.
  - destruct (H2 (js " [1, [2, ']']]") (js " and then prose")
                (JArray [JNumber false 1 0;
                         JArray [JNumber false 2 0; JString (js "]")]])
                eq_refl) as (q & ws & _ & _ & _ & _ & H).
    + exists (js "1, [2, ']']]"). right. reflexivity.
    + exact H.
Defined.

(** ** Truncated objects *)

Lemma finish_open p : stack p <> [] -> finish p = None.
Proof. unfold finish. destruct (stack p); [congruence | reflexivity]. Qed.

Lemma closing_needs_open p :
  stack p = [] -> finish (step p RBRACE) = None.
Proof.
  destruct p as [st m]. simpl. intros ->.
  destruct m as [ | | | | | | v | isKey acc ph | l seen | n | ];
    try reflexivity.
  - destruct isKey, ph as [ | | [|[|todo]] code]; reflexivity.
  - destruct l, seen as [|[|[|[|[|[|seen]]]]]]; reflexivity.
  - destruct n as [[] ? ? ? ? ?]; reflexivity.
Qed.

(** A JSON object without its closing brace is not accepted, and the scan
    finds nothing to extract from it. *)
Lemma truncated_object s v r :
  Json.parse (s ++ [RBRACE]) = Some v ->
  trimStart s = LBRACE :: r ->
  Json.parse s = None /\ potentialJsonOf s = None.
Proof.
  intros Hp Ht.
  destruct (trimStart_split s) as [w [Hsplit Hw]]. rewrite Ht in Hsplit.
  unfold Json.parse in *. rewrite Hsplit, <- app_assoc in Hp.
  destruct (leading_space w _ _ Hw Hp) as [Hjw Hrun].
  rewrite run_app, Hrun in Hp. simpl app in Hp.
  rewrite run_cons, run_app in Hp. simpl run at 1 in Hp.
  set (pst0 := step initial LBRACE) in *.
  set (pf := run pst0 r) in *.
  assert (Hne : mode pf <> MError).
  { intros E. rewrite finish_error in Hp by (apply step_error; exact E).
    discriminate. }
  assert (Hst : stack pf <> []).
  { intros E. rewrite closing_needs_open in Hp by exact E. discriminate. }
  split.
  - rewrite Hsplit, run_app, Hrun, run_cons. fold pst0 pf.
    apply finish_open, Hst.
  - unfold potentialJsonOf. rewrite Ht. cbn [hd_error]. simpl expectedOpenOf.
    simpl expectedCloseOf. cbv iota.
    assert (Hend : findEndIndex s LBRACE RBRACE = (-1)%Z).
    { rewrite Hsplit.
      pose proof (findEndIndex_start true w r [] Hjw) as Hs.
      rewrite app_nil_r in Hs. simpl openChar in Hs. simpl closeChar in Hs.
      rewrite Hs.
      apply (scan_open true (w ++ LBRACE :: r) r pst0 (S (length w)) []);
        try assumption; try reflexivity; discriminate. }
    cbv zeta. rewrite Hend. reflexivity.
Qed.

(** ** Trimming an accepted text *)

Lemma numStep_space n c : isSpace c = true -> numStep n c = None.
Proof.
  intros H. destruct (numStep n c) as [n'|] eqn:E; [|reflexivity].
  destruct (test_numStep_phase _ _ _ E) as (_ & _ & _ & _ & _ & _ & Hj).
  exfalso. unfold numStep in E.
  destruct (nphase n); repeat case_if; try discriminate; charlia.
Qed.

(** White space read last does not change the outcome. *)
Lemma space_at_end p c v :
  isSpace c = true -> finish (step p c) = Some v -> finish p = Some v.
Proof.
  intros Hc. destruct p as [st m].
  destruct m as [ | | | | | | v0 | isKey acc ph | l seen | n | ].
  all: try (unfold step, stepPlain, closeArray, closeObject, deliver, finish;
            cbn [stack mode];
            rewrite ?(startValue_not_start c st (space_not_valueStart c Hc));
            destruct st as [|[|] st']; char_cases;
            try (exfalso; revert Hc; charlia);
            intros H; try discriminate H; try exact H; fail).
  - (* inside a string *)
    unfold step, stepPlain, stepString, endString, deliver, finish.
    cbn [stack mode].
    destruct ph as [ | | [|[|todo]] code], isKey, st as [|[|] st'];
      char_cases; try (exfalso; revert Hc; charlia).
  - (* inside a literal *)
    unfold step, stepPlain, deliver, finish. cbn [stack mode].
    destruct l, seen as [|[|[|[|[|[|seen]]]]]], st as [|[|] st'];
      char_cases; try (exfalso; revert Hc; charlia).
  - (* inside a number *)
    unfold step. cbn [stack mode]. rewrite (numStep_space n c Hc).
    unfold finish, stepPlain, closeArray, closeObject, deliver.
    cbn [stack mode].
    destruct (numFinal n), st as [|[|] st']; char_cases;
      try (exfalso; revert Hc; charlia);
      intros H; try discriminate H; try exact H.
Qed.

Lemma spaces_at_end w : forall p v,
  forallb isSpace w = true -> finish (run p w) = Some v -> finish p = Some v.
Proof.
  induction w as [|c w IH]; intros p v Hw H; [exact H|].
  simpl in Hw. apply Bool.andb_true_iff in Hw. destruct Hw as [Hc Hw].
  rewrite run_cons in H. apply (space_at_end p c v Hc).
  apply (IH _ _ Hw H).
Qed.

Lemma run_trimEnd s : forall p v,
  finish (run p s) = Some v -> finish (run p (trimEnd s)) = Some v.
Proof.
  induction s as [|c r IH]; intros p v H; [exact H|].
  rewrite run_cons in H. simpl trimEnd.
  destruct (trimEnd r) as [|d r'] eqn:E.
  - apply trimEnd_nil_allSpace in E.
    pose proof (spaces_at_end r _ _ E H) as H1.
    destruct (isSpace c) eqn:Ec.
    + simpl. apply (space_at_end p c v Ec H1).
    + simpl. exact H1.
  - rewrite run_cons. apply IH. exact H.
Qed.

Lemma parse_trim s v : Json.parse s = Some v -> Json.parse (trim s) = Some v.
Proof.
  intros H. apply parse_trimStart in H. unfold Json.parse, trim in *.
  apply run_trimEnd. exact H.
Qed.

(** ** Texts without line terminators *)

Lemma noLT_noLF s : noLT s = true -> noLF s = true.
Proof.
  unfold noLT, noLF. induction s as [|c r IH]; [reflexivity|]. simpl.
  rewrite !Bool.andb_true_iff. intros [Hc H]. split; [|auto].
  revert Hc. charlia.
Qed.

Lemma noLT_app a b : noLT (a ++ b) = noLT a && noLT b.
Proof. apply forallb_app. Qed.

Lemma noLT_trim s : noLT s = true -> noLT (trim s) = true.
Proof.
  intros H. unfold trim.
  destruct (trimStart_split s) as [w [Hs _]].
  rewrite Hs, noLT_app in H. apply Bool.andb_true_iff in H. destruct H as [_ H].
  destruct (trimEnd_split (trimStart s)) as [w' [Hs' _]].
  rewrite Hs', noLT_app in H. apply Bool.andb_true_iff in H. tauto.
Qed.

Lemma removePlaceholderLines_inside s :
  noLT s = true -> removePlaceholderLines_from 0 false s = s.
Proof.
  induction s as [|c r IH]; [reflexivity|]. simpl.
  rewrite Bool.andb_true_iff, Bool.negb_true_iff. intros [-> H].
  rewrite IH by assumption. reflexivity.
Qed.

Lemma removePlaceholderLines_single s :
  noLT s = true -> placeholderLine_matchLength s = None ->
  removePlaceholderLines s = s.
Proof.
  unfold removePlaceholderLines. destruct s as [|c r]; [reflexivity|].
  intros H Hm. cbn [removePlaceholderLines_from]. rewrite Hm.
  simpl in H. apply Bool.andb_true_iff in H. destruct H as [Hc H].
  apply Bool.negb_true_iff in Hc. rewrite Hc.
  rewrite removePlaceholderLines_inside by assumption. reflexivity.
Qed.

Lemma stripJunkPrefixes_inside s :
  noLT s = true -> stripJunkPrefixes_from 0 false s = s.
Proof.
  induction s as [|c r IH]; [reflexivity|]. simpl.
  rewrite Bool.andb_true_iff, Bool.negb_true_iff. intros [-> H].
  rewrite IH by assumption. reflexivity.
Qed.

Lemma stripJunkPrefixes_single s :
  noLT s = true -> junkPrefix_match s = None -> stripJunkPrefixes s = s.
Proof.
  unfold stripJunkPrefixes. destruct s as [|c r]; [reflexivity|].
  intros H Hm. cbn [stripJunkPrefixes_from]. rewrite Hm.
  simpl in H. apply Bool.andb_true_iff in H. destruct H as [Hc H].
  apply Bool.negb_true_iff in Hc. rewrite Hc.
  rewrite stripJunkPrefixes_inside by assumption. reflexivity.
Qed.

Lemma splitLF_single s : noLF s = true -> splitLF s = [s].
Proof.
  induction s as [|c r IH]; [reflexivity|]. simpl.
  rewrite Bool.andb_true_iff, Bool.negb_true_iff. intros [-> H].
  rewrite IH by assumption. reflexivity.
Qed.

Lemma filterLines_single s :
  noLF s = true -> keepLine s = true -> filterLines s = s.
Proof.
  intros H Hk. unfold filterLines. rewrite splitLF_single by assumption.
  simpl. rewrite Hk. reflexivity.
Qed.

Lemma collapse_single s : noLF s = true -> collapseBlankLines s = s.
Proof.
  intros H. rewrite <- (app_nil_r s) at 1.
  rewrite collapse_noLF_prefix by assumption. apply app_nil_r.
Qed.

Lemma placeholder_none_head c r :
  isSpace c = false -> isIdentStart c = false ->
  placeholderLine_matchLength (c :: r) = None.
Proof.
  intros H1 H2. unfold placeholderLine_matchLength. simpl span.
  rewrite H1, H2. reflexivity.
Qed.

Lemma junk_none_head c r :
  isSpace c = false -> isAlpha c = false -> junkPrefix_match (c :: r) = None.
Proof.
  intros H1 H2. unfold junkPrefix_match. simpl span. rewrite H1, H2.
  reflexivity.
Qed.

(** A trimmed single line that the filter keeps, and that neither
    replacing pattern can match at its start, is sanitized to itself. *)
Lemma sanitize_single_kept s c r :
  trim s = c :: r -> noLT s = true ->
  (c =? BACKTICK) = false -> isIdentStart c = false -> isAlpha c = false ->
  keepLine (c :: r) = true ->
  sanitize s = c :: r.
Proof.
  intros Ht Hn Hb Hi Ha Hk.
  pose proof (trim_head _ _ _ Ht) as Hc.
  assert (Hn' : noLT (c :: r) = true) by (rewrite <- Ht; apply noLT_trim, Hn).
  pose proof (noLT_noLF _ Hn') as Hlf.
  unfold sanitize. rewrite Ht, (unwrapFence_other c r Hb).
  rewrite removePlaceholderLines_single
    by (assumption || apply placeholder_none_head; assumption).
  rewrite stripJunkPrefixes_single
    by (assumption || apply junk_none_head; assumption).
  rewrite filterLines_single by assumption.
  rewrite collapse_single by assumption.
  rewrite <- Ht. apply trim_idem.
Qed.

Lemma keepLine_structural c r :
  trim (c :: r) = c :: r -> isStructuralOrQuote c = true ->
  keepLine (c :: r) = true.
Proof. intros Ht Hc. unfold keepLine. rewrite Ht. simpl. rewrite Hc. reflexivity. Qed.

Lemma keepLine_literal t :
  trim t = t -> literalRegex_test t = true -> keepLine t = true.
Proof.
  intros Ht Hl. unfold keepLine. rewrite Ht, Hl.
  repeat case_if; reflexivity.
Qed.

(** ** Literal names and numbers accepted by the recogniser *)

Ltac literal_char H r :=
  destruct r as [|?c r]; [discriminate H|];
  rewrite run_cons in H; unfold step, stepPlain in H; cbn in H;
  match type of H with
  | context [if (?c =? ?x) then _ else _] =>
      destruct (c =? x) eqn:?E;
      [ apply N.eqb_eq in E; subst c
      | rewrite run_error_finish in H by reflexivity; discriminate H ]
  end.

(** After the first letter of a literal name, the rest of an accepted text
    is the rest of the name followed by white space. *)
Lemma literal_run l r v :
  finish (run (mkP [] (MLiteral l 1)) r) = Some v ->
  exists w, r = skipn 1 (literalText l) ++ w
            /\ forallb isJsonSpace w = true /\ v = literalValue l.
Proof.
  intros H. destruct l.
  - do 3 literal_char H r. destruct (done_run _ _ _ H) as [-> Hw].
    exists r. auto.
  - do 4 literal_char H r. destruct (done_run _ _ _ H) as [-> Hw].
    exists r. auto.
  - do 3 literal_char H r. destruct (done_run _ _ _ H) as [-> Hw].
    exists r. auto.
Qed.

Lemma jsonSpaces_spaces w : forallb isJsonSpace w = true -> forallb isSpace w = true.
Proof.
  induction w as [|c w IH]; [reflexivity|]. simpl.
  rewrite !Bool.andb_true_iff. intros [Hc H]. split; [|auto].
  apply jsonSpace_isSpace, Hc.
Qed.

(** An accepted text that starts with the first letter of a literal name
    is that name, up to surrounding white space. *)
Lemma literal_shape s v c r l :
  Json.parse s = Some v -> trim s = c :: r ->
  c = hd 0 (literalText l) ->
  trim s = literalText l /\ v = literalValue l.
Proof.
  intros Hp Ht Hc.
  pose proof (parse_trimStart _ _ Hp) as Hp'.
  destruct (trimStart s) as [|d t] eqn:Es; [discriminate|].
  assert (Hd : d = c).
  { unfold trim in Ht. rewrite Es in Ht.
    destruct (trimEnd_head (d :: t) d t eq_refl (trimStart_head _ _ _ Es))
      as [r' Hr']. congruence. }
  subst d. unfold Json.parse in Hp'. rewrite run_cons in Hp'.
  assert (Hst : step initial c = mkP [] (MLiteral l 1))
    by (subst c; destruct l; reflexivity).
  rewrite Hst in Hp'. destruct (literal_run l t v Hp') as (w & Hw & Hjs & Hv).
  split; [|exact Hv].
  unfold trim. rewrite Es, Hw.
  replace (c :: skipn 1 (literalText l) ++ w) with (literalText l ++ w)
    by (subst c; destruct l; reflexivity).
  rewrite trimEnd_app_space by (apply jsonSpaces_spaces, Hjs).
  destruct l; reflexivity.
Qed.

Lemma last_cons_nonempty (c : N) r : r <> [] -> last (c :: r) 0 = last r 0.
Proof. destruct r; [congruence | reflexivity]. Qed.

Lemma last_jsonSpace c r :
  forallb isJsonSpace (c :: r) = true -> isSpace (last (c :: r) 0) = true.
Proof.
  revert c. induction r as [|d r IH]; intros c H.
  - simpl in *. apply Bool.andb_true_iff in H. apply jsonSpace_isSpace, H.
  - rewrite last_cons_nonempty by discriminate. apply IH.
    simpl in H. apply Bool.andb_true_iff in H. apply H.
Qed.

(** An accepted text that is a number to its last character is read
    entirely by the number automaton. *)
Lemma number_run r : forall n v,
  finish (run (mkP [] (MNumber n)) r) = Some v ->
  (r <> [] -> isSpace (last r 0) = false) ->
  numAccepts n r = true.
Proof.
  induction r as [|c r IH]; intros n v H Hl.
  - unfold finish in H. cbn [stack mode run fold_left] in H. simpl.
    destruct (numFinal n); [reflexivity | discriminate H].
  - rewrite run_cons in H. unfold step in H. cbn [mode stack] in H.
    cbn [numAccepts]. destruct (numStep n c) as [n'|] eqn:E.
    + apply (IH n' v H). intros Hr.
      rewrite <- (last_cons_nonempty c r Hr). apply Hl. discriminate.
    + exfalso. destruct (numFinal n).
      * unfold deliver, stepPlain in H. cbn [mode stack] in H.
        destruct (isJsonSpace c) eqn:Ej.
        -- destruct (done_run _ _ _ H) as [_ Hw].
           assert (Hs : isSpace (last (c :: r) 0) = true)
             by (apply last_jsonSpace; simpl; rewrite Ej, Hw; reflexivity).
           assert (Hl' : isSpace (last (c :: r) 0) = false)
             by (apply Hl; discriminate).
           congruence.
        -- rewrite run_error_finish in H by reflexivity. discriminate.
      * rewrite run_error_finish in H by reflexivity. discriminate.
Qed.

Lemma digits1_cons d r :
  isDigit d = true -> digits1 (d :: r) = Some (dropWhile isDigit r).
Proof.
  intros H. unfold digits1, dropWhile. simpl. rewrite H.
  destruct (span isDigit r). reflexivity.
Qed.

Lemma digits1_all d r :
  isDigit d = true -> forallb isDigit r = true -> digits1 (d :: r) = Some [].
Proof.
  intros H Hr. rewrite digits1_cons by assumption.
  unfold dropWhile. rewrite span_all by assumption. reflexivity.
Qed.

Ltac num_phase Hp Ha :=
  cbn [numAccepts] in Ha; unfold numStep in Ha; rewrite Hp in Ha.

Lemma accepts_expDigits r : forall n,
  nphase n = PExpDigits -> numAccepts n r = true -> forallb isDigit r = true.
Proof.
  induction r as [|c r IH]; intros n Hp Ha; [reflexivity|].
  num_phase Hp Ha. simpl.
  destruct (isDigit c); [|discriminate]. simpl. eapply IH; [|exact Ha].
  reflexivity.
Qed.

Lemma accepts_expSign r n :
  nphase n = PExpSign -> numAccepts n r = true -> digits1 r = Some [].
Proof.
  intros Hp Ha. destruct r as [|c r]; [simpl in Ha; unfold numFinal in Ha;
    rewrite Hp in Ha; discriminate|].
  num_phase Hp Ha. destruct (isDigit c) eqn:Ed; [|discriminate].
  apply digits1_all; [assumption|].
  eapply accepts_expDigits; [|exact Ha]. reflexivity.
Qed.

Lemma accepts_exp r n :
  nphase n = PExp -> numAccepts n r = true ->
  digits1 (match r with
           | s :: r' => if (s =? PLUS) || (s =? MINUS) then r' else r
           | [] => r
           end) = Some [].
Proof.
  intros Hp Ha. destruct r as [|c r]; [simpl in Ha; unfold numFinal in Ha;
    rewrite Hp in Ha; discriminate|].
  num_phase Hp Ha.
  destruct (c =? PLUS) eqn:E1.
  - simpl. eapply accepts_expSign; [|exact Ha]. reflexivity.
  - destruct (c =? MINUS) eqn:E2.
    + simpl. eapply accepts_expSign; [|exact Ha]. reflexivity.
    + simpl. destruct (isDigit c) eqn:Ed; [|discriminate].
      apply digits1_all; [assumption|].
      eapply accepts_expDigits; [|exact Ha]. reflexivity.
Qed.

Lemma exponent_test_mark c r n :
  isExpMark c = true -> nphase n = PExp -> numAccepts n r = true ->
  exponent_test (c :: r) = true.
Proof.
  intros Hc Hp Ha. unfold exponent_test. unfold isExpMark in Hc.
  rewrite Hc. rewrite (accepts_exp r n Hp Ha). reflexivity.
Qed.

Lemma expMark_not_digit c : isExpMark c = true -> isDigit c = false.
Proof. charlia. Qed.

Lemma accepts_frac r : forall n,
  nphase n = PFrac -> numAccepts n r = true ->
  exponent_test (dropWhile isDigit r) = true.
Proof.
  induction r as [|c r IH]; intros n Hp Ha; [reflexivity|].
  num_phase Hp Ha. destruct (isDigit c) eqn:Ed.
  - unfold dropWhile. simpl. rewrite Ed.
    eapply IH in Ha; [|reflexivity]. unfold dropWhile in Ha.
    destruct (span isDigit r). exact Ha.
  - rewrite dropWhile_stop by assumption.
    destruct (isExpMark c) eqn:Ee; [|discriminate].
    eapply exponent_test_mark; [assumption | | exact Ha]. reflexivity.
Qed.

Lemma accepts_dot r n :
  nphase n = PDot -> numAccepts n r = true ->
  exists t3, digits1 r = Some t3 /\ exponent_test t3 = true.
Proof.
  intros Hp Ha. destruct r as [|c r]; [simpl in Ha; unfold numFinal in Ha;
    rewrite Hp in Ha; discriminate|].
  num_phase Hp Ha. destruct (isDigit c) eqn:Ed; [|discriminate].
  exists (dropWhile isDigit r). split; [apply digits1_cons; assumption|].
  eapply accepts_frac; [|exact Ha]. reflexivity.
Qed.

Lemma fraction_test_dot r n :
  nphase n = PDot -> numAccepts n r = true ->
  fractionAndExponent_test (DOT :: r) = true.
Proof.
  intros Hp Ha. destruct (accepts_dot r n Hp Ha) as (t3 & H1 & H2).
  unfold fractionAndExponent_test. rewrite N.eqb_refl, H1. exact H2.
Qed.

Lemma fraction_test_mark c r n :
  isExpMark c = true -> nphase n = PExp -> numAccepts n r = true ->
  fractionAndExponent_test (c :: r) = true.
Proof.
  intros Hc Hp Ha. unfold fractionAndExponent_test.
  replace (c =? DOT) with false by (symmetry; revert Hc; charlia).
  eapply exponent_test_mark; eassumption.
Qed.

Lemma accepts_int r : forall n,
  nphase n = PInt -> numAccepts n r = true ->
  fractionAndExponent_test (dropWhile isDigit r) = true.
Proof.
  induction r as [|c r IH]; intros n Hp Ha; [reflexivity|].
  num_phase Hp Ha. destruct (isDigit c) eqn:Ed.
  - unfold dropWhile. simpl. rewrite Ed.
    eapply IH in Ha; [|reflexivity]. unfold dropWhile in Ha.
    destruct (span isDigit r). exact Ha.
  - rewrite dropWhile_stop by assumption.
    destruct (c =? DOT) eqn:E1.
    + apply N.eqb_eq in E1. subst c.
      eapply fraction_test_dot; [|exact Ha]. reflexivity.
    + destruct (isExpMark c) eqn:Ee; [|discriminate].
      eapply fraction_test_mark; [assumption | | exact Ha]. reflexivity.
Qed.

Lemma accepts_zero r n :
  nphase n = PZero -> numAccepts n r = true ->
  fractionAndExponent_test r = true /\ dropWhile isDigit r = r.
Proof.
  intros Hp Ha. destruct r as [|c r]; [split; reflexivity|].
  num_phase Hp Ha.
  destruct (c =? DOT) eqn:E1.
  - apply N.eqb_eq in E1. subst c. split; [|reflexivity].
    eapply fraction_test_dot; [|exact Ha]. reflexivity.
  - destruct (isExpMark c) eqn:Ee; [|discriminate]. split.
    + eapply fraction_test_mark; [assumption | | exact Ha]. reflexivity.
    + apply dropWhile_stop, expMark_not_digit, Ee.
Qed.

(** A text that the recogniser accepts as a number, and that ends with the
    number, matches the pattern the line filter uses for numbers. *)
Lemma number_matches_pattern c r v :
  (c =? MINUS) || isDigit c = true ->
  Json.parse (c :: r) = Some v ->
  isSpace (last (c :: r) 0) = false ->
  numberLiteral_test (c :: r) = true.
Proof.
  intros Hc Hp Hl. unfold Json.parse in Hp. rewrite run_cons in Hp.
  assert (Hlr : r <> [] -> isSpace (last r 0) = false)
    by (intros Hr; rewrite <- (last_cons_nonempty c r Hr); exact Hl).
  unfold numberLiteral_test.
  destruct (c =? MINUS) eqn:Em.
  - apply N.eqb_eq in Em. subst c.
    change (step initial MINUS)
      with (mkP [] (MNumber (mkNum PMinus true 0 0 false 0))) in Hp.
    pose proof (number_run _ _ _ Hp Hlr) as Ha.
    destruct r as [|d r]; [discriminate Ha|].
    cbn [numAccepts] in Ha. unfold numStep in Ha. cbn [nphase] in Ha.
    destruct (d =? 48) eqn:E0.
    + apply N.eqb_eq in E0. subst d.
      eapply accepts_zero in Ha; [|reflexivity]. destruct Ha as [H1 H2].
      rewrite digits1_cons by reflexivity. rewrite H2. exact H1.
    + destruct (isDigit d) eqn:Ed; [|discriminate].
      rewrite digits1_cons by assumption.
      eapply accepts_int; [|exact Ha]. reflexivity.
  - simpl in Hc.
    destruct (c =? 48) eqn:E0.
    + apply N.eqb_eq in E0. subst c.
      change (step initial 48)
        with (mkP [] (MNumber (mkNum PZero false 0 0 false 0))) in Hp.
      pose proof (number_run _ _ _ Hp Hlr) as Ha.
      eapply accepts_zero in Ha; [|reflexivity]. destruct Ha as [H1 H2].
      rewrite digits1_cons by reflexivity. rewrite H2. exact H1.
    + assert (Hst : step initial c
                    = mkP [] (MNumber (mkNum PInt false (digitVal c) 0 false 0))).
      { unfold step, stepPlain, initial, startValue. cbn [mode stack].
        replace (isJsonSpace c) with false by (symmetry; revert Hc; charlia).
        replace (c =? LBRACE) with false by (symmetry; revert Hc; charlia).
        replace (c =? LBRACKET) with false by (symmetry; revert Hc; charlia).
        replace (c =? DQUOTE) with false by (symmetry; revert Hc; charlia).
        rewrite Em, E0, Hc. reflexivity. }
      rewrite Hst in Hp.
      pose proof (number_run _ _ _ Hp Hlr) as Ha.
      rewrite digits1_cons by assumption.
      eapply accepts_int; [|exact Ha]. reflexivity.
Qed.

(** ** Well-formed JSON on a single line *)

Lemma trim_last_nonspace s c r :
  trim s = c :: r -> isSpace (last (c :: r) 0) = false.
Proof.
  intros H. rewrite <- H. unfold trim. apply trimEnd_last_nonspace.
  fold (trim s). rewrite H. discriminate.
Qed.

Lemma sanitizeAndParseJson_accepted s t v :
  sanitize s = t -> Json.parse t = Some v -> sanitizeAndParseJson s = Normal v.
Proof.
  intros Hs Hp. unfold sanitizeAndParseJson, JSON_parse. rewrite Hs, Hp.
  reflexivity.
Qed.

Lemma valueStart_cases c :
  valueStart c = true ->
  (isStructuralOrQuote c = true /\ isIdentStart c = false /\ isAlpha c = false)
  \/ ((c =? MINUS) || isDigit c = true
      /\ isIdentStart c = false /\ isAlpha c = false)
  \/ (exists l, c = hd 0 (literalText l)).
Proof.
  unfold valueStart. intros H.
  repeat (apply Bool.orb_true_iff in H; destruct H as [H|H]).
  - left. revert H. charlia.
  - left. revert H. charlia.
  - left. revert H. charlia.
  - right. left. revert H. charlia.
  - right. left. revert H. charlia.
  - right. right. exists LitTrue. apply N.eqb_eq, H.
  - right. right. exists LitFalse. apply N.eqb_eq, H.
  - right. right. exists LitNull. apply N.eqb_eq, H.
Qed.

Lemma single_line_json s v :
  Json.parse s = Some v -> noLT s = true ->
  sanitizeAndParseJson s = Normal v.
Proof.
  intros Hp Hn.
  destruct (parse_trim_head s v Hp) as (c & r & Ht & Hc & Hv).
  pose proof (parse_trim s v Hp) as Hpt. rewrite Ht in Hpt.
  assert (Htt : trim (c :: r) = c :: r) by (rewrite <- Ht; apply trim_idem).
  pose proof (valueStart_not_backtick c Hv) as Hb.
  destruct (valueStart_cases c Hv) as [(H1 & H2 & H3) | [(H1 & H2 & H3) | [l Hl]]].
  - apply (sanitizeAndParseJson_accepted s (c :: r)); [|exact Hpt].
    apply sanitize_single_kept; try assumption.
    apply keepLine_structural; assumption.
  - apply (sanitizeAndParseJson_accepted s (c :: r)); [|exact Hpt].
    apply sanitize_single_kept; try assumption.
    apply keepLine_literal; [assumption|].
    unfold literalRegex_test.
    rewrite (number_matches_pattern c r v H1 Hpt (trim_last_nonspace s c r Ht)).
    apply Bool.orb_true_r.
  - destruct (literal_shape s v c r l Hp Ht Hl) as [Hs ->].
    unfold sanitizeAndParseJson, sanitize. rewrite Hs.
    destruct l; reflexivity.
Qed.

(** ** White space between tokens *)

Lemma plain_space p c :
  isSpace c = true -> plainMode (mode p) = true ->
  step p c = p \/ mode (step p c) = MError.
Proof.
  intros Hc Hm. destruct p as [st m].
  destruct m; try discriminate Hm; unfold step, stepPlain; cbn [stack mode];
    destruct (isJsonSpace c) eqn:Ej; try (left; reflexivity); right;
    rewrite ?(startValue_not_start c st (space_not_valueStart c Hc));
    try reflexivity;
    repeat case_if; try reflexivity; exfalso; revert Hc; charlia.
Qed.

(** White space just before a closing brace does not change the outcome. *)
Lemma space_before_close p c v :
  isSpace c = true ->
  finish (step (step p c) RBRACE) = Some v -> finish (step p RBRACE) = Some v.
Proof.
  intros Hc.
  destruct (plainMode (mode p)) eqn:Hm.
  { destruct (plain_space p c Hc Hm) as [-> | He]; [auto|].
    intros H. rewrite finish_error in H by (apply step_error, He).
    discriminate. }
  destruct p as [st m].
  destruct m as [ | | | | | | v0 | isKey acc ph | l seen | n | ];
    try discriminate Hm; clear Hm.
  - (* inside a string *)
    unfold step, stepPlain, stepString, endString, deliver, finish.
    cbn [stack mode].
    destruct ph as [ | | [|[|todo]] code], isKey, st as [|[|] st'];
      char_cases; try (exfalso; revert Hc; charlia).
  - (* inside a literal *)
    unfold step, stepPlain, deliver, finish. cbn [stack mode].
    destruct l, seen as [|[|[|[|[|[|seen]]]]]], st as [|[|] st'];
      char_cases; try (exfalso; revert Hc; charlia).
  - (* inside a number *)
    unfold step at 2. cbn [stack mode]. rewrite (numStep_space n c Hc).
    unfold step at 2. cbn [stack mode].
    replace (numStep n RBRACE) with (@None NumState)
      by (destruct n as [[] ? ? ? ? ?]; reflexivity).
    destruct (numFinal n); [|cbn; intros H; exact H].
    assert (Hpm : plainMode (mode (deliver (numValue n) st)) = true)
      by (destruct st as [|[|] st']; reflexivity).
    destruct (plain_space (deliver (numValue n) st) c Hc Hpm) as [Hs | He].
    + rewrite step_plain in Hs by apply deliver_not_number.
      rewrite Hs. rewrite step_plain by apply deliver_not_number. auto.
    + rewrite step_plain in He by apply deliver_not_number.
      intros H. rewrite finish_error in H by (apply step_error, He).
      discriminate.
Qed.

Lemma spaces_before_close w : forall p v,
  forallb isSpace w = true ->
  finish (step (run p w) RBRACE) = Some v -> finish (step p RBRACE) = Some v.
Proof.
  induction w as [|c w IH]; intros p v Hw H; [exact H|].
  simpl in Hw. apply Bool.andb_true_iff in Hw. destruct Hw as [Hc Hw].
  rewrite run_cons in H. apply (space_before_close p c v Hc).
  apply (IH _ _ Hw H).
Qed.

(** ** The replacing patterns on text the recogniser reads without failing *)

Lemma error_or_not (m : Mode) : m = MError \/ m <> MError.
Proof. destruct m; (left; reflexivity) || (right; discriminate). Qed.

Lemma alive_step p c r : mode (run p (c :: r)) <> MError -> mode (step p c) <> MError.
Proof. rewrite run_cons. intros H E. apply H, run_error, E. Qed.

Lemma alive_prefix p a b : mode (run p (a ++ b)) <> MError -> mode (run p a) <> MError.
Proof. rewrite run_app. intros H E. apply H, run_error, E. Qed.

Lemma accepted_alive p s v : finish (run p s) = Some v -> mode (run p s) <> MError.
Proof. intros H E. rewrite finish_error in H by exact E. discriminate. Qed.

Lemma run_plain_spaces w : forall p,
  plainMode (mode p) = true -> forallb isSpace w = true ->
  mode (run p w) <> MError -> run p w = p.
Proof.
  induction w as [|c w IH]; intros p Hm Hw Ha; [reflexivity|].
  simpl in Hw. apply Bool.andb_true_iff in Hw. destruct Hw as [Hc Hw].
  rewrite run_cons in *.
  destruct (plain_space p c Hc Hm) as [Hs | He].
  - rewrite Hs in *. apply IH; assumption.
  - exfalso. apply Ha, run_error, He.
Qed.

(** After a line feed or a carriage return the recogniser is between
    tokens. *)
Lemma lineBreak_plain p c :
  (c =? LF) || (c =? CR) = true ->
  mode (step p c) <> MError -> plainMode (mode (step p c)) = true.
Proof.
  intros Hc. destruct p as [st m].
  assert (Hs : isSpace c = true) by (revert Hc; charlia).
  destruct (plainMode m) eqn:Hm.
  - destruct (plain_space (mkP st m) c Hs Hm) as [-> | He]; [auto | congruence].
  - destruct m as [ | | | | | | v0 | isKey acc ph | l seen | n | ];
      try discriminate Hm; clear Hm.
    + unfold step, stepPlain, stepString. cbn [stack mode].
      destruct ph as [ | | [|[|todo]] code];
        apply Bool.orb_true_iff in Hc; destruct Hc as [Hc|Hc];
        apply N.eqb_eq in Hc; subst c; cbn; congruence.
    + unfold step, stepPlain. cbn [stack mode].
      destruct l, seen as [|[|[|[|[|[|seen]]]]]];
        apply Bool.orb_true_iff in Hc; destruct Hc as [Hc|Hc];
        apply N.eqb_eq in Hc; subst c; cbn; congruence.
    + unfold step. cbn [stack mode]. rewrite (numStep_space n c Hs).
      destruct (numFinal n); [|cbn; congruence].
      intros Ha.
      assert (Hpm : plainMode (mode (deliver (numValue n) st)) = true)
        by (destruct st as [|[|] st']; reflexivity).
      rewrite <- step_plain in * by apply deliver_not_number.
      destruct (plain_space (deliver (numValue n) st) c Hs Hpm) as [-> | He];
        [exact Hpm | congruence].
Qed.

Lemma word_start p c :
  plainMode (mode p) = true -> isIdentStart c = true ->
  mode (step p c) <> MError -> afterWord (mode (step p c)) = true.
Proof.
  intros Hm Hc. destruct p as [st m].
  destruct m; try discriminate Hm; unfold step, stepPlain, startValue;
    cbn [stack mode]; repeat case_if; cbn; try congruence;
    try (exfalso; revert Hc; charlia).
Qed.

Lemma word_char p c :
  afterWord (mode p) = true -> isJunkChar c = true ->
  mode (step p c) <> MError -> afterWord (mode (step p c)) = true.
Proof.
  intros Hm Hc. destruct p as [st m].
  destruct m as [ | | | | | | v0 | isKey acc ph | l seen | n | ];
    try discriminate Hm; clear Hm; unfold step, stepPlain, deliver;
    cbn [stack mode].
  - repeat case_if; cbn; try congruence; try (exfalso; revert Hc; charlia).
  - repeat case_if; cbn; try congruence.
  - destruct l, seen as [|[|[|[|[|[|seen]]]]]], st as [|[|] st']; cbn;
      repeat case_if; cbn; congruence.
Qed.

Lemma word_end p c :
  afterWord (mode p) = true -> (c =? COLON) || (c =? DQUOTE) = true ->
  mode (step p c) = MError.
Proof.
  intros Hm Hc. destruct p as [st m].
  destruct m as [ | | | | | | v0 | isKey acc ph | l seen | n | ];
    try discriminate Hm; clear Hm; unfold step, stepPlain;
    cbn [stack mode];
    apply Bool.orb_true_iff in Hc; destruct Hc as [Hc|Hc];
    apply N.eqb_eq in Hc; subst c; try reflexivity;
    destruct l, seen as [|[|[|[|[|[|seen]]]]]]; reflexivity.
Qed.

Lemma word_run j : forall p c rest,
  afterWord (mode p) = true -> forallb isJunkChar j = true ->
  (c =? COLON) || (c =? DQUOTE) = true ->
  mode (run p (j ++ c :: rest)) = MError.
Proof.
  induction j as [|d j IH]; intros p c rest Hm Hj Hc.
  - simpl app. rewrite run_cons. apply run_error, word_end; assumption.
  - simpl in Hj. apply Bool.andb_true_iff in Hj. destruct Hj as [Hd Hj].
    simpl app. rewrite run_cons.
    destruct (error_or_not (mode (step p d))) as [E | E].
    + apply run_error, E.
    + apply IH; try assumption. apply word_char; assumption.
Qed.

Lemma identChars_junk j : forallb isIdentChar j = true -> forallb isJunkChar j = true.
Proof.
  induction j as [|c j IH]; [reflexivity|]. simpl.
  rewrite !Bool.andb_true_iff. intros [Hc H]. split; [|auto].
  revert Hc. charlia.
Qed.

Lemma alpha_identStart c : isAlpha c = true -> isIdentStart c = true.
Proof. charlia. Qed.

(** Between two tokens the recogniser fails on white space, a word and
    then a colon or a double quote. *)
Lemma no_word_then p w c j d rest :
  plainMode (mode p) = true ->
  forallb isSpace w = true -> isIdentStart c = true ->
  forallb isJunkChar j = true -> (d =? COLON) || (d =? DQUOTE) = true ->
  mode (run p (w ++ c :: j ++ d :: rest)) = MError.
Proof.
  intros Hm Hw Hc Hj Hd. rewrite run_app.
  destruct (error_or_not (mode (run p w))) as [E | E]; [apply run_error, E|].
  rewrite (run_plain_spaces w p Hm Hw E), run_cons.
  destruct (error_or_not (mode (step p c))) as [E' | E']; [apply run_error, E'|].
  apply word_run; try assumption. apply word_start; assumption.
Qed.

Lemma span_eq p s a b :
  span p s = (a, b) -> s = a ++ b /\ forallb p a = true.
Proof.
  intros H. pose proof (span_spec p s) as (H1 & H2 & _).
  rewrite H in *. auto.
Qed.

Lemma no_placeholder p s :
  plainMode (mode p) = true -> mode (run p s) <> MError ->
  placeholderLine_matchLength s = None.
Proof.
  intros Hm Ha. unfold placeholderLine_matchLength.
  destruct (span isSpace s) as [w0 s1] eqn:E0.
  destruct (span_eq _ _ _ _ E0) as [Hs Hw].
  destruct s1 as [|c s2]; [reflexivity|].
  destruct (isIdentStart c) eqn:Hc; [|reflexivity].
  destruct (span isIdentChar s2) as [ident s3] eqn:E1.
  destruct (span_eq _ _ _ _ E1) as [Hs2 Hi].
  destruct s3 as [|d s4]; [reflexivity|].
  destruct (d =? COLON) eqn:Hd; [|reflexivity].
  exfalso. subst s s2. apply Ha.
  apply no_word_then; try assumption.
  - apply identChars_junk, Hi.
  - rewrite Hd. reflexivity.
Qed.

Lemma no_junkPrefix p s :
  plainMode (mode p) = true -> mode (run p s) <> MError ->
  junkPrefix_match s = None.
Proof.
  intros Hm Ha. unfold junkPrefix_match.
  destruct (span isSpace s) as [w0 s1] eqn:E0.
  destruct (span_eq _ _ _ _ E0) as [Hs Hw].
  destruct s1 as [|c s2]; [reflexivity|].
  destruct (isAlpha c) eqn:Hc; [|reflexivity].
  destruct (span isJunkChar (c :: s2)) as [j s3] eqn:E1.
  destruct (span_eq _ _ _ _ E1) as [Hs2 Hj].
  destruct s3 as [|q s4]; [reflexivity|].
  destruct (q =? DQUOTE) eqn:Hq; [|reflexivity].
  exfalso.
  assert (Hjc : isJunkChar c = true) by (revert Hc; charlia).
  simpl in E1. rewrite Hjc in E1.
  destruct (span isJunkChar s2) as [j' s3'] eqn:E2.
  injection E1 as E1a E1b. subst j s3'.
  destruct (span_eq _ _ _ _ E2) as [Hs2' Hj'].
  subst s s2. apply Ha.
  apply no_word_then; try assumption.
  - apply alpha_identStart, Hc.
  - rewrite Hq. apply Bool.orb_true_r.
Qed.

Lemma lineTerminator_lineBreak c :
  isLineTerminator c = true -> negb ((c =? 8232) || (c =? 8233)) = true ->
  (c =? LF) || (c =? CR) = true.
Proof. charlia. Qed.

Lemma removePlaceholderLines_alive s : forall p bol,
  (bol = true -> plainMode (mode p) = true) ->
  noSeparator s = true ->
  mode (run p s) <> MError ->
  removePlaceholderLines_from 0 bol s = s.
Proof.
  induction s as [|c r IH]; intros p bol Hb Hn Ha; [reflexivity|].
  simpl in Hn. apply Bool.andb_true_iff in Hn. destruct Hn as [Hc Hn].
  cbn [removePlaceholderLines_from].
  assert (Hm : (if bol then placeholderLine_matchLength (c :: r) else None)
               = None).
  { destruct bol; [|reflexivity]. apply (no_placeholder p); auto. }
  rewrite Hm. f_equal.
  apply (IH (step p c)); try assumption.
  intros Hlt. apply lineBreak_plain.
  - apply lineTerminator_lineBreak; assumption.
  - apply (alive_step _ _ _ Ha).
Qed.

Lemma stripJunkPrefixes_alive s : forall p bol,
  (bol = true -> plainMode (mode p) = true) ->
  noSeparator s = true ->
  mode (run p s) <> MError ->
  stripJunkPrefixes_from 0 bol s = s.
Proof.
  induction s as [|c r IH]; intros p bol Hb Hn Ha; [reflexivity|].
  simpl in Hn. apply Bool.andb_true_iff in Hn. destruct Hn as [Hc Hn].
  cbn [stripJunkPrefixes_from].
  assert (Hm : (if bol then junkPrefix_match (c :: r) else None) = None).
  { destruct bol; [|reflexivity]. apply (no_junkPrefix p); auto. }
  rewrite Hm. f_equal.
  apply (IH (step p c)); try assumption.
  intros Hlt. apply lineBreak_plain.
  - apply lineTerminator_lineBreak; assumption.
  - apply (alive_step _ _ _ Ha).
Qed.

Lemma forallb_firstn {A} (p : A -> bool) l n :
  forallb p l = true -> forallb p (firstn n l) = true.
Proof.
  revert n. induction l as [|x l IH]; intros [|n] H; try reflexivity.
  simpl in *. apply Bool.andb_true_iff in H. destruct H as [-> H].
  simpl. auto.
Qed.

Lemma firstn_takeWhile_spaces r q :
  (q <= length (takeWhile isSpace r))%nat ->
  forallb isSpace (firstn q r) = true.
Proof.
  intros Hq. rewrite (takeWhile_split isSpace r), firstn_app.
  replace (q - length (takeWhile isSpace r))%nat with 0%nat by lia.
  rewrite firstn_O, app_nil_r. apply forallb_firstn, takeWhile_all.
Qed.

(** Collapsing blank lines does not change what the recogniser makes of a
    text it reads without failing: only white space between tokens is
    dropped. *)
Lemma collapse_run s : forall k p,
  mode (run p s) <> MError ->
  (k <> 0%nat ->
   plainMode (mode p) = true /\ forallb isSpace (firstn k s) = true) ->
  run p (collapseBlankLines_from k s) = run p s.
Proof.
  induction s as [|c r IH]; intros k p Ha Hk; [destruct k; reflexivity|].
  pose proof (alive_step _ _ _ Ha) as Hal. rewrite run_cons in Ha.
  cbn [collapseBlankLines_from]. destruct k as [|k].
  - assert (Hkeep : run p (c :: collapseBlankLines_from 0 r) = run p (c :: r)).
    { rewrite !run_cons. apply IH; [exact Ha | congruence]. }
    destruct (c =? LF) eqn:Ec; [|exact Hkeep].
    destruct (lastLF (takeWhile isSpace r)) as [q|] eqn:El; [|exact Hkeep].
    rewrite !run_cons. apply N.eqb_eq in Ec. subst c.
    apply IH; [exact Ha|]. intros _. split.
    + apply lineBreak_plain; [reflexivity | exact Hal].
    + apply firstn_takeWhile_spaces.
      destruct (lastLF_bounds _ _ El) as [[_ H] _]. exact H.
  - destruct (Hk ltac:(discriminate)) as [Hm Hs].
    simpl in Hs. apply Bool.andb_true_iff in Hs. destruct Hs as [Hc Hs].
    rewrite run_cons.
    destruct (plain_space p c Hc Hm) as [Hst | He]; [|congruence].
    rewrite Hst in *. apply IH; [exact Ha|]. intros _. auto.
Qed.

Lemma filter_all {A} (p : A -> bool) l : forallb p l = true -> filter p l = l.
Proof.
  induction l as [|x l IH]; [reflexivity|]. simpl.
  rewrite Bool.andb_true_iff. intros [-> H]. rewrite IH; auto.
Qed.

Lemma noSeparator_app a b : noSeparator (a ++ b) = noSeparator a && noSeparator b.
Proof. apply forallb_app. Qed.

Lemma noSeparator_trim s : noSeparator s = true -> noSeparator (trim s) = true.
Proof.
  intros H. unfold trim.
  destruct (trimStart_split s) as [w [Hs _]].
  rewrite Hs, noSeparator_app in H. apply Bool.andb_true_iff in H.
  destruct H as [_ H].
  destruct (trimEnd_split (trimStart s)) as [w' [Hs' _]].
  rewrite Hs', noSeparator_app in H. apply Bool.andb_true_iff in H. tauto.
Qed.

Lemma noLT_noSeparator s : noLT s = true -> noSeparator s = true.
Proof.
  unfold noLT, noSeparator. induction s as [|c r IH]; [reflexivity|]. simpl.
  rewrite !Bool.andb_true_iff. intros [Hc H]. split; [|auto].
  revert Hc. charlia.
Qed.

(** ** Well-formed JSON none of whose lines is dropped *)

(** The sanitized text of an input whose trimmed text the recogniser reads
    without failing, and none of whose lines the filter drops: only blank
    lines are collapsed. *)
Lemma sanitize_kept_lines s c r :
  trim s = c :: r -> (c =? BACKTICK) = false ->
  noSeparator s = true ->
  mode (run initial (c :: r)) <> MError ->
  forallb keepLine (splitLF (trim s)) = true ->
  sanitize s = trim (collapseBlankLines (c :: r))
  /\ run initial (collapseBlankLines (c :: r)) = run initial (c :: r).
Proof.
  intros Ht Hb Hn Ha Hk.
  pose proof (noSeparator_trim s Hn) as Hnt. rewrite Ht in *. split.
  - unfold sanitize. rewrite Ht, (unwrapFence_other c r Hb).
    unfold removePlaceholderLines, stripJunkPrefixes, filterLines.
    rewrite (removePlaceholderLines_alive (c :: r) initial true)
      by (assumption || reflexivity).
    rewrite (stripJunkPrefixes_alive (c :: r) initial true)
      by (assumption || reflexivity).
    rewrite (filter_all _ _ Hk), joinLF_splitLF. reflexivity.
  - apply collapse_run; [exact Ha | congruence].
Qed.

(** Well-formed JSON none of whose lines the filter drops. *)
Lemma kept_lines_json s v :
  Json.parse s = Some v ->
  noSeparator s = true ->
  forallb keepLine (splitLF (trim s)) = true ->
  sanitizeAndParseJson s = Normal v.
Proof.
  intros Hp Hn Hk.
  destruct (parse_trim_head s v Hp) as (c & r & Ht & Hc & Hv).
  pose proof (parse_trim s v Hp) as Hpt. rewrite Ht in Hpt.
  destruct (sanitize_kept_lines s c r Ht (valueStart_not_backtick c Hv) Hn
              (accepted_alive _ _ _ Hpt) Hk) as [Hs Hr].
  apply (sanitizeAndParseJson_accepted s _ v Hs).
  apply parse_trim. unfold Json.parse. rewrite Hr. exact Hpt.
Qed.




(** ** Truncated objects none of whose lines is dropped *)

(** When the sanitized text is a JSON object without its closing brace,
    the first parse fails, the scan extracts nothing, and [null] is
    returned. *)
Lemma truncated_sanitized x v r :
  Json.parse (sanitize x ++ [RBRACE]) = Some v ->
  trimStart (sanitize x) = LBRACE :: r ->
  Json.parse (sanitize x) = None
  /\ potentialJsonOf (sanitize x) = None
  /\ sanitizeAndParseJson x = Normal JNull.
Proof.
  intros Hp Ht. destruct (truncated_object _ v r Hp Ht) as [H1 H2].
  repeat split; try assumption.
  unfold sanitizeAndParseJson, JSON_parse, fallback. rewrite H1, H2.
  simpl. destruct (length (sanitize x) =? 0)%nat; reflexivity.
Qed.

(** A JSON object cut just before its closing brace, none of whose lines
    the filter drops: what is left after sanitizing is still an object
    without its closing brace. *)
Lemma kept_lines_truncated x v r :
  noSeparator x = true ->
  Json.parse (x ++ [RBRACE]) = Some v ->
  trimStart x = LBRACE :: r ->
  forallb keepLine (splitLF (trim x)) = true ->
  Json.parse (sanitize x) = None
  /\ potentialJsonOf (sanitize x) = None
  /\ sanitizeAndParseJson x = Normal JNull.
Proof.
  intros Hn Hp Ht Hk.
  destruct (trimEnd_head (LBRACE :: r) LBRACE r eq_refl eq_refl) as [r' Hr'].
  assert (Htrim : trim x = LBRACE :: r') by (unfold trim; rewrite Ht; exact Hr').
  assert (Hpt : finish (step (run initial (LBRACE :: r')) RBRACE) = Some v).
  { destruct (trimStart_split x) as [w [Hx Hw]].
    destruct (trimEnd_split (trimStart x)) as [w' [Hx' Hw']].
    fold (trim x) in Hx'. rewrite Htrim in Hx'.
    unfold Json.parse in Hp. rewrite Hx, <- app_assoc in Hp.
    destruct (leading_space w _ _ Hw Hp) as [_ Hrun].
    rewrite run_app, Hrun, Hx', <- app_assoc, run_app, run_app in Hp.
    simpl run at 1 in Hp.
    apply (spaces_before_close w' _ _ Hw' Hp). }
  assert (Ha : mode (run initial (LBRACE :: r')) <> MError).
  { intros E. rewrite finish_error in Hpt by (apply step_error, E).
    discriminate. }
  destruct (sanitize_kept_lines x LBRACE r' Htrim eq_refl Hn Ha Hk) as [Hs Hr].
  set (u := collapseBlankLines (LBRACE :: r')) in *.
  assert (Hu : exists u', u = LBRACE :: u') by (eexists; reflexivity).
  destruct Hu as [u' Hu].
  destruct (trimEnd_head u LBRACE u' Hu eq_refl) as [r'' Hr''].
  assert (Htu : trim u = LBRACE :: r'')
    by (unfold trim; rewrite Hu; rewrite Hu in Hr''; exact Hr'').
  assert (Hps : Json.parse (sanitize x ++ [RBRACE]) = Some v).
  { destruct (trimEnd_split u) as [w2 [Hx2 Hw2]].
    rewrite Hs, Htu. unfold Json.parse. rewrite run_app.
    change (finish (step (run initial (LBRACE :: r'')) RBRACE) = Some v).
    apply (spaces_before_close w2 _ _ Hw2).
    rewrite <- run_app, <- Hr'', <- Hx2, Hr. exact Hpt. }
  assert (Hts : trimStart (sanitize x) = LBRACE :: r'')
    by (rewrite Hs, Htu; reflexivity).
  exact (truncated_sanitized x v r'' Hps Hts).
Qed.

(** On a single line that starts with a brace the filter drops nothing. *)
Lemma single_line_kept x r :
  noLT x = true -> trimStart x = LBRACE :: r ->
  forallb keepLine (splitLF (trim x)) = true.
Proof.
  intros Hn Ht.
  destruct (trimEnd_head (LBRACE :: r) LBRACE r eq_refl eq_refl) as [r' Hr'].
  assert (Htrim : trim x = LBRACE :: r') by (unfold trim; rewrite Ht; exact Hr').
  rewrite (splitLF_single (trim x)) by apply noLT_noLF, noLT_trim, Hn.
  simpl. rewrite Bool.andb_true_r. rewrite Htrim.
  apply keepLine_structural; [|reflexivity]. rewrite <- Htrim. apply trim_idem.
Qed.

(** C5, as the code has it.  For the input of the specification the first
    [JSON.parse] fails, the whole text is extracted as the balanced region
    and fails to parse too, and [null] is returned.  For every input whose
    sanitized text is a JSON object without its closing brace, the first
    parse fails, the scan extracts nothing, and [null] is returned.  This
    is the case of every JSON object cut just before its closing brace
    that holds no line separator or paragraph separator (U+2028, U+2029)
    and none of whose lines, once the text is trimmed, is dropped by the
    line filter; so it is of every such object written on a single
    line. *)
Theorem C5_unbalanced_and_truncated_give_null :
  (let input := js "{'a': [}" in
   Json.parse (sanitize input) = None
   /\ potentialJsonOf (sanitize input) = Some input
   /\ Json.parse input = None
   /\ sanitizeAndParseJson input = Normal JNull)
  /\ (forall jsonString v r,
        Json.parse (sanitize jsonString ++ [RBRACE]) = Some v ->
        trimStart (sanitize jsonString) = LBRACE :: r ->
        Json.parse (sanitize jsonString) = None
        /\ potentialJsonOf (sanitize jsonString) = None
        /\ sanitizeAndParseJson jsonString = Normal JNull)
  /\ (forall jsonString v r,
        forallb (fun c => negb ((c =? 8232) || (c =? 8233))) jsonString = true ->
        Json.parse (jsonString ++ [RBRACE]) = Some v ->
        trimStart jsonString = LBRACE :: r ->
        forallb keepLine (splitLF (trim jsonString)) = true ->
        Json.parse (sanitize jsonString) = None
        /\ potentialJsonOf (sanitize jsonString) = None
        /\ sanitizeAndParseJson jsonString = Normal JNull)
  /\ (forall jsonString v r,
        forallb (fun c => negb (isLineTerminator c)) jsonString = true ->
        Json.parse (jsonString ++ [RBRACE]) = Some v ->
        trimStart jsonString = LBRACE :: r ->
        Json.parse (sanitize jsonString) = None
        /\ potentialJsonOf (sanitize jsonString) = None
        /\ sanitizeAndParseJson jsonString = Normal JNull).
Proof.
  split; [repeat split; reflexivity|]. split; [|split].
  - exact truncated_sanitized.
  - exact kept_lines_truncated.
  - intros x v r Hn Hp Ht.
    apply (kept_lines_truncated x v r); try assumption.
    + apply noLT_noSeparator, Hn.
    + apply (single_line_kept x r); assumption.
Qed.

Lemma C5_witness :
  (Json.parse
     (sanitize (lines ["{"; "  'analysis': 'a jacket',"; "";
                       "  'similarProducts': [{'id': 'sim1'}]"; ""])) = None
   /\ potentialJsonOf
        (sanitize (lines ["{"; "  'analysis': 'a jacket',"; "";
                          "  'similarProducts': [{'id': 'sim1'}]"; ""])) = None
   /\ sanitizeAndParseJson
        (lines ["{"; "  'analysis': 'a jacket',"; "";
                "  'similarProducts': [{'id': 'sim1'}]"; ""])
      = Normal JNull)
  /\ sanitizeAndParseJson
       (js " {'analysis': 'a jacket', 'similarProducts': [{'id': 'sim1'}]")
     = Normal JNull.
Proof.
  split.
  - apply (proj1 (proj2 (proj2 C5_unbalanced_and_truncated_give_null))
             (lines ["{"; "  'analysis': 'a jacket',"; "";
                     "  'similarProducts': [{'id': 'sim1'}]"; ""])
             (JObject [(js "analysis", JString (js "a jacket"));
                       (js "similarProducts",
                        JArray [JObject [(js "id", JString (js "sim1"))]])])
             (tl (lines ["{"; "  'analysis': 'a jacket',"; "";
                         "  'similarProducts': [{'id': 'sim1'}]"; ""])));
      reflexivity.
  - apply (proj2 (proj2 (proj2 C5_unbalanced_and_truncated_give_null))
             (js " {'analysis': 'a jacket', 'similarProducts': [{'id': 'sim1'}]")
             (JObject [(js "analysis", JString (js "a jacket"));
                       (js "similarProducts",
                        JArray [JObject [(js "id", JString (js "sim1"))]])])
             (js "'analysis': 'a jacket', 'similarProducts': [{'id': 'sim1'}]"));
      reflexivity.
Defined.

(** C5 fails as stated for truncated objects in general.  The text below
    is a well-formed object without its closing brace; the line filter
    drops its second line, what is left is a well-formed object, and that
    object is returned instead of [null]. *)
Lemma C5_counterexample :
  Json.parse (lines ["{'a'"; ": {'b'"; ": 1}"] ++ [RBRACE])
  = Some (JObject [(js "a", JObject [(js "b", JNumber false 1 0)])])
  /\ sanitize (lines ["{'a'"; ": {'b'"; ": 1}"]) = lines ["{'a'"; ": 1}"]
  /\ sanitizeAndParseJson (lines ["{'a'"; ": {'b'"; ": 1}"])
     = Normal (JObject [(js "a", JNumber false 1 0)])
  /\ sanitizeAndParseJson (lines ["{'a'"; ": {'b'"; ": 1}"]) <> Normal JNull.
Proof. repeat split; try reflexivity. discriminate. Qed.

(* ===================================================================== *)
(** * Further properties of the code *)
(* ===================================================================== *)

(** ** What the sanitized text looks like *)

Lemma takeWhile_all_prefix p a b :
  forallb p a = true -> exists x, takeWhile p (a ++ b) = a ++ x.
Proof.
  intros Ha. destruct (takeWhile_app_prefix p a b) as [x Hx].
  exists x. rewrite Hx. unfold takeWhile. rewrite (span_all p a Ha).
  reflexivity.
Qed.

(** A line feed, white space and a line feed are never left as they are by
    the collapsing of blank lines. *)
Lemma collapse_changes_blank w b :
  forallb isSpace w = true ->
  collapseBlankLines (LF :: w ++ LF :: b) <> LF :: w ++ LF :: b.
Proof.
  intros Hw E.
  assert (Hsp : forallb isSpace (w ++ [LF]) = true).
  { rewrite forallb_app, Hw. reflexivity. }
  destruct (takeWhile_all_prefix isSpace (w ++ [LF]) b Hsp) as [x Hx].
  repeat rewrite <- app_assoc in Hx. simpl in Hx.
  unfold collapseBlankLines in E. cbn [collapseBlankLines_from] in E.
  rewrite N.eqb_refl, Hx in E.
  destruct (lastLF (w ++ LF :: x)) as [p|] eqn:El.
  - destruct (lastLF_bounds _ _ El) as [[Hp _] _].
    injection E as E. apply (f_equal (@length _)) in E.
    rewrite collapse_skip in E.
    pose proof (collapse_length (skipn p (w ++ LF :: b)) 0) as Hl.
    rewrite length_skipn in Hl. rewrite length_app in *. simpl in *. lia.
  - apply lastLF_none in El. rewrite noLF_app in El. simpl in El.
    rewrite Bool.andb_false_r in El. discriminate.
Qed.

(** X1. The text [sanitizeAndParseJson] hands to [JSON.parse] neither
    starts nor ends with white space, and holds no blank line: no two line
    feeds with only white space between them. *)
Theorem sanitized_text_is_trimmed_without_blank_lines jsonString :
  (forall c r, sanitize jsonString = c :: r ->
     isSpace c = false /\ isSpace (last (c :: r) 0) = false)
  /\ (forall a w b, forallb isSpace w = true ->
        sanitize jsonString <> a ++ LF :: w ++ LF :: b).
Proof.
  destruct (sanitize_normal jsonString) as [Ht Hc]. split.
  - intros c r E. rewrite E in Ht. split.
    + apply (trim_head _ _ _ Ht).
    + apply (trim_last_nonspace _ _ _ Ht).
  - intros a w b Hw E. rewrite E in Hc.
    apply collapse_fixed_suffix in Hc.
    apply (collapse_changes_blank w b Hw Hc).
Qed.

(** ** The region the fallback extracts *)

Lemma scanState_snoc eo ec p c :
  scanState eo ec (p ++ [c])
  = scanStep eo ec (openCountAfter eo ec p) (inStringAfter eo ec p)
      (escapeAfter eo ec p) c.
Proof.
  unfold openCountAfter, inStringAfter, escapeAfter, scanState.
  rewrite fold_left_app. simpl.
  destruct (fold_left _ p _) as [[oc inStr] esc]. reflexivity.
Qed.

Lemma scanState_spaces eo ec w :
  forallb isJsonSpace w = true -> isJsonSpace eo = false ->
  isJsonSpace ec = false ->
  scanState eo ec w = (0%Z, false, false).
Proof.
  intros Hw Ho Hc. induction w as [|c w IH] using rev_ind; [reflexivity|].
  rewrite forallb_app in Hw. apply Bool.andb_true_iff in Hw.
  destruct Hw as [Hw Hc']. simpl in Hc'. rewrite Bool.andb_true_r in Hc'.
  rewrite scanState_snoc.
  unfold openCountAfter, inStringAfter, escapeAfter. rewrite (IH Hw). simpl.
  unfold scanStep.
  assert (E1 : (c =? BACKSLASH) = false) by (revert Hc'; charlia).
  assert (E2 : (c =? DQUOTE) = false) by (revert Hc'; charlia).
  assert (E3 : (c =? eo) = false).
  { apply N.eqb_neq. intros ->. congruence. }
  assert (E4 : (c =? ec) = false).
  { apply N.eqb_neq. intros ->. congruence. }
  rewrite E1, E2. simpl. rewrite E3, E4. reflexivity.
Qed.

Lemma openClose_not_space K :
  isJsonSpace (openChar K) = false /\ isJsonSpace (closeChar K) = false
  /\ isSpace (openChar K) = false.
Proof. destruct K; repeat split; reflexivity. Qed.

(** After leading white space and the opening character the counter is
    one. *)
Lemma scanState_open K w :
  forallb isJsonSpace w = true ->
  scanState (openChar K) (closeChar K) (w ++ [openChar K])
  = (1%Z, false, false).
Proof.
  intros Hw. destruct (openClose_not_space K) as (Ho & Hc & _).
  rewrite scanState_snoc.
  unfold openCountAfter, inStringAfter, escapeAfter.
  rewrite (scanState_spaces _ _ w Hw Ho Hc).
  destruct K; reflexivity.
Qed.

(** When the inner loop finds the opening character, only the four white
    space characters it names come before it. *)
Lemma found_shape eo u :
  initialStructuralCharFound eo u = true ->
  exists a x, u = a ++ eo :: x /\ forallb isJsonSpace a = true.
Proof.
  induction u as [|c u IH]; simpl; [discriminate|].
  destruct (c =? eo) eqn:E.
  - apply N.eqb_eq in E. subst c. intros _. exists [], u. auto.
  - destruct (negb _) eqn:En; [discriminate|]. intros H.
    destruct (IH H) as (a & x & -> & Ha).
    exists (c :: a), x. split; [reflexivity|]. simpl. rewrite Ha.
    apply Bool.negb_false_iff in En. unfold isJsonSpace.
    rewrite Bool.andb_true_r.
    revert En. unfold_classes. bool2prop. tauto.
Qed.

Lemma scan_never sane eo ec :
  (forall i, initialStructuralCharFound eo (firstn (S i) sane) = false) ->
  forall rest i oc inStr esc,
    scanFrom sane eo ec i oc inStr esc rest = (-1)%Z.
Proof.
  intros Hf. induction rest as [|c rest IH]; intros i oc inStr esc;
    [reflexivity|].
  rewrite scanFrom_cons.
  destruct (scanStep eo ec oc inStr esc c) as [[oc' inStr'] esc'].
  rewrite Hf, Bool.andb_false_r. apply IH.
Qed.

(** Two ways of cutting a text into white space and a character that is
    not white space cut it at the same place. *)
Lemma spaces_then_char a : forall b c d x y,
  forallb isSpace a = true -> forallb isSpace b = true ->
  isSpace c = false -> isSpace d = false ->
  a ++ c :: x = b ++ d :: y -> a = b /\ c = d /\ x = y.
Proof.
  induction a as [|e a IH]; intros [|f b] c d x y Ha Hb Hc Hd E; simpl in *.
  - injection E as -> ->. auto.
  - injection E as -> _. apply Bool.andb_true_iff in Hb. destruct Hb. congruence.
  - injection E as -> _. apply Bool.andb_true_iff in Ha. destruct Ha. congruence.
  - injection E as -> E. apply Bool.andb_true_iff in Ha, Hb.
    destruct Ha as [_ Ha], Hb as [_ Hb].
    destruct (IH b c d x y Ha Hb Hc Hd E) as (-> & -> & ->). auto.
Qed.

Lemma firstn_is_prefix {A} n (s : list A) : s = firstn n s ++ skipn n s.
Proof. symmetry. apply firstn_skipn. Qed.

(** If the scan stops somewhere, what comes before the opening character
    is white space of the four kinds. *)
Lemma scan_stops_leading K sane w y :
  forallb isSpace w = true ->
  sane = w ++ openChar K :: y ->
  findEndIndex sane (openChar K) (closeChar K) <> (-1)%Z ->
  forallb isJsonSpace w = true.
Proof.
  intros Hw Hs Hend.
  destruct (forallb isJsonSpace w) eqn:Hj; [reflexivity|]. exfalso.
  apply Hend. unfold findEndIndex. apply scan_never. intros i.
  destruct (initialStructuralCharFound (openChar K) (firstn (S i) sane))
    eqn:Hf; [|reflexivity].
  destruct (found_shape _ _ Hf) as (a & x & Hu & Ha).
  pose proof (firstn_is_prefix (S i) sane) as Hp. rewrite Hu in Hp.
  rewrite Hs, <- app_assoc in Hp. simpl in Hp.
  destruct (openClose_not_space K) as (_ & _ & Ho).
  destruct (spaces_then_char w a _ _ _ _ Hw (jsonSpaces_spaces a Ha) Ho Ho Hp)
    as (-> & _ & _).
  congruence.
Qed.

Lemma found_from_open K w x i :
  forallb isJsonSpace w = true -> (length w <= i)%nat ->
  initialStructuralCharFound (openChar K)
    (firstn (S i) (w ++ openChar K :: x)) = true.
Proof.
  intros Hw Hi. rewrite firstn_app.
  rewrite firstn_all2 by lia.
  replace (S i - length w)%nat with (S (i - length w)) by lia.
  simpl. apply found_true; [exact Hw|].
  apply (openClose_not_space K).
Qed.

(** One turn of the loop from a positive counter: the counter stays
    positive, or the character is the closing one and the counter is
    zero. *)
Lemma scanStep_positive eo ec oc inStr esc c :
  (0 < oc)%Z ->
  let '(oc', _, _) := scanStep eo ec oc inStr esc c in
  (0 < oc')%Z
  \/ (oc' = 0%Z /\ c = ec /\ esc = false /\ (c =? BACKSLASH) = false).
Proof.
  intros Hoc. unfold scanStep.
  destruct esc; [left; exact Hoc|].
  destruct (c =? BACKSLASH); [left; exact Hoc|].
  destruct (negb (if c =? DQUOTE then negb inStr else inStr));
    [|left; exact Hoc].
  destruct (c =? eo); [left; lia|].
  destruct (c =? ec) eqn:E; [|left; exact Hoc].
  apply N.eqb_eq in E.
  destruct (Z.eq_dec (oc - 1) 0) as [H0|H0]; [right; auto | left; lia].
Qed.

Section Region.
Variable K : bool.
Variable w : jsstring.
Hypothesis Hw : forallb isJsonSpace w = true.
Let eo := openChar K.
Let ec := closeChar K.

(** The loop from the opening character on: it runs through the text with
    a positive counter, or stops after the closing character that brings
    the counter back to zero. *)
Lemma scan_region : forall rest pre,
  (0 < openCountAfter eo ec (w ++ eo :: pre))%Z ->
  let r :=
    scanFrom (w ++ eo :: pre ++ rest) eo ec (S (length w) + length pre)
      (openCountAfter eo ec (w ++ eo :: pre))
      (inStringAfter eo ec (w ++ eo :: pre))
      (escapeAfter eo ec (w ++ eo :: pre)) rest in
  (r = (-1)%Z
   /\ forall p t, rest = p ++ t ->
                  (0 < openCountAfter eo ec (w ++ eo :: pre ++ p))%Z)
  \/ (exists p t,
        rest = p ++ ec :: t
        /\ r = Z.of_nat (S (length w) + length pre + S (length p))
        /\ openCountAfter eo ec (w ++ eo :: pre ++ p ++ [ec]) = 0%Z
        /\ forall p' t', p = p' ++ t' ->
             (0 < openCountAfter eo ec (w ++ eo :: pre ++ p'))%Z).
Proof.
  induction rest as [|c rest IH]; intros pre Hpos; cbv zeta.
  - left. split; [reflexivity|]. intros p t E.
    symmetry in E. apply app_eq_nil in E. destruct E as [-> _].
    rewrite app_nil_r. exact Hpos.
  - rewrite scanFrom_cons.
    pose proof (scanState_snoc eo ec (w ++ eo :: pre) c) as Hsn.
    pose proof (scanStep_positive eo ec _ (inStringAfter eo ec (w ++ eo :: pre))
                  (escapeAfter eo ec (w ++ eo :: pre)) c Hpos) as Hstep.
    destruct (scanStep eo ec _ _ _ c) as [[oc' inStr'] esc'] eqn:Est.
    assert (Hfound : initialStructuralCharFound eo
                       (firstn (S (S (length w) + length pre))
                          (w ++ eo :: pre ++ c :: rest)) = true)
      by (apply found_from_open; [exact Hw | lia]).
    rewrite Hfound, Bool.andb_true_r.
    assert (Hassoc : w ++ eo :: pre ++ c :: rest
                     = w ++ eo :: (pre ++ [c]) ++ rest)
      by (rewrite <- app_assoc; reflexivity).
    assert (Hassoc' : (w ++ eo :: pre) ++ [c] = w ++ eo :: pre ++ [c])
      by (rewrite <- app_assoc; reflexivity).
    rewrite Hassoc' in Hsn.
    destruct Hstep as [Hpos' | (H0 & Hc & Hesc & Hbs)].
    + assert (Ez : (oc' =? 0)%Z = false) by (apply Z.eqb_neq; lia).
      rewrite Ez, Bool.andb_false_r.
      assert (Hoc : openCountAfter eo ec (w ++ eo :: pre ++ [c]) = oc')
        by (unfold openCountAfter; rewrite Hsn; reflexivity).
      assert (Hin : inStringAfter eo ec (w ++ eo :: pre ++ [c]) = inStr')
        by (unfold inStringAfter; rewrite Hsn; reflexivity).
      assert (Hes : escapeAfter eo ec (w ++ eo :: pre ++ [c]) = esc')
        by (unfold escapeAfter; rewrite Hsn; reflexivity).
      specialize (IH (pre ++ [c])). rewrite Hoc, Hin, Hes in IH.
      specialize (IH Hpos'). cbv zeta in IH.
      rewrite <- Hassoc in IH. rewrite length_app in IH. simpl in IH.
      replace (S (length w + (length pre + 1))) with (S (S (length w + length pre)))
        in IH by lia.
      simpl. destruct IH as [[Hr Hall] | (p & t & Hrest & Hr & Hz & Hall)].
      * left. split; [exact Hr|]. intros p t E.
        destruct p as [|d p].
        -- rewrite app_nil_r. exact Hpos.
        -- simpl in E. injection E as <- E.
           specialize (Hall p t E). rewrite <- app_assoc in Hall. exact Hall.
      * right. exists (c :: p), t. split; [rewrite Hrest; reflexivity|].
        split; [rewrite Hr; simpl; f_equal; lia|]. split.
        -- rewrite <- app_assoc in Hz. exact Hz.
        -- intros p' t' E. destruct p' as [|d p'].
           ++ rewrite app_nil_r. exact Hpos.
           ++ simpl in E. injection E as <- E.
              specialize (Hall p' t' E). rewrite <- app_assoc in Hall.
              exact Hall.
    + subst oc'. rewrite Hesc, Hbs. simpl.
      right. exists [], rest. subst c. split; [reflexivity|].
      split; [f_equal; simpl; lia|]. split.
      * simpl. unfold openCountAfter. rewrite Hsn. reflexivity.
      * intros p' t' E. symmetry in E. apply app_eq_nil in E.
        destruct E as [-> _]. rewrite app_nil_r. exact Hpos.
Qed.

End Region.

Lemma potentialJsonOf_cases s q :
  potentialJsonOf s = Some q ->
  exists K y,
    trimStart s = openChar K :: y
    /\ findEndIndex s (openChar K) (closeChar K) <> (-1)%Z
    /\ q = substring0 (findEndIndex s (openChar K) (closeChar K)) s.
Proof.
  unfold potentialJsonOf.
  destruct (trimStart s) as [|c y] eqn:Et; simpl; [discriminate|].
  destruct (c =? LBRACE) eqn:E1.
  - apply N.eqb_eq in E1. subst c.
    destruct (negb _) eqn:En; [|discriminate]. intros [= <-].
    exists true, y. repeat split.
    apply Bool.negb_true_iff, Z.eqb_neq in En. exact En.
  - destruct (c =? LBRACKET) eqn:E2; [|discriminate].
    apply N.eqb_eq in E2. subst c.
    destruct (negb _) eqn:En; [|discriminate]. intros [= <-].
    exists false, y. repeat split.
    apply Bool.negb_true_iff, Z.eqb_neq in En. exact En.
Qed.

Lemma potentialJsonOf_open K w y :
  forallb isJsonSpace w = true ->
  potentialJsonOf (w ++ openChar K :: y)
  = let endIndex :=
      findEndIndex (w ++ openChar K :: y) (openChar K) (closeChar K) in
    if negb (endIndex =? -1)%Z
    then Some (substring0 endIndex (w ++ openChar K :: y)) else None.
Proof.
  intros Hw. unfold potentialJsonOf.
  rewrite (trimStart_app_space w _ (jsonSpaces_spaces w Hw)).
  rewrite trimStart_nonspace by apply (openClose_not_space K).
  destruct K; reflexivity.
Qed.

Lemma scan_from_open K w y :
  forallb isJsonSpace w = true ->
  findEndIndex (w ++ openChar K :: y) (openChar K) (closeChar K)
  = scanFrom (w ++ openChar K :: y) (openChar K) (closeChar K)
      (S (length w) + 0)
      (openCountAfter (openChar K) (closeChar K) (w ++ [openChar K]))
      (inStringAfter (openChar K) (closeChar K) (w ++ [openChar K]))
      (escapeAfter (openChar K) (closeChar K) (w ++ [openChar K])) y.
Proof.
  intros Hw.
  unfold openCountAfter, inStringAfter, escapeAfter.
  rewrite (scanState_open K w Hw). simpl fst. simpl snd.
  pose proof (findEndIndex_start K w y [] Hw) as H.
  rewrite !app_nil_r in H. rewrite H. f_equal. lia.
Qed.

Lemma firstn_exact {A} (a b : list A) n :
  n = length a -> firstn n (a ++ b) = a.
Proof.
  intros ->. rewrite firstn_app, firstn_all, Nat.sub_diag, firstn_O.
  apply app_nil_r.
Qed.

(** What the fallback extracts, when it extracts something. *)
Lemma region_shape s q :
  potentialJsonOf s = Some q ->
  exists K w body rest,
    s = q ++ rest
    /\ q = w ++ openChar K :: body ++ [closeChar K]
    /\ forallb isJsonSpace w = true
    /\ openCountAfter (openChar K) (closeChar K) q = 0%Z
    /\ forall p t, body = p ++ t ->
         (0 < openCountAfter (openChar K) (closeChar K)
                (w ++ openChar K :: p))%Z.
Proof.
  intros H. destruct (potentialJsonOf_cases s q H) as (K & y & Ht & Hend & Hq).
  destruct (trimStart_split s) as [w [Hs Hws]]. rewrite Ht in Hs.
  pose proof (scan_stops_leading K s w y Hws Hs Hend) as Hw.
  rewrite Hs in Hend, Hq. rewrite (scan_from_open K w y Hw) in Hend, Hq.
  assert (Hpos : (0 < openCountAfter (openChar K) (closeChar K)
                         (w ++ openChar K :: []))%Z).
  { unfold openCountAfter. rewrite (scanState_open K w Hw). simpl. lia. }
  pose proof (scan_region K w Hw y [] Hpos) as Hscan. cbv zeta in Hscan.
  simpl app in Hscan. simpl length in Hscan.
  destruct Hscan as [[Hr _] | (p & t & Hy & Hr & Hz & Hall)];
    [congruence|].
  rewrite Hr in Hq. unfold substring0 in Hq. rewrite Nat2Z.id in Hq.
  exists K, w, p, t. subst y.
  assert (E : w ++ openChar K :: p ++ closeChar K :: t
              = (w ++ openChar K :: p ++ [closeChar K]) ++ t)
    by (rewrite <- app_assoc; simpl; rewrite <- app_assoc; reflexivity).
  rewrite E in Hq. rewrite firstn_exact in Hq.
  2:{ rewrite !length_app. simpl. rewrite length_app. simpl. lia. }
  subst q. repeat split; auto. rewrite Hs. exact E.
Qed.

Lemma prefix_compare {A} (a b x y : list A) :
  a ++ x = b ++ y ->
  a = b \/ (exists c d, b = a ++ c :: d) \/ (exists c d, a = b ++ c :: d).
Proof.
  intros E. apply app_eq_app in E. destruct E as [l [[-> _] | [-> _]]].
  - destruct l as [|c d]; [left; rewrite app_nil_r; reflexivity|].
    right. right. exists c, d. reflexivity.
  - destruct l as [|c d]; [left; rewrite app_nil_r; reflexivity|].
    right. left. exists c, d. reflexivity.
Qed.

(** The shortest balanced prefix is the one extracted, whatever follows. *)
Lemma region_found K w body rest :
  forallb isJsonSpace w = true ->
  openCountAfter (openChar K) (closeChar K)
    (w ++ openChar K :: body ++ [closeChar K]) = 0%Z ->
  (forall p t, body = p ++ t ->
     (0 < openCountAfter (openChar K) (closeChar K)
            (w ++ openChar K :: p))%Z) ->
  potentialJsonOf ((w ++ openChar K :: body ++ [closeChar K]) ++ rest)
  = Some (w ++ openChar K :: body ++ [closeChar K]).
Proof.
  intros Hw Hz Hall.
  assert (E : (w ++ openChar K :: body ++ [closeChar K]) ++ rest
              = w ++ openChar K :: body ++ closeChar K :: rest)
    by (rewrite <- app_assoc; simpl; rewrite <- app_assoc; reflexivity).
  rewrite E at 1. rewrite (potentialJsonOf_open K w _ Hw). cbv zeta.
  rewrite (scan_from_open K w _ Hw).
  assert (Hpos : (0 < openCountAfter (openChar K) (closeChar K)
                         (w ++ openChar K :: []))%Z).
  { unfold openCountAfter. rewrite (scanState_open K w Hw). simpl. lia. }
  pose proof (scan_region K w Hw (body ++ closeChar K :: rest) [] Hpos)
    as Hscan. cbv zeta in Hscan. simpl app in Hscan. simpl length in Hscan.
  destruct Hscan as [[_ Hno] | (p & t & Hy & Hr & Hzp & Hallp)].
  - exfalso. specialize (Hno (body ++ [closeChar K]) rest).
    rewrite <- app_assoc in Hno. specialize (Hno eq_refl). lia.
  - assert (Hp : p = body).
    { destruct (prefix_compare _ _ _ _ Hy)
        as [Hp | [(c & d & Hp) | (c & d & Hp)]].
      - auto.
      - exfalso. rewrite Hp, <- app_assoc in Hy. apply app_inv_head in Hy.
        simpl in Hy. injection Hy as Hc _. subst c.
        specialize (Hallp (body ++ [closeChar K]) d).
        rewrite <- app_assoc in Hallp. specialize (Hallp Hp). lia.
      - exfalso. rewrite Hp, <- app_assoc in Hy. apply app_inv_head in Hy.
        simpl in Hy. injection Hy as Hc _. subst c.
        specialize (Hall (p ++ [closeChar K]) d).
        rewrite <- app_assoc in Hall. specialize (Hall Hp). lia. }
    subst p. rewrite Hr.
    assert (En : negb (Z.of_nat (S (length w) + 0 + S (length body)) =? -1)%Z
                 = true)
      by (apply Bool.negb_true_iff, Z.eqb_neq; lia).
    rewrite En. unfold substring0. rewrite Nat2Z.id. f_equal.
    rewrite <- E. apply firstn_exact.
    rewrite !length_app. simpl. rewrite length_app. simpl. lia.
Qed.

(** X2. What the brace and bracket counting fallback extracts.  It hands a
    text [q] to the second [JSON.parse] exactly when [q] is the shortest
    prefix of the sanitized text in which the counter, having left zero at
    the opening character, is back to zero: [q] is made of white space of
    the four kinds the inner loop names, the opening character, a body
    along which the counter stays positive, and the closing character. *)
Theorem fallback_extracts_first_balanced_prefix s q :
  potentialJsonOf s = Some q
  <-> exists K w body rest,
        s = q ++ rest
        /\ q = w ++ openChar K :: body ++ [closeChar K]
        /\ forallb isJsonSpace w = true
        /\ openCountAfter (openChar K) (closeChar K) q = 0%Z
        /\ forall p t, body = p ++ t ->
             (0 < openCountAfter (openChar K) (closeChar K)
                    (w ++ openChar K :: p))%Z.
Proof.
  split.
  - apply region_shape.
  - intros (K & w & body & rest & -> & Hq & Hw & Hz & Hall).
    rewrite Hq in Hz. rewrite Hq. apply region_found; assumption.
Qed.

(** X3. The text after the balanced region never matters: when the
    fallback extracts [q] from a text, it extracts [q] from every text
    that starts with [q], and gives the same result. *)
Theorem fallback_ignores_text_after_region q rest rest' :
  potentialJsonOf (q ++ rest) = Some q ->
  potentialJsonOf (q ++ rest') = Some q
  /\ fallback (q ++ rest') = fallback (q ++ rest).
Proof.
  intros H.
  destruct (region_shape _ _ H) as (K & w & body & rest0 & _ & Hq & Hw & Hz & Hall).
  assert (H' : potentialJsonOf (q ++ rest') = Some q).
  { rewrite Hq in Hz. rewrite Hq. apply region_found; assumption. }
  split; [exact H'|].
  unfold fallback. rewrite H, H'.
  assert (Hne : forall t, (length (q ++ t) =? 0)%nat = false).
  { intros t. apply Nat.eqb_neq. rewrite Hq, !length_app. simpl. lia. }
  rewrite !Hne. reflexivity.
Qed.

Lemma fallback_ignores_text_after_region_witness :
  potentialJsonOf (js "{'a': '}'} and more") = Some (js "{'a': '}'}")
  /\ potentialJsonOf (js "{'a': '}'}]]") = Some (js "{'a': '}'}")
  /\ fallback (js "{'a': '}'}]]") = fallback (js "{'a': '}'} and more").
Proof.
  split; [reflexivity|].
  apply (fallback_ignores_text_after_region (js "{'a': '}'}")
           (js " and more") (js "]]")).
  reflexivity.
Defined.

(** ** Where the two replacing patterns can match *)

(** Two ways of cutting a text into characters of a class and a character
    outside it cut it at the same place. *)
Lemma stop_unique (P : char -> bool) a : forall b c d x y,
  forallb P a = true -> forallb P b = true ->
  P c = false -> P d = false ->
  a ++ c :: x = b ++ d :: y -> a = b /\ c = d /\ x = y.
Proof.
  induction a as [|e a IH]; intros [|f b] c d x y Ha Hb Hc Hd E; simpl in *.
  - injection E as -> ->. auto.
  - injection E as -> _. apply Bool.andb_true_iff in Hb. destruct Hb. congruence.
  - injection E as -> _. apply Bool.andb_true_iff in Ha. destruct Ha. congruence.
  - injection E as -> E. apply Bool.andb_true_iff in Ha, Hb.
    destruct Ha as [_ Ha], Hb as [_ Hb].
    destruct (IH b c d x y Ha Hb Hc Hd E) as (-> & -> & ->). auto.
Qed.

Lemma prefix_or_stop (P : char -> bool) l :
  forallb P l = true
  \/ exists a z b, l = a ++ z :: b /\ forallb P a = true /\ P z = false.
Proof.
  induction l as [|c l IH]; [left; reflexivity|].
  destruct (P c) eqn:Ec.
  - destruct IH as [H | (a & z & b & -> & Ha & Hz)].
    + left. simpl. rewrite Ec, H. reflexivity.
    + right. exists (c :: a), z, b. simpl. rewrite Ec, Ha. auto.
  - right. exists [], c, l. auto.
Qed.

(** A text the first pattern matches at its beginning: white space, an
    identifier, a colon, white space and an empty pair. *)
Lemma placeholder_shape b n :
  placeholderLine_matchLength b = Some n ->
  exists w0 c ident w1 x y rest,
    b = w0 ++ c :: ident ++ COLON :: w1 ++ x :: y :: rest
    /\ forallb isSpace w0 = true /\ isIdentStart c = true
    /\ forallb isIdentChar ident = true /\ forallb isSpace w1 = true
    /\ ((x = LBRACKET /\ y = RBRACKET) \/ (x = LBRACE /\ y = RBRACE)).
Proof.
  unfold placeholderLine_matchLength.
  destruct (span isSpace b) as [w0 s1] eqn:E0.
  destruct (span_eq _ _ _ _ E0) as [Hb Hw0].
  destruct s1 as [|c s2]; [discriminate|].
  destruct (isIdentStart c) eqn:Hc; [|discriminate].
  destruct (span isIdentChar s2) as [ident s3] eqn:E1.
  destruct (span_eq _ _ _ _ E1) as [Hs2 Hi].
  destruct s3 as [|d s4]; [discriminate|].
  destruct (d =? COLON) eqn:Hd; [|discriminate].
  apply N.eqb_eq in Hd. subst d.
  destruct (span isSpace s4) as [w1 s5] eqn:E2.
  destruct (span_eq _ _ _ _ E2) as [Hs4 Hw1].
  destruct s5 as [|x [|y s6]]; try discriminate.
  destruct (((x =? LBRACKET) && (y =? RBRACKET))
            || ((x =? LBRACE) && (y =? RBRACE))) eqn:Hp; [|discriminate].
  intros _. exists w0, c, ident, w1, x, y, s6.
  subst b s2 s4. repeat split; auto.
  apply Bool.orb_true_iff in Hp.
  destruct Hp as [Hp | Hp]; apply Bool.andb_true_iff in Hp;
    destruct Hp as [Hx Hy]; apply N.eqb_eq in Hx, Hy; auto.
Qed.

(** A text the second pattern matches at its beginning: white space, a
    letter, characters of the class of the pattern, a double quote. *)
Lemma junk_shape b m :
  junkPrefix_match b = Some m ->
  exists lead c jk rest,
    b = lead ++ c :: jk ++ DQUOTE :: rest
    /\ forallb isSpace lead = true /\ isAlpha c = true
    /\ forallb isJunkChar jk = true.
Proof.
  unfold junkPrefix_match.
  destruct (span isSpace b) as [lead s1] eqn:E0.
  destruct (span_eq _ _ _ _ E0) as [Hb Hl].
  destruct s1 as [|c s2]; [discriminate|].
  destruct (isAlpha c) eqn:Hc; [|discriminate].
  assert (Hjc : isJunkChar c = true) by (revert Hc; charlia).
  simpl. rewrite Hjc.
  destruct (span isJunkChar s2) as [jk s3] eqn:E1.
  destruct (span_eq _ _ _ _ E1) as [Hs2 Hj].
  destruct s3 as [|q s4]; [discriminate|].
  destruct (q =? DQUOTE) eqn:Hq; [|discriminate].
  apply N.eqb_eq in Hq. subst q. intros _.
  exists lead, c, jk, s4. subst b s2. auto.
Qed.

(** Where neither the beginning of the text nor any position after a line
    terminator starts a match, the replacement changes nothing. *)
Lemma remove_no_match s : forall bol,
  (bol = true -> placeholderLine_matchLength s = None) ->
  (forall a c b, s = a ++ c :: b -> isLineTerminator c = true ->
                 placeholderLine_matchLength b = None) ->
  removePlaceholderLines_from 0 bol s = s.
Proof.
  induction s as [|c r IH]; intros bol H0 H; [reflexivity|].
  cbn [removePlaceholderLines_from].
  assert (Hm : (if bol then placeholderLine_matchLength (c :: r) else None)
               = None) by (destruct bol; auto).
  rewrite Hm. f_equal. apply IH.
  - intros Hc. apply (H [] c r); [reflexivity | exact Hc].
  - intros a d b -> Hd. apply (H (c :: a) d b); [reflexivity | exact Hd].
Qed.

Lemma strip_no_match s : forall bol,
  (bol = true -> junkPrefix_match s = None) ->
  (forall a c b, s = a ++ c :: b -> isLineTerminator c = true ->
                 junkPrefix_match b = None) ->
  stripJunkPrefixes_from 0 bol s = s.
Proof.
  induction s as [|c r IH]; intros bol H0 H; [reflexivity|].
  cbn [stripJunkPrefixes_from].
  assert (Hm : (if bol then junkPrefix_match (c :: r) else None) = None)
    by (destruct bol; auto).
  rewrite Hm. f_equal. apply IH.
  - intros Hc. apply (H [] c r); [reflexivity | exact Hc].
  - intros a d b -> Hd. apply (H (c :: a) d b); [reflexivity | exact Hd].
Qed.

Lemma closeChar_not_wordlike K :
  isSpace (closeChar K) = false /\ isIdentChar (closeChar K) = false
  /\ isJunkChar (closeChar K) = false /\ closeChar K <> COLON
  /\ closeChar K <> DQUOTE.
Proof. destruct K; repeat split; discriminate. Qed.

(** Inside a text the recogniser reads without failing, from a position
    between tokens to a character that is neither white space nor part of
    an identifier, the first pattern does not match, whatever follows. *)
Lemma alive_part_no_placeholder p t z B :
  plainMode (mode p) = true ->
  mode (run p (t ++ [z])) <> MError ->
  isSpace z = false -> isIdentChar z = false ->
  placeholderLine_matchLength (t ++ z :: B) = None.
Proof.
  intros Hm Ha Hzs Hzi.
  destruct (placeholderLine_matchLength _) as [n|] eqn:E; [|reflexivity].
  exfalso.
  destruct (placeholder_shape _ _ E)
    as (w0 & c & ident & w1 & x & y & rest & Hb & Hw0 & Hc & Hi & _ & _).
  set (P := fun d => isSpace d || isIdentChar d).
  set (R := w1 ++ x :: y :: rest) in *.
  assert (HU : forallb P (w0 ++ c :: ident) = true).
  { rewrite forallb_app. simpl. apply Bool.andb_true_iff. split.
    - clear - Hw0. induction w0 as [|d w0 IH]; [reflexivity|]. simpl in *.
      apply Bool.andb_true_iff in Hw0. destruct Hw0 as [Hd Hw0].
      unfold P at 1. rewrite Hd. simpl. auto.
    - apply Bool.andb_true_iff. split.
      + unfold P. revert Hc. charlia.
      + clear - Hi. induction ident as [|d l IH]; [reflexivity|]. simpl in *.
        apply Bool.andb_true_iff in Hi. destruct Hi as [Hd Hi].
        unfold P at 1. rewrite Hd, Bool.orb_true_r. simpl. auto. }
  assert (Hb' : (w0 ++ c :: ident) ++ COLON :: R = t ++ z :: B).
  { rewrite Hb, <- app_assoc. reflexivity. }
  assert (Pz : P z = false) by (unfold P; rewrite Hzs, Hzi; reflexivity).
  assert (Pcolon : P COLON = false) by reflexivity.
  assert (Hdead : forall more,
            mode (run p (w0 ++ c :: ident ++ COLON :: more)) = MError).
  { intros more. apply no_word_then; auto. apply identChars_junk, Hi. }
  destruct (prefix_or_stop P t) as [Ht | (a & z' & b' & Ht & Hpa & Hz)].
  - destruct (stop_unique P _ _ _ _ _ _ HU Ht Pcolon Pz Hb') as (Ha' & Hzc & _).
    apply Ha. rewrite <- Ha', <- Hzc, <- app_assoc. simpl. apply Hdead.
  - assert (Hb'' : (w0 ++ c :: ident) ++ COLON :: R
                   = a ++ z' :: (b' ++ z :: B)).
    { rewrite Hb', Ht, <- app_assoc. reflexivity. }
    destruct (stop_unique P _ _ _ _ _ _ HU Hpa Pcolon Hz Hb'') as (Ha' & Hzc & _).
    apply Ha. rewrite Ht, <- Ha', <- Hzc, <- !app_assoc. simpl. apply Hdead.
Qed.

Lemma alive_part_no_junkPrefix p t z B :
  plainMode (mode p) = true ->
  mode (run p (t ++ [z])) <> MError ->
  isJunkChar z = false ->
  junkPrefix_match (t ++ z :: B) = None.
Proof.
  intros Hm Ha Hzj.
  destruct (junkPrefix_match _) as [m|] eqn:E; [|reflexivity].
  exfalso.
  destruct (junk_shape _ _ E) as (lead & c & jk & rest & Hb & Hl & Hc & Hj).
  set (P := isJunkChar).
  assert (HU : forallb P (lead ++ c :: jk) = true).
  { rewrite forallb_app. simpl. apply Bool.andb_true_iff. split.
    - clear - Hl. induction lead as [|d l IH]; [reflexivity|]. simpl in *.
      apply Bool.andb_true_iff in Hl. destruct Hl as [Hd Hl].
      rewrite IH by assumption. rewrite Bool.andb_true_r.
      unfold P. revert Hd. unfold isJunkChar. intros ->.
      rewrite Bool.orb_true_r. reflexivity.
    - apply Bool.andb_true_iff. split; [|exact Hj].
      unfold P. revert Hc. charlia. }
  assert (Hb' : (lead ++ c :: jk) ++ DQUOTE :: rest = t ++ z :: B).
  { rewrite Hb, <- app_assoc. reflexivity. }
  assert (Pquote : P DQUOTE = false) by reflexivity.
  assert (Hdead : forall more,
            mode (run p (lead ++ c :: jk ++ DQUOTE :: more)) = MError).
  { intros more. apply no_word_then; auto. apply alpha_identStart, Hc. }
  destruct (prefix_or_stop P t) as [Ht | (a & z' & b' & Ht & Hpa & Hz)].
  - destruct (stop_unique P _ _ _ _ _ _ HU Ht Pquote Hzj Hb') as (Ha' & Hzc & _).
    apply Ha. rewrite <- Ha', <- Hzc, <- app_assoc. simpl. apply Hdead.
  - assert (Hb'' : (lead ++ c :: jk) ++ DQUOTE :: rest
                   = a ++ z' :: (b' ++ z :: B)).
    { rewrite Hb', Ht, <- app_assoc. reflexivity. }
    destruct (stop_unique P _ _ _ _ _ _ HU Hpa Pquote Hz Hb'') as (Ha' & Hzc & _).
    apply Ha. rewrite Ht, <- Ha', <- Hzc, <- !app_assoc. simpl. apply Hdead.
Qed.

Lemma json_part_no_placeholder K p t B :
  plainMode (mode p) = true ->
  mode (run p (t ++ [closeChar K])) <> MError ->
  placeholderLine_matchLength (t ++ closeChar K :: B) = None.
Proof.
  intros Hm Ha. destruct (closeChar_not_wordlike K) as (Hs & Hi & _).
  apply (alive_part_no_placeholder p); assumption.
Qed.

Lemma json_part_no_junkPrefix K p t B :
  plainMode (mode p) = true ->
  mode (run p (t ++ [closeChar K])) <> MError ->
  junkPrefix_match (t ++ closeChar K :: B) = None.
Proof.
  intros Hm Ha. destruct (closeChar_not_wordlike K) as (_ & _ & Hj & _).
  apply (alive_part_no_junkPrefix p); assumption.
Qed.

(** ** Commentary around a JSON text *)

Lemma commentaryLine_chars l :
  commentaryLine l = true -> forallb isCommentaryChar l = true.
Proof.
  unfold commentaryLine. intros H. apply Bool.andb_true_iff in H.
  destruct H as [H _]. induction l as [|c l IH]; [reflexivity|].
  simpl in *. apply Bool.andb_true_iff in H. destruct H as [Hc H].
  unfold isCommentaryChar at 1. rewrite Hc. simpl. auto.
Qed.

Lemma linesBefore_chars ls :
  forallb commentaryLine ls = true ->
  forallb isCommentaryChar (linesBefore ls) = true.
Proof.
  induction ls as [|l ls IH]; [reflexivity|]. simpl.
  intros H. apply Bool.andb_true_iff in H. destruct H as [Hl H].
  unfold linesBefore in *. simpl. rewrite !forallb_app.
  rewrite (commentaryLine_chars l Hl), (IH H). reflexivity.
Qed.

Lemma linesAfter_chars ls :
  forallb commentaryLine ls = true ->
  forallb isCommentaryChar (linesAfter ls) = true.
Proof.
  induction ls as [|l ls IH]; [reflexivity|]. simpl.
  intros H. apply Bool.andb_true_iff in H. destruct H as [Hl H].
  unfold linesAfter in *. simpl. rewrite !forallb_app.
  rewrite (commentaryLine_chars l Hl), (IH H). reflexivity.
Qed.

Lemma forallb_weaken {A} (P Q : A -> bool) l :
  (forall x, P x = true -> Q x = true) ->
  forallb P l = true -> forallb Q l = true.
Proof.
  intros H. induction l as [|x l IH]; [reflexivity|]. simpl.
  rewrite !Bool.andb_true_iff. intros [Hx Hl]. auto.
Qed.

Lemma forallb_elem {A} (P : A -> bool) a x b :
  forallb P (a ++ x :: b) = true -> P x = true.
Proof.
  rewrite forallb_app. simpl. rewrite !Bool.andb_true_iff. tauto.
Qed.

Lemma commentary_no_placeholder b :
  forallb isCommentaryChar b = true -> placeholderLine_matchLength b = None.
Proof.
  intros Hq.
  destruct (placeholderLine_matchLength b) as [n|] eqn:E; [|reflexivity].
  exfalso.
  destruct (placeholder_shape _ _ E)
    as (w0 & c & ident & w1 & x & y & rest & Hb & _ & _ & _ & _ & Hp).
  rewrite Hb in Hq.
  assert (Hx : isCommentaryChar x = true).
  { apply (forallb_elem isCommentaryChar (w0 ++ c :: ident ++ COLON :: w1) x (y :: rest)).
    rewrite <- app_assoc. simpl. rewrite <- app_assoc. exact Hq. }
  destruct Hp as [[-> _] | [-> _]]; discriminate.
Qed.

Lemma commentary_no_junkPrefix b :
  forallb isCommentaryChar b = true -> junkPrefix_match b = None.
Proof.
  intros Hq.
  destruct (junkPrefix_match b) as [m|] eqn:E; [|reflexivity].
  exfalso.
  destruct (junk_shape _ _ E) as (lead & c & jk & rest & Hb & _ & _ & _).
  rewrite Hb in Hq.
  assert (Hx : isCommentaryChar DQUOTE = true).
  { apply (forallb_elem isCommentaryChar (lead ++ c :: jk) DQUOTE rest).
    rewrite <- app_assoc. exact Hq. }
  discriminate.
Qed.

(** From a position in the commentary before the JSON text, the first
    pattern could only match an empty pair at the beginning of that
    text. *)
Lemma before_json_no_placeholder A2 K y0 r0 B :
  forallb isCommentaryChar A2 = true ->
  y0 <> closeChar K ->
  placeholderLine_matchLength (A2 ++ openChar K :: (y0 :: r0) ++ B) = None.
Proof.
  intros HA Hy.
  destruct (placeholderLine_matchLength _) as [n|] eqn:E; [|reflexivity].
  exfalso.
  destruct (placeholder_shape _ _ E)
    as (w0 & c & ident & w1 & x & y & rest & Hb & Hw0 & Hc & Hi & Hw1 & Hp).
  set (P := fun d => negb ((d =? LBRACE) || (d =? LBRACKET))).
  assert (Hsp : forall w, forallb isSpace w = true -> forallb P w = true).
  { intros w. apply forallb_weaken. intros d Hd. unfold P. revert Hd. charlia. }
  assert (HU : forallb P (w0 ++ c :: ident ++ COLON :: w1) = true).
  { rewrite forallb_app. simpl. rewrite forallb_app. simpl.
    rewrite (Hsp w0 Hw0), (Hsp w1 Hw1). simpl.
    apply Bool.andb_true_iff. split; [unfold P; revert Hc; charlia|].
    rewrite Bool.andb_true_r.
    revert Hi. apply forallb_weaken. intros d Hd. unfold P. revert Hd. charlia. }
  assert (HA' : forallb P A2 = true).
  { revert HA. apply forallb_weaken. intros d Hd. unfold P.
    revert Hd. unfold isCommentaryChar, isPlainChar. charlia. }
  assert (Px : P x = false) by (destruct Hp as [[-> _] | [-> _]]; reflexivity).
  assert (Po : P (openChar K) = false) by (destruct K; reflexivity).
  assert (Hb' : (w0 ++ c :: ident ++ COLON :: w1) ++ x :: y :: rest
                = A2 ++ openChar K :: (y0 :: r0) ++ B).
  { rewrite Hb, <- app_assoc. simpl. rewrite <- app_assoc. reflexivity. }
  destruct (stop_unique P _ _ _ _ _ _ HU HA' Px Po Hb') as (_ & Hxo & Hrest).
  simpl in Hrest. injection Hrest as Hyy _. subst y0.
  apply Hy. destruct Hp as [[-> ->] | [-> ->]]; destruct K; try discriminate;
    reflexivity.
Qed.

Lemma before_json_no_junkPrefix A2 K r B :
  forallb isCommentaryChar A2 = true ->
  junkPrefix_match (A2 ++ openChar K :: r ++ B) = None.
Proof.
  intros HA.
  destruct (junkPrefix_match _) as [m|] eqn:E; [|reflexivity].
  exfalso.
  destruct (junk_shape _ _ E) as (lead & c & jk & rest & Hb & Hl & Hc & Hj).
  assert (HU : forallb isJunkChar (lead ++ c :: jk) = true).
  { rewrite forallb_app. simpl. rewrite Hj, Bool.andb_true_r.
    apply Bool.andb_true_iff. split.
    - revert Hl. apply forallb_weaken. intros d Hd. unfold isJunkChar.
      rewrite Hd, Bool.orb_true_r. reflexivity.
    - revert Hc. charlia. }
  assert (Hb' : (lead ++ c :: jk) ++ DQUOTE :: rest
                = A2 ++ openChar K :: r ++ B).
  { rewrite Hb, <- app_assoc. reflexivity. }
  assert (Pq : isJunkChar DQUOTE = false) by reflexivity.
  assert (Po : isJunkChar (openChar K) = false) by (destruct K; reflexivity).
  destruct (prefix_or_stop isJunkChar A2) as [Ht | (a & z & b' & Ht & Hpa & Hz)].
  - destruct (stop_unique isJunkChar _ _ _ _ _ _ HU Ht Pq Po Hb') as (_ & Hcc & _).
    destruct K; discriminate.
  - assert (Hb'' : (lead ++ c :: jk) ++ DQUOTE :: rest
                   = a ++ z :: (b' ++ openChar K :: r ++ B)).
    { rewrite Hb', Ht, <- app_assoc. reflexivity. }
    destruct (stop_unique isJunkChar _ _ _ _ _ _ HU Hpa Pq Hz Hb'')
      as (_ & Hzc & _).
    rewrite Ht in HA. apply forallb_elem in HA. rewrite <- Hzc in HA.
    discriminate.
Qed.

(** Where a position of [A ++ j ++ B] lies. *)
Lemma position_cases (A j B a : jsstring) (c : char) b :
  A ++ j ++ B = a ++ c :: b ->
  (b = skipn (S (length a)) A ++ j ++ B /\ A = a ++ c :: skipn (S (length a)) A)
  \/ (exists j1 j2, j = j1 ++ c :: j2 /\ b = j2 ++ B /\ a = A ++ j1)
  \/ (exists B1, B = B1 ++ c :: b).
Proof.
  intros E. apply app_eq_app in E.
  destruct E as [l [[HA Hb] | [Ha Hb]]].
  - destruct l as [|c' l'].
    + simpl in Hb. destruct j as [|d j'].
      * right. right. exists []. simpl in Hb. auto.
      * right. left. simpl in Hb. injection Hb as <- ->.
        exists [], j'. rewrite app_nil_r in HA. subst a.
        rewrite app_nil_r. auto.
    + simpl in Hb. injection Hb as <- ->. left.
      assert (Hs : skipn (S (length a)) A = l').
      { rewrite HA. rewrite skipn_app.
        replace (S (length a) - length a)%nat with 1%nat by lia.
        rewrite skipn_all2 by lia. reflexivity. }
      rewrite Hs. auto.
  - symmetry in Hb. apply app_eq_app in Hb.
    destruct Hb as [m [[Hl Hb] | [Hj Hb]]].
    + right. right. exists m. exact Hb.
    + destruct m as [|c' m'].
      * right. right. exists []. simpl in Hb. auto.
      * simpl in Hb. injection Hb as <- ->. right. left.
        exists l, m'. auto.
Qed.

Lemma openChar_not_lineTerminator K : isLineTerminator (openChar K) = false.
Proof. destruct K; reflexivity. Qed.

(** A JSON text that starts with a brace or a bracket and does not end
    with white space ends with the closing character. *)
Lemma json_ends_with_closer K r v :
  Json.parse (openChar K :: r) = Some v ->
  isSpace (last (openChar K :: r) 0) = false ->
  exists body, r = body ++ [closeChar K].
Proof.
  intros Hp Hl.
  destruct (openClose_not_space K) as (Hjo & _ & Ho).
  destruct (extract_accepted_prefix K (openChar K :: r) [] v r Hp
              (trimStart_nonspace _ _ Ho)) as (q & ws & Hj & Hws & Hq & _).
  destruct (region_shape _ _ Hq) as (K' & w & body & rest & _ & Hqs & Hw & _).
  destruct ws as [|z ws'] using rev_ind.
  2:{ exfalso. rewrite Hj, app_assoc, last_last in Hl.
      rewrite forallb_app in Hws. apply Bool.andb_true_iff in Hws.
      destruct Hws as [_ Hz]. simpl in Hz. rewrite Bool.andb_true_r in Hz.
      apply jsonSpace_isSpace in Hz. congruence. }
  rewrite app_nil_r in Hj. rewrite Hqs in Hj.
  destruct w as [|d w'].
  - simpl in Hj. injection Hj as Hk Hr. exists body.
    destruct K, K'; try discriminate; exact Hr.
  - exfalso. simpl in Hj. injection Hj as Hd _. simpl in Hw.
    apply Bool.andb_true_iff in Hw. destruct Hw as [Hw _].
    rewrite <- Hd in Hw. congruence.
Qed.

(** After an empty pair only white space can follow. *)
Lemma empty_pair_alone K r' v :
  Json.parse (openChar K :: closeChar K :: r') = Some v ->
  isSpace (last (openChar K :: closeChar K :: r') 0) = false ->
  r' = [].
Proof.
  intros Hp Hl. unfold Json.parse in Hp.
  change (openChar K :: closeChar K :: r')
    with ([openChar K; closeChar K] ++ r') in Hp.
  rewrite run_app in Hp.
  assert (Hd : exists v', run initial [openChar K; closeChar K]
                          = mkP [] (MDone v'))
    by (destruct K; eexists; reflexivity).
  destruct Hd as [v' Hd]. rewrite Hd in Hp.
  destruct (done_run _ _ _ Hp) as [_ Hs].
  destruct r' as [|c r'']; [reflexivity|]. exfalso.
  rewrite !last_cons_nonempty in Hl by discriminate.
  rewrite (last_jsonSpace _ _ Hs) in Hl. discriminate.
Qed.

Section Commentary.
Variables A B : jsstring.
Variable K : bool.
Variable r : jsstring.
Variable v : JValue.
Let j := openChar K :: r.
Hypothesis HA : forallb isCommentaryChar A = true.
Hypothesis HB : forallb isCommentaryChar B = true.
Hypothesis Hparse : Json.parse j = Some v.
Hypothesis Hlast : isSpace (last j 0) = false.
Hypothesis Hsep : noSeparator j = true.
Hypothesis Hpair : j <> [openChar K; closeChar K].

Lemma json_body :
  exists y0 r0 body,
    r = y0 :: r0 /\ y0 <> closeChar K /\ r = body ++ [closeChar K].
Proof.
  destruct (json_ends_with_closer K r v Hparse Hlast) as [body Hr].
  destruct r as [|y0 r0] eqn:Er.
  - destruct body; discriminate.
  - exists y0, r0, body. repeat split; [|exact Hr].
    intros ->. unfold j in *.
    pose proof (empty_pair_alone K r0 v Hparse Hlast) as H0. subst r0.
    apply Hpair. reflexivity.
Qed.

Lemma json_alive : mode (run initial j) <> MError.
Proof. apply (accepted_alive _ _ v). exact Hparse. Qed.

(** A position of the JSON text after one of its line terminators: the
    recogniser is between tokens there, and reads the rest without
    failing up to the closing character. *)
Lemma json_position j1 c j2 :
  j = j1 ++ c :: j2 -> isLineTerminator c = true ->
  exists t,
    j2 = t ++ [closeChar K]
    /\ plainMode (mode (run initial (j1 ++ [c]))) = true
    /\ mode (run (run initial (j1 ++ [c])) (t ++ [closeChar K])) <> MError.
Proof.
  intros Hj Hc.
  destruct json_body as (y0 & r0 & body & _ & _ & Hr).
  assert (Hj' : j = (openChar K :: body) ++ [closeChar K])
    by (unfold j; rewrite Hr; reflexivity).
  assert (Hcs : negb ((c =? 8232) || (c =? 8233)) = true).
  { pose proof Hsep as H. unfold noSeparator in H. rewrite Hj in H.
    apply (forallb_elem _ j1 c j2) in H. exact H. }
  destruct j2 as [|z t] using rev_ind.
  - exfalso. rewrite Hj in Hlast.
    change (j1 ++ [c]) with (j1 ++ [c]) in Hlast.
    rewrite last_last in Hlast.
    rewrite (lineTerminator_isSpace c Hc) in Hlast. discriminate.
  - clear IHt. exists t.
    assert (E : (j1 ++ c :: t) ++ [z] = (openChar K :: body) ++ [closeChar K]).
    { rewrite <- Hj', Hj, <- app_assoc. reflexivity. }
    apply app_inj_tail in E. destruct E as [_ ->].
    assert (Hrun : run initial j
                   = run (run initial (j1 ++ [c])) (t ++ [closeChar K])).
    { rewrite <- run_app, Hj, <- app_assoc. reflexivity. }
    pose proof json_alive as Ha. rewrite Hrun in Ha.
    split; [reflexivity|]. split; [|exact Ha].
    rewrite run_app. simpl.
    apply lineBreak_plain.
    + apply lineTerminator_lineBreak; [exact Hc | exact Hcs].
    + intros E. apply Ha. apply run_error.
      rewrite run_app. simpl. exact E.
Qed.

Lemma suffix_chars a c b :
  A = a ++ c :: b -> forallb isCommentaryChar b = true.
Proof.
  intros E. pose proof HA as H. rewrite E in H.
  rewrite forallb_app in H. simpl in H.
  apply Bool.andb_true_iff in H. destruct H as [_ H].
  apply Bool.andb_true_iff in H. apply H.
Qed.

Lemma suffix_chars_after B1 c b :
  B = B1 ++ c :: b -> forallb isCommentaryChar b = true.
Proof.
  intros E. pose proof HB as H. rewrite E in H.
  rewrite forallb_app in H. simpl in H.
  apply Bool.andb_true_iff in H. destruct H as [_ H].
  apply Bool.andb_true_iff in H. apply H.
Qed.

(** Neither replacing pattern matches anywhere in the text. *)
Lemma commentary_removePlaceholderLines :
  removePlaceholderLines (A ++ j ++ B) = A ++ j ++ B.
Proof.
  destruct json_body as (y0 & r0 & body & Hr & Hy & _).
  apply remove_no_match.
  - intros _. unfold j. rewrite Hr.
    apply before_json_no_placeholder; assumption.
  - intros a c b E Hc.
    destruct (position_cases A j B a c b E)
      as [[Hb HA2] | [(j1 & j2 & Hj & Hb & _) | (B1 & HB1)]].
    + rewrite Hb. unfold j. rewrite Hr.
      apply before_json_no_placeholder; [|exact Hy].
      apply (suffix_chars a c _ HA2).
    + destruct (json_position j1 c j2 Hj Hc) as (t & Ht & Hpl & Hal).
      rewrite Hb, Ht, <- app_assoc. simpl.
      apply (json_part_no_placeholder K _ t B Hpl Hal).
    + apply commentary_no_placeholder. apply (suffix_chars_after B1 c b HB1).
Qed.

Lemma commentary_stripJunkPrefixes :
  stripJunkPrefixes (A ++ j ++ B) = A ++ j ++ B.
Proof.
  apply strip_no_match.
  - intros _. unfold j. apply before_json_no_junkPrefix. exact HA.
  - intros a c b E Hc.
    destruct (position_cases A j B a c b E)
      as [[Hb HA2] | [(j1 & j2 & Hj & Hb & _) | (B1 & HB1)]].
    + rewrite Hb. unfold j.
      apply before_json_no_junkPrefix.
      apply (suffix_chars a c _ HA2).
    + destruct (json_position j1 c j2 Hj Hc) as (t & Ht & Hpl & Hal).
      rewrite Hb, Ht, <- app_assoc. simpl.
      apply (json_part_no_junkPrefix K _ t B Hpl Hal).
    + apply commentary_no_junkPrefix. apply (suffix_chars_after B1 c b HB1).
Qed.

End Commentary.

(** *** The lines of the text *)

Lemma splitLF_app_LF a b : splitLF (a ++ LF :: b) = splitLF a ++ splitLF b.
Proof.
  induction a as [|c a IH]; simpl.
  - reflexivity.
  - destruct (c =? LF); [rewrite IH; reflexivity|].
    rewrite IH. destruct (splitLF a) as [|l ls] eqn:E; [|reflexivity].
    exfalso. apply (splitLF_nonempty a E).
Qed.

Lemma commentaryLine_noLF l : commentaryLine l = true -> noLF l = true.
Proof.
  unfold commentaryLine, noLF. intros H. apply Bool.andb_true_iff in H.
  destruct H as [H _]. revert H. apply forallb_weaken.
  intros c. unfold isPlainChar. charlia.
Qed.

Lemma splitLF_linesBefore ls s :
  forallb commentaryLine ls = true ->
  splitLF (linesBefore ls ++ s) = ls ++ splitLF s.
Proof.
  induction ls as [|l ls IH]; [reflexivity|]. simpl. intros H.
  apply Bool.andb_true_iff in H. destruct H as [Hl H].
  unfold linesBefore in *. simpl. rewrite <- !app_assoc. simpl.
  rewrite splitLF_app_LF, (splitLF_single l (commentaryLine_noLF l Hl)).
  simpl. rewrite IH by assumption. reflexivity.
Qed.

Lemma splitLF_linesAfter ls : forall s,
  forallb commentaryLine ls = true ->
  splitLF (s ++ linesAfter ls) = splitLF s ++ ls.
Proof.
  induction ls as [|l ls IH]; intros s H.
  - unfold linesAfter. simpl. rewrite !app_nil_r. reflexivity.
  - simpl in H. apply Bool.andb_true_iff in H. destruct H as [Hl H].
    unfold linesAfter in *. simpl.
    change (s ++ LF :: l ++ concat (map (fun l0 => LF :: l0) ls))
      with (s ++ (LF :: l) ++ concat (map (fun l0 => LF :: l0) ls)).
    rewrite app_assoc, (IH _ H), splitLF_app_LF.
    rewrite (splitLF_single l (commentaryLine_noLF l Hl)).
    rewrite <- app_assoc. reflexivity.
Qed.

(** The lines of the commentary that the filter keeps are made of spaces
    and tabs. *)
Lemma kept_commentary_blank ls :
  forallb commentaryLine ls = true ->
  forallb (forallb isJsonSpace) (filter keepLine ls) = true.
Proof.
  induction ls as [|l ls IH]; [reflexivity|]. simpl. intros H.
  apply Bool.andb_true_iff in H. destruct H as [Hl H].
  destruct (keepLine l) eqn:Ek; [|auto].
  simpl. rewrite (IH H), Bool.andb_true_r.
  unfold commentaryLine in Hl. rewrite Ek in Hl. simpl in Hl.
  apply Bool.andb_true_iff in Hl. apply Hl.
Qed.

Lemma joinLF_linesAfter l post : joinLF (l :: post) = l ++ linesAfter post.
Proof.
  revert l. induction post as [|m post IH]; intros l.
  - simpl. rewrite app_nil_r. reflexivity.
  - rewrite joinLF_cons by discriminate. rewrite IH. reflexivity.
Qed.

Lemma joinLF_app_after ls post :
  ls <> [] -> joinLF (ls ++ post) = joinLF ls ++ linesAfter post.
Proof.
  induction ls as [|l ls IH]; [congruence|]. intros _.
  destruct ls as [|l' ls'].
  - simpl app. apply joinLF_linesAfter.
  - change ((l :: l' :: ls') ++ post) with (l :: (l' :: ls') ++ post).
    rewrite joinLF_cons by discriminate.
    rewrite IH by discriminate.
    rewrite (joinLF_cons l (l' :: ls')) by discriminate.
    rewrite <- app_assoc. reflexivity.
Qed.

Lemma joinLF_app_before pre ls :
  ls <> [] -> joinLF (pre ++ ls) = linesBefore pre ++ joinLF ls.
Proof.
  intros Hne. induction pre as [|l pre IH]; [reflexivity|].
  change ((l :: pre) ++ ls) with (l :: pre ++ ls).
  rewrite joinLF_cons.
  - rewrite IH. unfold linesBefore. simpl. rewrite <- !app_assoc. reflexivity.
  - destruct pre; [exact Hne | discriminate].
Qed.

Lemma linesBefore_jsonSpace ls :
  forallb (forallb isJsonSpace) ls = true ->
  forallb isJsonSpace (linesBefore ls) = true.
Proof.
  induction ls as [|l ls IH]; [reflexivity|]. simpl. intros H.
  apply Bool.andb_true_iff in H. destruct H as [Hl H].
  unfold linesBefore in *. simpl. rewrite !forallb_app, Hl, (IH H).
  reflexivity.
Qed.

Lemma linesAfter_jsonSpace ls :
  forallb (forallb isJsonSpace) ls = true ->
  forallb isJsonSpace (linesAfter ls) = true.
Proof.
  induction ls as [|l ls IH]; [reflexivity|]. simpl. intros H.
  apply Bool.andb_true_iff in H. destruct H as [Hl H].
  unfold linesAfter in *. simpl. rewrite !forallb_app, Hl, (IH H).
  reflexivity.
Qed.

(** What the line filter leaves of the text: the JSON text, between line
    feeds, spaces and tabs. *)
Lemma commentary_filterLines before after j :
  forallb commentaryLine before = true ->
  forallb commentaryLine after = true ->
  forallb keepLine (splitLF j) = true ->
  exists W1 W2,
    filterLines (linesBefore before ++ j ++ linesAfter after) = W1 ++ j ++ W2
    /\ forallb isJsonSpace W1 = true /\ forallb isJsonSpace W2 = true.
Proof.
  intros Hb Ha Hj.
  exists (linesBefore (filter keepLine before)),
         (linesAfter (filter keepLine after)).
  split; [|split].
  - unfold filterLines.
    rewrite (splitLF_linesBefore before _ Hb), (splitLF_linesAfter after j Ha).
    rewrite !filter_app, (filter_all _ _ Hj).
    rewrite app_assoc, joinLF_app_after.
    + rewrite joinLF_app_before by apply splitLF_nonempty.
      rewrite joinLF_splitLF, <- app_assoc. reflexivity.
    + intros E. apply app_eq_nil in E. destruct E as [_ E].
      apply (splitLF_nonempty j E).
  - apply linesBefore_jsonSpace, kept_commentary_blank, Hb.
  - apply linesAfter_jsonSpace, kept_commentary_blank, Ha.
Qed.

(** *** White space around a JSON text *)

Lemma step_initial_jsonSpace c :
  isJsonSpace c = true -> step initial c = initial.
Proof.
  unfold isJsonSpace. rewrite !Bool.orb_true_iff, !N.eqb_eq.
  intros [[[-> | ->] | ->] | ->]; reflexivity.
Qed.

Lemma run_initial_jsonSpace w :
  forallb isJsonSpace w = true -> run initial w = initial.
Proof.
  induction w as [|c w IH]; [reflexivity|]. intros H. simpl in H.
  apply Bool.andb_true_iff in H. destruct H as [Hc H].
  rewrite run_cons, (step_initial_jsonSpace c Hc). auto.
Qed.

Lemma accepted_jsonSpace p c v :
  isJsonSpace c = true -> finish p = Some v -> finish (step p c) = Some v.
Proof.
  intros Hc Hf. destruct p as [st m]. unfold finish in Hf. simpl in Hf.
  destruct st; [|discriminate].
  destruct m as [ | | | | | | v0 | isKey acc ph | l seen | n | ];
    try discriminate.
  - injection Hf as ->. revert Hc. unfold isJsonSpace.
    rewrite !Bool.orb_true_iff, !N.eqb_eq.
    intros [[[-> | ->] | ->] | ->]; reflexivity.
  - destruct (numFinal n) eqn:En; [|discriminate]. injection Hf as <-.
    unfold step. simpl.
    rewrite (numStep_space n c (jsonSpace_isSpace c Hc)), En. simpl.
    revert Hc. unfold isJsonSpace.
    rewrite !Bool.orb_true_iff, !N.eqb_eq.
    intros [[[-> | ->] | ->] | ->]; reflexivity.
Qed.

Lemma accepted_jsonSpaces w : forall p v,
  forallb isJsonSpace w = true -> finish p = Some v ->
  finish (run p w) = Some v.
Proof.
  induction w as [|c w IH]; intros p v H Hf; [exact Hf|].
  simpl in H. apply Bool.andb_true_iff in H. destruct H as [Hc H].
  rewrite run_cons. apply IH; [exact H|].
  apply accepted_jsonSpace; assumption.
Qed.

Lemma parse_padded w1 j w2 v :
  forallb isJsonSpace w1 = true -> forallb isJsonSpace w2 = true ->
  Json.parse j = Some v -> Json.parse (w1 ++ j ++ w2) = Some v.
Proof.
  intros H1 H2 Hp. unfold Json.parse in *.
  rewrite run_app, (run_initial_jsonSpace w1 H1), run_app.
  apply accepted_jsonSpaces; assumption.
Qed.

(** Collapsing the blank lines of a JSON text and trimming it leaves a
    JSON text with the same value. *)
Lemma parse_collapsed t v :
  Json.parse t = Some v ->
  Json.parse (trim (collapseBlankLines t)) = Some v.
Proof.
  intros Hp. apply parse_trim. unfold Json.parse, collapseBlankLines in *.
  rewrite collapse_run; [exact Hp | | congruence].
  apply (accepted_alive _ _ v Hp).
Qed.

(** A text that does not end with a backtick is not a fenced block. *)
Lemma unwrapFence_unclosed s : last s 0 <> BACKTICK -> unwrapFence s = s.
Proof.
  intros Hl. unfold unwrapFence.
  assert (E : fenceRegex_exec s = None); [|rewrite E; reflexivity].
  unfold fenceRegex_exec.
  destruct s as [|a [|b [|c r]]]; try reflexivity.
  destruct ((a =? BACKTICK) && (b =? BACKTICK) && (c =? BACKTICK));
    [|reflexivity].
  destruct (rev r) as [|x [|y [|z dim]]] eqn:Er; try reflexivity.
  assert (Hx : (x =? BACKTICK) = false).
  { apply N.eqb_neq. intros ->. apply Hl.
    apply (f_equal (@rev _)) in Er. rewrite rev_involutive in Er.
    rewrite Er. simpl rev.
    change (a :: b :: c :: ((rev dim ++ [z]) ++ [y]) ++ [BACKTICK])
      with ((a :: b :: c :: (rev dim ++ [z]) ++ [y]) ++ [BACKTICK]).
    apply last_last. }
  rewrite Hx. reflexivity.
Qed.

(** X4. Commentary around the JSON text is dropped.  Take a well-formed
    JSON text that starts with a brace or a bracket, does not end with
    white space, holds no line separator or paragraph separator, loses no
    line to the line filter and is not the empty pair alone; put lines of
    commentary before it and after it, each free of line terminators,
    double quotes, braces and brackets, and each either dropped by the
    line filter or made of spaces and tabs, the last one not ending with a
    backtick.  Then neither replacing pattern matches anywhere, the filter
    drops the commentary, and [sanitizeAndParseJson] returns the value of
    the JSON text.  An opening fence that is never closed is such a line
    of commentary. *)
Theorem commentary_around_json_is_dropped x before after K r v :
  trim x = linesBefore before ++ (openChar K :: r) ++ linesAfter after ->
  last (trim x) 0 <> BACKTICK ->
  forallb commentaryLine before = true ->
  forallb commentaryLine after = true ->
  Json.parse (openChar K :: r) = Some v ->
  isSpace (last (openChar K :: r) 0) = false ->
  noSeparator (openChar K :: r) = true ->
  forallb keepLine (splitLF (openChar K :: r)) = true ->
  openChar K :: r <> [openChar K; closeChar K] ->
  sanitizeAndParseJson x = Normal v.
Proof.
  intros Ht Hbt Hb Ha Hp Hl Hs Hk Hne.
  pose proof (linesBefore_chars before Hb) as HA.
  pose proof (linesAfter_chars after Ha) as HB.
  destruct (commentary_filterLines before after (openChar K :: r) Hb Ha Hk)
    as (W1 & W2 & Hf & HW1 & HW2).
  apply (sanitizeAndParseJson_accepted x
           (trim (collapseBlankLines (W1 ++ (openChar K :: r) ++ W2)))).
  - unfold sanitize. rewrite (unwrapFence_unclosed _ Hbt). rewrite Ht.
    rewrite (commentary_removePlaceholderLines _ _ K r v HA HB Hp Hl Hs Hne).
    rewrite (commentary_stripJunkPrefixes _ _ K r v HA HB Hp Hl Hs Hne).
    rewrite Hf. reflexivity.
  - apply parse_collapsed, parse_padded; assumption.
Qed.

Lemma commentary_around_json_is_dropped_witness :
  sanitizeAndParseJson
    (lines ["```json"; "Sure, here is the JSON:"; "";
            "{"; "  'similarProducts': [1, 2]"; "}"; "";
            "Hope this helps!"])
  = Normal (JObject [(js "similarProducts",
                      JArray [JNumber false 1 0; JNumber false 2 0])]).
Proof.
  apply (commentary_around_json_is_dropped
           (lines ["```json"; "Sure, here is the JSON:"; "";
                   "{"; "  'similarProducts': [1, 2]"; "}"; "";
                   "Hope this helps!"])
           [js "```json"; js "Sure, here is the JSON:"; []]
           [[]; js "Hope this helps!"]
           true
           (tl (lines ["{"; "  'similarProducts': [1, 2]"; "}"])));
    try reflexivity; discriminate.
Defined.

(** The condition on the empty pair is needed: a label before an empty pair is taken
    for a placeholder line, and all is removed. *)
Example label_before_empty_array :
  sanitizeAndParseJson (lines ["Result:"; "[]"]) = Normal JNull
  /\ Json.parse (js "[]") = Some (JArray []).
Proof. split; reflexivity. Qed.

(** ** A placeholder line between two lines of a JSON text *)

(** The replacement copies a part of the text in which no position starts
    a match. *)
Lemma remove_copy a0 z : forall bol s,
  (bol = true -> placeholderLine_matchLength ((a0 ++ [z]) ++ s) = None) ->
  (forall a1 c a2, a0 ++ [z] = a1 ++ c :: a2 -> isLineTerminator c = true ->
                   a2 <> [] ->
                   placeholderLine_matchLength (a2 ++ s) = None) ->
  removePlaceholderLines_from 0 bol ((a0 ++ [z]) ++ s)
  = (a0 ++ [z]) ++ removePlaceholderLines_from 0 (isLineTerminator z) s.
Proof.
  induction a0 as [|c a0 IH]; intros bol s H0 H.
  - simpl app in *. cbn [removePlaceholderLines_from].
    assert (Hm : (if bol then placeholderLine_matchLength (z :: s) else None)
                 = None) by (destruct bol; auto).
    rewrite Hm. reflexivity.
  - change (((c :: a0) ++ [z]) ++ s) with (c :: (a0 ++ [z]) ++ s) in *.
    cbn [removePlaceholderLines_from].
    assert (Hm : (if bol
                  then placeholderLine_matchLength (c :: (a0 ++ [z]) ++ s)
                  else None) = None) by (destruct bol; auto).
    rewrite Hm. simpl. f_equal. apply IH.
    + intros Hc. apply (H [] c (a0 ++ [z])); [reflexivity | exact Hc|].
      destruct a0; discriminate.
    + intros a1 d a2 E Hd Hne. apply (H (c :: a1) d a2); [|exact Hd|exact Hne].
      simpl. rewrite E. reflexivity.
Qed.

Lemma strip_copy a0 z : forall bol s,
  (bol = true -> junkPrefix_match ((a0 ++ [z]) ++ s) = None) ->
  (forall a1 c a2, a0 ++ [z] = a1 ++ c :: a2 -> isLineTerminator c = true ->
                   a2 <> [] ->
                   junkPrefix_match (a2 ++ s) = None) ->
  stripJunkPrefixes_from 0 bol ((a0 ++ [z]) ++ s)
  = (a0 ++ [z]) ++ stripJunkPrefixes_from 0 (isLineTerminator z) s.
Proof.
  induction a0 as [|c a0 IH]; intros bol s H0 H.
  - simpl app in *. cbn [stripJunkPrefixes_from].
    assert (Hm : (if bol then junkPrefix_match (z :: s) else None) = None)
      by (destruct bol; auto).
    rewrite Hm. reflexivity.
  - change (((c :: a0) ++ [z]) ++ s) with (c :: (a0 ++ [z]) ++ s) in *.
    cbn [stripJunkPrefixes_from].
    assert (Hm : (if bol then junkPrefix_match (c :: (a0 ++ [z]) ++ s)
                  else None) = None) by (destruct bol; auto).
    rewrite Hm. simpl. f_equal. apply IH.
    + intros Hc. apply (H [] c (a0 ++ [z])); [reflexivity | exact Hc|].
      destruct a0; discriminate.
    + intros a1 d a2 E Hd Hne. apply (H (c :: a1) d a2); [|exact Hd|exact Hne].
      simpl. rewrite E. reflexivity.
Qed.

(** The code units of a match are dropped; the search resumes after the
    last one. *)
Lemma remove_skip u : forall z bol s,
  removePlaceholderLines_from (S (length u)) bol (u ++ z :: s)
  = removePlaceholderLines_from 0 (isLineTerminator z) s.
Proof.
  induction u as [|c u IH]; intros z bol s; [reflexivity|].
  simpl. apply IH.
Qed.

Lemma strip_skip u : forall z bol s,
  stripJunkPrefixes_from (S (length u)) bol (u ++ z :: s)
  = stripJunkPrefixes_from 0 (isLineTerminator z) s.
Proof.
  induction u as [|c u IH]; intros z bol s; [reflexivity|].
  simpl. apply IH.
Qed.

Lemma lastEol_line w indent :
  forallb (fun c => negb (isLineTerminator c)) indent = true ->
  lastEol (w ++ LF :: indent) false = Some (length w).
Proof.
  intros Hi.
  assert (H0 : lastEol indent false = None).
  { induction indent as [|c l IH]; [reflexivity|]. simpl in *.
    apply Bool.andb_true_iff in Hi. destruct Hi as [Hc Hi].
    rewrite (IH Hi). apply Bool.negb_true_iff in Hc. rewrite Hc. reflexivity. }
  induction w as [|c w IH]; simpl.
  - rewrite H0. reflexivity.
  - rewrite IH. reflexivity.
Qed.

Lemma blank_isSpace w : forallb isBlankChar w = true -> forallb isSpace w = true.
Proof. apply forallb_weaken. intros c. unfold isBlankChar. charlia. Qed.

Lemma blank_noLT w :
  forallb isBlankChar w = true ->
  forallb (fun c => negb (isLineTerminator c)) w = true.
Proof. apply forallb_weaken. intros c. unfold isBlankChar. charlia. Qed.

(** The tail of the first pattern at the end of a placeholder line that a
    line feed and the indented next line follow: it stops before the line
    feed. *)
Lemma placeholderTail_line w2 comma w3 indent c2 r2 :
  forallb isBlankChar w2 = true -> forallb isBlankChar w3 = true ->
  forallb isBlankChar indent = true ->
  isSpace c2 = false -> c2 <> COMMA ->
  comma = [] \/ comma = [COMMA] ->
  placeholderTail (w2 ++ comma ++ w3 ++ LF :: indent ++ c2 :: r2)
  = Some (length (w2 ++ comma ++ w3)).
Proof.
  intros H2 H3 Hi Hc2 Hnc [-> | ->]; unfold placeholderTail.
  - simpl app.
    assert (Hs : forallb isSpace (w2 ++ w3 ++ LF :: indent) = true).
    { rewrite !forallb_app. simpl.
      rewrite (blank_isSpace _ H2), (blank_isSpace _ H3), (blank_isSpace _ Hi).
      reflexivity. }
    assert (E : w2 ++ w3 ++ LF :: indent ++ c2 :: r2
                = (w2 ++ w3 ++ LF :: indent) ++ c2 :: r2).
    { rewrite <- !app_assoc. simpl. reflexivity. }
    rewrite E, (span_app_stop _ _ _ _ Hs Hc2).
    assert (Ec : (c2 =? COMMA) = false) by (apply N.eqb_neq; exact Hnc).
    rewrite Ec.
    rewrite app_assoc, (lastEol_line (w2 ++ w3) indent (blank_noLT _ Hi)).
    reflexivity.
  - assert (Hs2 : forallb isSpace w2 = true) by apply (blank_isSpace _ H2).
    change (w2 ++ [COMMA] ++ w3 ++ LF :: indent ++ c2 :: r2)
      with (w2 ++ COMMA :: w3 ++ LF :: indent ++ c2 :: r2).
    rewrite (span_app_stop _ _ _ _ Hs2 (eq_refl : isSpace COMMA = false)).
    rewrite N.eqb_refl.
    assert (Hs : forallb isSpace (w3 ++ LF :: indent) = true).
    { rewrite !forallb_app. simpl.
      rewrite (blank_isSpace _ H3), (blank_isSpace _ Hi). reflexivity. }
    assert (E : w3 ++ LF :: indent ++ c2 :: r2
                = (w3 ++ LF :: indent) ++ c2 :: r2).
    { rewrite <- !app_assoc. simpl. reflexivity. }
    rewrite E, (span_app_stop _ _ _ _ Hs Hc2).
    simpl isEmpty. rewrite (lastEol_line w3 indent (blank_noLT _ Hi)).
    rewrite !length_app. simpl. f_equal. lia.
Qed.

(** The first pattern matches a placeholder line from its beginning to
    its end. *)
Lemma placeholderLine_matched w0 c ident w1 x y w2 comma w3 indent c2 r2 :
  forallb isBlankChar w0 = true -> isIdentStart c = true ->
  forallb isIdentChar ident = true -> forallb isBlankChar w1 = true ->
  (x = LBRACKET /\ y = RBRACKET) \/ (x = LBRACE /\ y = RBRACE) ->
  forallb isBlankChar w2 = true -> forallb isBlankChar w3 = true ->
  forallb isBlankChar indent = true ->
  isSpace c2 = false -> c2 <> COMMA ->
  comma = [] \/ comma = [COMMA] ->
  let ph := w0 ++ c :: ident ++ COLON :: w1 ++ x :: y :: w2 ++ comma ++ w3 in
  placeholderLine_matchLength (ph ++ LF :: indent ++ c2 :: r2)
  = Some (length ph).
Proof.
  intros H0 Hc Hi H1 Hp H2 H3 Hin Hc2 Hnc Hcomma ph.
  unfold placeholderLine_matchLength, ph.
  repeat (rewrite <- app_assoc; simpl).
  assert (Hcs : isSpace c = false) by (revert Hc; charlia).
  rewrite (span_app_stop _ _ _ _ (blank_isSpace _ H0) Hcs), Hc.
  rewrite (span_app_stop _ _ _ _ Hi (eq_refl : isIdentChar COLON = false)).
  rewrite N.eqb_refl.
  assert (Hxs : isSpace x = false)
    by (destruct Hp as [[-> _] | [-> _]]; reflexivity).
  rewrite (span_app_stop _ _ _ _ (blank_isSpace _ H1) Hxs).
  assert (Hpair : ((x =? LBRACKET) && (y =? RBRACKET))
                  || ((x =? LBRACE) && (y =? RBRACE)) = true)
    by (destruct Hp as [[-> ->] | [-> ->]]; reflexivity).
  rewrite Hpair.
  pose proof (placeholderTail_line w2 comma w3 indent c2 r2
                H2 H3 Hin Hc2 Hnc Hcomma) as Ht.
  repeat (rewrite <- app_assoc in Ht; simpl in Ht).
  rewrite Ht. f_equal.
  repeat (rewrite !length_app; cbn [length]). lia.
Qed.

Lemma plain_jsonSpace p c :
  isJsonSpace c = true -> plainMode (mode p) = true -> mode p <> MError ->
  step p c = p.
Proof.
  intros Hc Hm He. destruct p as [st m].
  destruct m; try discriminate Hm; try (simpl in He; congruence);
    unfold step, stepPlain; cbn [stack mode]; rewrite Hc; reflexivity.
Qed.

Lemma structural_not_wordlike z :
  isStructuralOrQuote z = true ->
  isSpace z = false /\ isIdentChar z = false /\ isJunkChar z = false
  /\ isLineTerminator z = false.
Proof. intros H. repeat split; revert H; charlia. Qed.

Lemma nonempty_last (s : jsstring) :
  s <> [] -> exists t, s = t ++ [last s 0].
Proof.
  intros H. destruct s as [|c s] using rev_ind; [congruence|].
  exists s. rewrite last_last. reflexivity.
Qed.

(** A position after a line terminator in the first part of a JSON text
    cut at a line feed, the first part ending with a structural character
    or a double quote. *)
Section FirstPart.
Variables j1 j2 : jsstring.
Variable v : JValue.
Hypothesis Hparse : Json.parse (j1 ++ LF :: j2) = Some v.
Hypothesis Hsep : noSeparator (j1 ++ LF :: j2) = true.
Hypothesis Hlast : isStructuralOrQuote (last j1 0) = true.

Lemma first_part_alive : mode (run initial (j1 ++ [LF])) <> MError.
Proof.
  apply (alive_prefix initial (j1 ++ [LF]) j2).
  rewrite <- app_assoc. apply (accepted_alive _ _ v Hparse).
Qed.

Lemma first_part_nonempty : j1 <> [].
Proof. intros E. rewrite E in Hlast. discriminate. Qed.

Lemma after_first_part_plain :
  plainMode (mode (run initial (j1 ++ [LF]))) = true.
Proof.
  rewrite run_app. simpl. apply lineBreak_plain; [reflexivity|].
  pose proof first_part_alive as H. rewrite run_app in H. exact H.
Qed.

Lemma first_part_position a1 c a2 :
  j1 ++ [LF] = a1 ++ c :: a2 -> isLineTerminator c = true -> a2 <> [] ->
  exists t,
    a2 = t ++ [last j1 0; LF]
    /\ plainMode (mode (run initial (a1 ++ [c]))) = true
    /\ mode (run (run initial (a1 ++ [c])) (t ++ [last j1 0])) <> MError.
Proof.
  intros E Hc Hne.
  destruct (structural_not_wordlike _ Hlast) as (_ & _ & _ & Hlt).
  destruct a2 as [|z a2'] using rev_ind; [congruence|]. clear IHa2'.
  assert (E' : j1 ++ [LF] = (a1 ++ c :: a2') ++ [z])
    by (rewrite E, <- app_assoc; reflexivity).
  apply app_inj_tail in E'. destruct E' as [Hj1 <-].
  destruct a2' as [|z' t] using rev_ind.
  - exfalso. rewrite Hj1, last_last in Hlt. congruence.
  - clear IHt. exists t.
    assert (Hz : last j1 0 = z').
    { rewrite Hj1.
      change (a1 ++ c :: t ++ [z']) with (a1 ++ (c :: t) ++ [z']).
      rewrite app_assoc. apply last_last. }
    rewrite Hz. split; [rewrite <- app_assoc; reflexivity|].
    assert (Hrun : run initial j1
                   = run (run initial (a1 ++ [c])) (t ++ [z'])).
    { rewrite <- run_app, Hj1, <- app_assoc. reflexivity. }
    assert (Ha : mode (run initial j1) <> MError).
    { apply (alive_prefix initial j1 [LF]). apply first_part_alive. }
    rewrite Hrun in Ha. split; [|exact Ha].
    rewrite run_app. simpl. apply lineBreak_plain.
    + apply lineTerminator_lineBreak; [exact Hc|].
      pose proof Hsep as H. unfold noSeparator in H. rewrite Hj1 in H.
      rewrite <- app_assoc in H. apply (forallb_elem _ a1 c _) in H. exact H.
    + intros Ee. apply Ha. apply run_error. rewrite run_app. simpl. exact Ee.
Qed.

(** The first pattern does not match in the first part, whatever
    follows. *)
Lemma first_part_removePlaceholderLines s :
  removePlaceholderLines_from 0 true ((j1 ++ [LF]) ++ s)
  = (j1 ++ [LF]) ++ removePlaceholderLines_from 0 true s.
Proof.
  destruct (structural_not_wordlike _ Hlast) as (Hs & Hi & _ & _).
  destruct (nonempty_last j1 first_part_nonempty) as [t0 Ht0].
  assert (Ha : mode (run initial j1) <> MError).
  { apply (alive_prefix initial j1 [LF]). apply first_part_alive. }
  apply (remove_copy j1 LF true s).
  - intros _. rewrite Ht0. rewrite <- !app_assoc. simpl.
    apply (alive_part_no_placeholder initial); try assumption; try reflexivity.
    rewrite <- Ht0. exact Ha.
  - intros a1 c a2 E Hc Hne.
    destruct (first_part_position a1 c a2 E Hc Hne) as (t & -> & Hpl & Hal).
    rewrite <- app_assoc. simpl.
    apply (alive_part_no_placeholder (run initial (a1 ++ [c]))); assumption.
Qed.

Lemma first_part_stripJunkPrefixes s :
  stripJunkPrefixes_from 0 true ((j1 ++ [LF]) ++ s)
  = (j1 ++ [LF]) ++ stripJunkPrefixes_from 0 true s.
Proof.
  destruct (structural_not_wordlike _ Hlast) as (_ & _ & Hj & _).
  destruct (nonempty_last j1 first_part_nonempty) as [t0 Ht0].
  assert (Ha : mode (run initial j1) <> MError).
  { apply (alive_prefix initial j1 [LF]). apply first_part_alive. }
  apply (strip_copy j1 LF true s).
  - intros _. rewrite Ht0. rewrite <- !app_assoc. simpl.
    apply (alive_part_no_junkPrefix initial); try assumption; try reflexivity.
    rewrite <- Ht0. exact Ha.
  - intros a1 c a2 E Hc Hne.
    destruct (first_part_position a1 c a2 E Hc Hne) as (t & -> & Hpl & Hal).
    rewrite <- app_assoc. simpl.
    apply (alive_part_no_junkPrefix (run initial (a1 ++ [c]))); assumption.
Qed.

Lemma second_part_sep : noSeparator j2 = true.
Proof.
  pose proof Hsep as H. rewrite noSeparator_app in H.
  apply Bool.andb_true_iff in H. destruct H as [_ H]. simpl in H.
  exact H.
Qed.

Lemma second_part_alive : mode (run (run initial (j1 ++ [LF])) j2) <> MError.
Proof.
  rewrite <- run_app, <- app_assoc. apply (accepted_alive _ _ v Hparse).
Qed.

(** With one more line feed at the cut the text is still a JSON text with
    the same value, and the filter keeps the new blank line. *)
Lemma blank_line_added :
  Json.parse (j1 ++ LF :: LF :: j2) = Some v
  /\ noSeparator (j1 ++ LF :: LF :: j2) = true
  /\ (forallb keepLine (splitLF (j1 ++ LF :: j2)) = true ->
      forallb keepLine (splitLF (j1 ++ LF :: LF :: j2)) = true).
Proof.
  split; [|split].
  - unfold Json.parse in *.
    change (j1 ++ LF :: LF :: j2) with (j1 ++ [LF] ++ LF :: j2).
    rewrite app_assoc, run_app, run_cons.
    rewrite (plain_jsonSpace _ LF eq_refl after_first_part_plain
               first_part_alive).
    rewrite <- run_app, <- app_assoc. exact Hparse.
  - pose proof Hsep as H. rewrite noSeparator_app in *. simpl in *.
    exact H.
  - rewrite !splitLF_app_LF.
    change (splitLF (LF :: j2)) with ([] :: splitLF j2).
    rewrite !forallb_app. simpl. tauto.
Qed.

End FirstPart.

(** From the text the two replacements leave, when it is a JSON text that
    loses no line to the filter. *)
Lemma sanitize_from_stripped x T T2 v :
  trim x = T -> unwrapFence T = T ->
  stripJunkPrefixes (removePlaceholderLines T) = T2 ->
  Json.parse T2 = Some v ->
  forallb keepLine (splitLF T2) = true ->
  sanitizeAndParseJson x = Normal v.
Proof.
  intros Ht Hu Hs Hp Hk.
  apply (sanitizeAndParseJson_accepted x (trim (collapseBlankLines T2))).
  - unfold sanitize. rewrite Ht, Hu, Hs. unfold filterLines.
    rewrite (filter_all _ _ Hk), joinLF_splitLF. reflexivity.
  - apply parse_collapsed, Hp.
Qed.

Lemma sanitize_from_removed x T T1 v :
  trim x = T -> unwrapFence T = T ->
  removePlaceholderLines T = T1 ->
  Json.parse T1 = Some v -> noSeparator T1 = true ->
  forallb keepLine (splitLF T1) = true ->
  sanitizeAndParseJson x = Normal v.
Proof.
  intros Ht Hu Hr Hp Hs Hk.
  apply (sanitize_from_stripped x T T1 v); try assumption.
  rewrite Hr. unfold stripJunkPrefixes.
  apply (stripJunkPrefixes_alive T1 initial true);
    [reflexivity | exact Hs | apply (accepted_alive _ _ v Hp)].
Qed.

Lemma placeholder_chars w0 c ident w1 x y w2 comma w3 :
  forallb isBlankChar w0 = true -> isIdentStart c = true ->
  forallb isIdentChar ident = true -> forallb isBlankChar w1 = true ->
  (x = LBRACKET /\ y = RBRACKET) \/ (x = LBRACE /\ y = RBRACE) ->
  forallb isBlankChar w2 = true -> forallb isBlankChar w3 = true ->
  comma = [] \/ comma = [COMMA] ->
  exists c0 u z,
    w0 ++ c :: ident ++ COLON :: w1 ++ x :: y :: w2 ++ comma ++ w3
    = c0 :: u ++ [z]
    /\ isLineTerminator z = false.
Proof.
  intros H0 Hc Hi H1 Hp H2 H3 Hcomma.
  set (ph := w0 ++ c :: ident ++ COLON :: w1 ++ x :: y :: w2 ++ comma ++ w3).
  assert (Hall : forallb (fun d => negb (isLineTerminator d)) ph = true).
  { unfold ph. rewrite forallb_app. simpl. rewrite forallb_app. simpl.
    rewrite forallb_app. simpl. rewrite !forallb_app.
    rewrite (blank_noLT _ H0), (blank_noLT _ H1), (blank_noLT _ H2),
      (blank_noLT _ H3).
    assert (Hid : forallb (fun d => negb (isLineTerminator d)) ident = true).
    { revert Hi. apply forallb_weaken. intros d. charlia. }
    rewrite Hid.
    assert (Hcn : negb (isLineTerminator c) = true) by (revert Hc; charlia).
    rewrite Hcn.
    destruct Hp as [[-> ->] | [-> ->]], Hcomma as [-> | ->]; reflexivity. }
  assert (Hlen : (2 <= length ph)%nat).
  { unfold ph. rewrite length_app. simpl. rewrite length_app. simpl. lia. }
  destruct ph as [|c0 ph'] eqn:E; [simpl in Hlen; lia|].
  destruct ph' as [|z u] using rev_ind; [simpl in Hlen; lia|].
  exists c0, u, z. split; [reflexivity|].
  change (c0 :: u ++ [z]) with ((c0 :: u) ++ [z]) in Hall.
  rewrite forallb_app in Hall. apply Bool.andb_true_iff in Hall.
  destruct Hall as [_ Hz]. simpl in Hz.
  rewrite Bool.andb_true_r in Hz. apply Bool.negb_true_iff in Hz. exact Hz.
Qed.



(** ** Unquoted text before a quoted one on a line of a JSON text *)

Lemma isLineTerminator_absent (s : jsstring) a1 c a2 :
  forallb (fun d => negb (isLineTerminator d)) s = true ->
  s = a1 ++ c :: a2 -> isLineTerminator c = true -> False.
Proof.
  intros H E Hc. rewrite E in H. apply forallb_elem in H.
  rewrite Hc in H. discriminate.
Qed.

Section JunkLine.
Variables indent jk sp r2 : jsstring.
Variable c0 : char.
Hypothesis Hindent : forallb isBlankChar indent = true.
Hypothesis Hc0 : isAlpha c0 = true.
Hypothesis Hjk : forallb isJunkChar jk = true.
Hypothesis HjkLT : forallb (fun d => negb (isLineTerminator d)) jk = true.
Hypothesis Hend : isAlnum (last (c0 :: jk) 0) = true.
Hypothesis Hsp : forallb isBlankChar sp = true.
Hypothesis Hspne : sp <> [].

Let junk := c0 :: jk.
Let line := indent ++ junk ++ sp.

Lemma junk_line_class : forallb isJunkChar line = true.
Proof.
  unfold line, junk. rewrite !forallb_app. simpl. rewrite Hjk.
  assert (H1 : forallb isJunkChar indent = true).
  { revert Hindent. apply forallb_weaken. intros d. unfold isBlankChar. charlia. }
  assert (H2 : forallb isJunkChar sp = true).
  { revert Hsp. apply forallb_weaken. intros d. unfold isBlankChar. charlia. }
  assert (H3 : isJunkChar c0 = true) by (revert Hc0; charlia).
  rewrite H1, H2, H3. reflexivity.
Qed.

Lemma junk_line_noLT :
  forallb (fun d => negb (isLineTerminator d)) (line ++ [DQUOTE]) = true.
Proof.
  unfold line, junk. rewrite !forallb_app. simpl. rewrite HjkLT.
  rewrite (blank_noLT _ Hindent), (blank_noLT _ Hsp).
  assert (H3 : negb (isLineTerminator c0) = true) by (revert Hc0; charlia).
  rewrite H3. reflexivity.
Qed.

(** The first pattern does not match at the beginning of the line: no
    colon comes before the double quote. *)
Lemma junk_line_no_placeholder :
  placeholderLine_matchLength (line ++ DQUOTE :: r2) = None.
Proof.
  destruct (placeholderLine_matchLength _) as [n|] eqn:E; [|reflexivity].
  exfalso.
  destruct (placeholder_shape _ _ E)
    as (w0 & c & ident & w1 & x & y & rest & Hb & Hw0 & Hc & Hi & _ & _).
  assert (HU : forallb isJunkChar (w0 ++ c :: ident) = true).
  { rewrite forallb_app. simpl. rewrite (identChars_junk _ Hi).
    apply Bool.andb_true_iff. split.
    - revert Hw0. apply forallb_weaken. intros d Hd. unfold isJunkChar.
      rewrite Hd, Bool.orb_true_r. reflexivity.
    - rewrite Bool.andb_true_r. revert Hc. charlia. }
  assert (Hb' : (w0 ++ c :: ident) ++ COLON :: (w1 ++ x :: y :: rest)
                = line ++ DQUOTE :: r2).
  { rewrite Hb, <- app_assoc. reflexivity. }
  destruct (stop_unique isJunkChar _ _ _ _ _ _ HU junk_line_class
              (eq_refl : isJunkChar COLON = false)
              (eq_refl : isJunkChar DQUOTE = false) Hb') as (_ & Hcc & _).
  discriminate.
Qed.

(** The second pattern matches the line up to the double quote; its first
    group is the indentation. *)
Lemma junk_line_matched :
  junkPrefix_match (line ++ DQUOTE :: r2)
  = Some (indent, S (length line)).
Proof.
  unfold junkPrefix_match, line.
  assert (Hc0s : isSpace c0 = false) by (revert Hc0; charlia).
  rewrite <- !app_assoc. unfold junk. simpl app.
  rewrite (span_app_stop _ _ _ _ (blank_isSpace _ Hindent) Hc0s), Hc0.
  assert (Hj : forallb isJunkChar ((c0 :: jk) ++ sp) = true).
  { rewrite forallb_app. simpl. rewrite Hjk.
    assert (H2 : forallb isJunkChar sp = true).
    { revert Hsp. apply forallb_weaken. intros d. unfold isBlankChar. charlia. }
    assert (H3 : isJunkChar c0 = true) by (revert Hc0; charlia).
    rewrite H2, H3. reflexivity. }
  change (c0 :: jk ++ sp ++ DQUOTE :: r2)
    with (c0 :: jk ++ sp ++ DQUOTE :: r2).
  assert (E : c0 :: jk ++ sp ++ DQUOTE :: r2
              = ((c0 :: jk) ++ sp) ++ DQUOTE :: r2)
    by (rewrite <- app_assoc; reflexivity).
  rewrite E, (span_app_stop _ _ _ _ Hj (eq_refl : isJunkChar DQUOTE = false)).
  rewrite N.eqb_refl.
  rewrite (trimEnd_app_space _ _ (blank_isSpace _ Hsp)).
  assert (Hns : isSpace (last (c0 :: jk) 0) = false)
    by (revert Hend; generalize (last (c0 :: jk) 0); intros d; charlia).
  rewrite (trimEnd_fixed (c0 :: jk)) by (discriminate || exact Hns).
  rewrite Hend, Bool.andb_true_r.
  assert (Hlt : (length (c0 :: jk) <? length ((c0 :: jk) ++ sp))%nat = true).
  { apply Nat.ltb_lt. rewrite length_app. destruct sp; [congruence|].
    simpl. lia. }
  rewrite Hlt. f_equal. f_equal. rewrite !length_app. simpl.
  rewrite length_app. lia.
Qed.

End JunkLine.



(** ** Text after a JSON text on the same line *)

(** The region extracted from a text is the region extracted from any
    text with the same beginning. *)
Lemma region_of_prefix q rest rest' :
  potentialJsonOf (q ++ rest) = Some q -> potentialJsonOf (q ++ rest') = Some q.
Proof.
  intros H.
  destruct (region_shape _ _ H) as (K & w & body & rest0 & _ & Hq & Hw & Hz & Hall).
  rewrite Hq in Hz. rewrite Hq. apply region_found; assumption.
Qed.

Lemma region_last_nonspace s q :
  potentialJsonOf s = Some q -> q <> [] /\ isSpace (last q 0) = false.
Proof.
  intros H.
  destruct (region_shape _ _ H) as (K & w & body & rest0 & _ & Hq & _).
  rewrite Hq. split; [destruct w; discriminate|].
  change (w ++ openChar K :: body ++ [closeChar K])
    with (w ++ (openChar K :: body) ++ [closeChar K]).
  rewrite app_assoc, last_last. apply (closeChar_not_wordlike K).
Qed.

(** A region of a text is a region of the text without its trailing white
    space. *)
Lemma region_before_trailing_space s w q :
  forallb isSpace w = true ->
  potentialJsonOf (s ++ w) = Some q -> potentialJsonOf s = Some q.
Proof.
  intros Hw H.
  destruct (region_last_nonspace _ _ H) as [Hne Hl].
  destruct (region_shape _ _ H) as (K & w0 & body & rest0 & Hs & _).
  assert (Hpre : exists rest', s = q ++ rest').
  { symmetry in Hs.
    destruct (prefix_compare _ _ _ _ Hs) as [E | [(c & d & E) | (c & d & E)]].
    - exists []. rewrite app_nil_r. auto.
    - exists (c :: d). exact E.
    - exfalso. rewrite E, <- app_assoc in Hs. apply app_inv_head in Hs.
      simpl in Hs.
      assert (Hcd : forallb isSpace (c :: d) = true).
      { rewrite <- Hs in Hw. change (c :: d ++ rest0) with ((c :: d) ++ rest0) in Hw.
        rewrite forallb_app in Hw. apply Bool.andb_true_iff in Hw. apply Hw. }
      rewrite E in Hl.
      assert (Hlast : isSpace (last (s ++ c :: d) 0) = true).
      { destruct (nonempty_last (c :: d) ltac:(discriminate)) as [t Ht].
        rewrite Ht, app_assoc, last_last. rewrite Ht in Hcd.
        apply (forallb_elem isSpace t _ []) in Hcd. exact Hcd. }
      congruence. }
  destruct Hpre as [rest' Hs'].
  rewrite Hs', <- app_assoc in H. rewrite Hs'.
  apply (region_of_prefix q _ rest' H).
Qed.

(** X7. Text after a JSON object or array on the same line is ignored.
    For a well-formed JSON text that starts with a brace or a bracket,
    followed by any text, the whole holding no line terminator,
    [sanitizeAndParseJson] returns the value of the JSON text: either the
    whole is well-formed and has that value, or the first [JSON.parse]
    fails and the fallback extracts a text with that value. *)
Theorem text_after_json_on_one_line_is_ignored K r tail v :
  Json.parse (openChar K :: r) = Some v ->
  noLT ((openChar K :: r) ++ tail) = true ->
  sanitizeAndParseJson ((openChar K :: r) ++ tail) = Normal v.
Proof.
  intros Hp Hn.
  set (x := (openChar K :: r) ++ tail) in *.
  destruct (openClose_not_space K) as (_ & _ & Ho).
  destruct (trimEnd_head x (openChar K) (r ++ tail) eq_refl Ho) as [r' Hr'].
  assert (Htrim : trim x = openChar K :: r').
  { unfold trim. unfold x at 1. simpl. rewrite Ho. exact Hr'. }
  assert (Hsan : sanitize x = openChar K :: r').
  { apply sanitize_single_kept; try assumption;
      try (destruct K; reflexivity).
    apply keepLine_structural; [|destruct K; reflexivity].
    rewrite <- Htrim. apply trim_idem. }
  destruct (trimEnd_split x) as [w [Hx Hw]]. rewrite Hr' in Hx.
  destruct (extract_accepted_prefix K (openChar K :: r) tail v r Hp
              (trimStart_nonspace _ _ Ho)) as (q & ws & _ & _ & Hq & Hqv).
  fold x in Hq. rewrite Hx in Hq.
  pose proof (region_before_trailing_space _ w q Hw Hq) as Hq'.
  unfold sanitizeAndParseJson, JSON_parse. rewrite Hsan.
  destruct (Json.parse (openChar K :: r')) as [v'|] eqn:Ep'; simpl.
  - destruct (extract_accepted_prefix K (openChar K :: r') w v' r' Ep'
                (trimStart_nonspace _ _ Ho)) as (q' & ws' & _ & _ & Hq'' & Hqv').
    rewrite Hq in Hq''. injection Hq'' as <-. congruence.
  - apply (fallback_of_potential _ q v); [discriminate | exact Hq' | exact Hqv].
Qed.

Lemma text_after_json_on_one_line_is_ignored_witness :
  sanitizeAndParseJson (js "{'a':1} some extra commentary here")
  = Normal (JObject [(js "a", JNumber false 1 0)]).
Proof.
  apply (text_after_json_on_one_line_is_ignored true (js "'a':1}")
           (js " some extra commentary here")); reflexivity.
Defined.

(** ** Which answers of the model are used *)

Section AnswerFacts.
Variable generateContent : Request -> Completion GenerateContentResponse.
Variable textPrompt : option jsstring -> jsstring.
Variable trimOfUndefinedMessage : jsstring.
Variable cannotCreatePropertyMessage : jsstring -> JValue -> jsstring.

Let body :=
  analyzeBody generateContent textPrompt trimOfUndefinedMessage
    cannotCreatePropertyMessage.
Let analyze :=
  analyzeImageAndSuggestProducts generateContent textPrompt
    trimOfUndefinedMessage cannotCreatePropertyMessage.
Let request := analysisRequest textPrompt.

Lemma analyze_of_body imageBase64 imageType userPrompt :
  analyze imageBase64 imageType userPrompt
  = match body imageBase64 imageType userPrompt with
    | Normal r => Resolved r
    | Throw error =>
        Resolved (errorResponse
                    (errorMessageOf error
                       (js "An unknown error occurred during image analysis.")))
    end.
Proof.
  unfold analyze, analyzeImageAndSuggestProducts, body.
  destruct (analyzeBody _ _ _ _ _ _ _); reflexivity.
Qed.

(** X8. The answer of the model is used only when its text decodes to an
    object or an array.  A response without text, and a text that decodes
    to a number, a string, a boolean or [null], give the error result:
    with the message of the [TypeError] raised by [undefined.trim()], with
    the message of the [TypeError] raised by the assignment to a property
    of a primitive, or, for a falsy value, with the text of the parse
    failure. *)
Theorem analyze_uses_only_objects_and_arrays imageBase64 imageType userPrompt :
  (generateContent (request imageBase64 imageType userPrompt)
   = Normal {| text := None |} ->
   analyze imageBase64 imageType userPrompt
   = Resolved (errorResponse trimOfUndefinedMessage))
  /\ (forall raw v,
        generateContent (request imageBase64 imageType userPrompt)
        = Normal {| text := Some raw |} ->
        sanitizeAndParseJson raw = Normal v ->
        asObject v = None ->
        analyze imageBase64 imageType userPrompt
        = Resolved
            (errorResponse
               (if toBoolean v
                then cannotCreatePropertyMessage s_similarProducts v
                else js "Failed to parse Gemini response or response was empty.")))
  /\ (forall r,
        analyze imageBase64 imageType userPrompt = Resolved r ->
        (exists errorMessage, r = errorResponse errorMessage)
        \/ (exists raw v o,
              generateContent (request imageBase64 imageType userPrompt)
              = Normal {| text := Some raw |}
              /\ sanitizeAndParseJson raw = Normal v
              /\ asObject v = Some o)).
Proof.
  split; [|split].
  - intros Hg. rewrite analyze_of_body.
    unfold body, analyzeBody. fold (request imageBase64 imageType userPrompt).
    rewrite Hg. reflexivity.
  - intros raw v Hg Hp Ho. rewrite analyze_of_body.
    unfold body, analyzeBody. fold (request imageBase64 imageType userPrompt).
    rewrite Hg. simpl. rewrite Hp. simpl.
    destruct (toBoolean v); simpl; [|reflexivity].
    rewrite Ho. reflexivity.
  - intros r. rewrite analyze_of_body.
    destruct (body imageBase64 imageType userPrompt) as [r'|e] eqn:E.
    + intros [= <-]. right.
      destruct (body_normal generateContent textPrompt trimOfUndefinedMessage
                  cannotCreatePropertyMessage _ _ _ _ E) as (raw & v & o & Hg & Hp & Ho & _).
      exists raw, v, o. auto.
    + intros [= <-]. left. eexists. reflexivity.
Qed.

(** X9. Defaulting changes nothing but the two product fields: every other
    property of the object decoded from the model's text, [analysis]
    included, is in the result as it was decoded, and a property the
    object lacks is still lacking. *)
Theorem defaults_touch_only_product_fields imageBase64 imageType userPrompt
  raw members :
  generateContent (request imageBase64 imageType userPrompt)
  = Normal {| text := Some raw |} ->
  sanitizeAndParseJson raw = Normal (JObject members) ->
  exists r,
    analyze imageBase64 imageType userPrompt = Resolved (PlainObject r)
    /\ forall name,
         streq name s_similarProducts = false ->
         streq name s_complementaryProducts = false ->
         getProperty name r = getProperty name members.
Proof.
  intros Hg Hp. rewrite analyze_of_body.
  unfold body, analyzeBody. fold (request imageBase64 imageType userPrompt).
  rewrite Hg. simpl. rewrite Hp. simpl.
  eexists. split; [reflexivity|].
  intros name H1 H2.
  assert (H1' : streq s_similarProducts name = false).
  { destruct (streq s_similarProducts name) eqn:E; [|reflexivity].
    apply streq_eq in E. subst name. rewrite streq_refl in H1. discriminate. }
  assert (H2' : streq s_complementaryProducts name = false).
  { destruct (streq s_complementaryProducts name) eqn:E; [|reflexivity].
    apply streq_eq in E. subst name. rewrite streq_refl in H2. discriminate. }
  rewrite !getProperty_set_other by assumption. reflexivity.
Qed.

End AnswerFacts.

Lemma analyze_uses_only_objects_and_arrays_witness :
  analyzeImageAndSuggestProducts
    (fun _ => Normal {| text := None |}) Samples.noPrompt Samples.trimMessage
    Samples.createMessage (js "aGVsbG8=") (js "image/png") None
  = Resolved (errorResponse Samples.trimMessage)
  /\ Samples.analyzeWith (Samples.answering (js "42"))
     = Resolved (errorResponse (js "Cannot create property 'similarProducts'"))
  /\ Samples.analyzeWith (Samples.answering (js "''"))
     = Resolved (errorResponse
                   (js "Failed to parse Gemini response or response was empty.")).
Proof.
  split; [|split].
  - apply (proj1 (analyze_uses_only_objects_and_arrays
                    (fun _ => Normal {| text := None |}) Samples.noPrompt
                    Samples.trimMessage Samples.createMessage
                    (js "aGVsbG8=") (js "image/png") None)).
    reflexivity.
  - apply (proj1 (proj2 (analyze_uses_only_objects_and_arrays
                    (Samples.answering (js "42")) Samples.noPrompt
                    Samples.trimMessage Samples.createMessage
                    (js "aGVsbG8=") (js "image/png") None))
             (js "42") (JNumber false 42 0)); reflexivity.
  - apply (proj1 (proj2 (analyze_uses_only_objects_and_arrays
                    (Samples.answering (js "''")) Samples.noPrompt
                    Samples.trimMessage Samples.createMessage
                    (js "aGVsbG8=") (js "image/png") None))
             (js "''") (JString [])); reflexivity.
Defined.

Lemma defaults_touch_only_product_fields_witness :
  exists r,
    Samples.analyzeWith
      (Samples.answering (js "{'note': 1, 'similarProducts': null}"))
    = Resolved (PlainObject r)
    /\ forall name,
         streq name s_similarProducts = false ->
         streq name s_complementaryProducts = false ->
         getProperty name r
         = getProperty name
             [(js "note", JNumber false 1 0); (s_similarProducts, JNull)].
Proof.
  apply (defaults_touch_only_product_fields
           (Samples.answering (js "{'note': 1, 'similarProducts': null}"))
           Samples.noPrompt Samples.trimMessage Samples.createMessage
           (js "aGVsbG8=") (js "image/png") None
           (js "{'note': 1, 'similarProducts': null}")); reflexivity.
Defined.

(** ** The handlers of [App] *)

Section AppFacts.
Import App.
Variable Chat : Type.
Variable generateContent : Request -> Completion GenerateContentResponse.
Variable sendMessage : Chat -> jsstring -> Completion GenerateContentResponse.
Variable textPrompt : option jsstring -> jsstring.
Variable trimOfUndefinedMessage : jsstring.
Variable cannotCreatePropertyMessage : jsstring -> JValue -> jsstring.
Variable startChatSession : unit -> Completion Chat.
Variable startsWithFailureMessage : option JValue -> jsstring.

Let analyze :=
  analyzeImageAndSuggestProducts generateContent textPrompt
    trimOfUndefinedMessage cannotCreatePropertyMessage.
Let upload :=
  handleImageUpload Chat generateContent textPrompt trimOfUndefinedMessage
    cannotCreatePropertyMessage startChatSession startsWithFailureMessage.
Let send := handleSendMessage Chat sendMessage.

Lemma upload_unfold base64Image imageType dateNow newDate :
  upload base64Image imageType dateNow newDate
  = match analyze base64Image imageType None with
    | Rejected err =>
        {| updates := [uploadStarted Chat base64Image imageType;
                       uploadFailed Chat err];
           initialChatPrompt := None |}
    | Resolved result =>
        match startChatSession tt with
        | Throw err =>
            {| updates := [uploadStarted Chat base64Image imageType;
                           uploadFailed Chat err];
               initialChatPrompt := None |}
        | Normal newChat =>
            match firstMessage startsWithFailureMessage
                    (getField s_analysis result) dateNow newDate with
            | Throw err =>
                {| updates := [uploadStarted Chat base64Image imageType;
                               uploadFailed Chat err];
                   initialChatPrompt := None |}
            | Normal first =>
                {| updates := [uploadStarted Chat base64Image imageType;
                               uploadFinished Chat result newChat [fst first]];
                   initialChatPrompt := Some (snd first) |}
            end
        end
    end.
Proof.
  unfold upload, handleImageUpload, uploadTry, analyze.
  destruct (analyzeImageAndSuggestProducts _ _ _ _ _ _ _) as [result|err];
    [|reflexivity].
  destruct (startChatSession tt) as [newChat|err]; [|reflexivity]. simpl.
  destruct (firstMessage _ _ _ _) as [first|err]; reflexivity.
Qed.

(** The text of the error result does not start with [Error:]. *)
Lemma errorResponse_analysis errorMessage :
  exists s,
    getField s_analysis (errorResponse errorMessage) = Some (JString s)
    /\ s = js "Error during analysis: " ++ errorMessage
           ++ js ". Please try a different image or prompt."
    /\ isEmpty s = false
    /\ startsWith (txt "Error:") s = false.
Proof. eexists. repeat split. Qed.

(** X10. A failed analysis is shown as a successful one.  When
    [analyzeImageAndSuggestProducts] resolves with its error result, the
    text of that result starts with [Error during analysis], not with
    [Error:], so [handleImageUpload] greets the user with the text of a
    successful analysis followed by the error text, proposes the prompt of
    the successful case, and leaves [error] empty. *)
Theorem failed_analysis_is_shown_as_analysis base64Image imageType dateNow
  newDate errorMessage newChat (state : AppState Chat) :
  analyze base64Image imageType None = Resolved (errorResponse errorMessage) ->
  startChatSession tt = Normal newChat ->
  let effects := upload base64Image imageType dateNow newDate in
  let final := applyUpdates (updates effects) state in
  let shown :=
    txt "Okay, I've analyzed your image! Here's what I see: "
    ++ js "Error during analysis: " ++ errorMessage
    ++ js ". Please try a different image or prompt." in
  initialChatPrompt effects
  = Some (txt "Tell me more about similar items or what I can pair with this.")
  /\ map text (chatMessages final) = [Some shown]
  /\ map sender (chatMessages final) = [ai]
  /\ error final = None
  /\ similarProducts final = Some (JArray [])
  /\ complementaryProducts final = Some (JArray [])
  /\ currentChat final = Some newChat
  /\ loadingState final = IDLE.
Proof.
  intros Ha Hc effects final shown. unfold final, effects.
  rewrite upload_unfold, Ha, Hc. simpl. repeat split.
Qed.

(** X11. An answer of the model without a text under [analysis] ends in the
    error state.  When the result of the analysis has no [analysis], or one
    that is not a string, the call of [startsWith] throws, and
    [handleImageUpload] sets [error] to the message of that [TypeError]:
    the products of the result are not stored, no message is added and the
    chat that was created is not kept. *)
Theorem analysis_that_is_not_text_fails_upload base64Image imageType dateNow
  newDate result newChat (state : AppState Chat) :
  analyze base64Image imageType None = Resolved result ->
  startChatSession tt = Normal newChat ->
  (forall s, getField s_analysis result <> Some (JString s)) ->
  let effects := upload base64Image imageType dateNow newDate in
  let final := applyUpdates (updates effects) state in
  initialChatPrompt effects = None
  /\ error final
     = Some (txt "Failed to analyze image: "
             ++ startsWithFailureMessage (getField s_analysis result))
  /\ similarProducts final = Some (JArray [])
  /\ complementaryProducts final = Some (JArray [])
  /\ chatMessages final = []
  /\ currentChat final = currentChat state
  /\ loadingState final = IDLE.
Proof.
  intros Ha Hc Hn effects final. unfold final, effects.
  rewrite upload_unfold, Ha, Hc. unfold firstMessage.
  destruct (getField s_analysis result) as [[| | | s | |]|] eqn:E;
    try (simpl; repeat split; fail).
  exfalso. apply (Hn s). reflexivity.
Qed.

(** X12. [handleImageUpload] never leaves the application loading.
    Whatever the model call, the creation of the chat and the result are,
    the state after its two updates is idle and holds the image; either
    [error] is set and nothing else of the result is stored, or the chat
    is created and holds exactly one message, from the assistant. *)
Theorem upload_always_ends_idle base64Image imageType dateNow newDate
  (state : AppState Chat) :
  let effects := upload base64Image imageType dateNow newDate in
  let final := applyUpdates (updates effects) state in
  isLoading final = false
  /\ loadingState final = IDLE
  /\ uploadedImage final = Some base64Image
  /\ uploadedImageType final = Some imageType
  /\ ((exists message,
         error final = Some (txt "Failed to analyze image: " ++ message)
         /\ chatMessages final = []
         /\ similarProducts final = Some (JArray [])
         /\ complementaryProducts final = Some (JArray [])
         /\ currentChat final = currentChat state
         /\ initialChatPrompt effects = None)
      \/ (exists newChat message prompt,
            error final = None
            /\ currentChat final = Some newChat
            /\ chatMessages final = [message]
            /\ sender message = ai
            /\ initialChatPrompt effects = Some prompt)).
Proof.
  intros effects final. unfold final, effects. rewrite upload_unfold.
  destruct (analyze base64Image imageType None) as [result|err].
  - destruct (startChatSession tt) as [newChat|err].
    + destruct (firstMessage _ _ _ _) as [[message prompt]|err] eqn:Ef.
      * simpl. repeat split. right. exists newChat, message, prompt.
        repeat split. unfold firstMessage in Ef.
        destruct (getField s_analysis result) as [[| | | s | |]|];
          try discriminate.
        destruct (negb (isEmpty s) && negb (startsWith (txt "Error:") s));
          injection Ef as <- _; reflexivity.
      * simpl. repeat split. left. eexists. repeat split.
    + simpl. repeat split. left. eexists. repeat split.
  - simpl. repeat split. left. eexists. repeat split.
Qed.

(** What [sendMessageInChat] resolves with. *)
Lemma sendMessageInChat_resolves chat messageText :
  exists reply,
    sendMessageInChat Chat sendMessage chat messageText = Resolved reply
    /\ ((exists response,
           sendMessage chat messageText = Normal response
           /\ reply = Service.text response)
        \/ (exists err,
              sendMessage chat messageText = Throw err
              /\ reply
                 = Some (js "I apologize, but I encountered an error: "
                         ++ errorMessageOf err
                              (js "An unknown error occurred during chat.")))).
Proof.
  unfold sendMessageInChat.
  destruct (sendMessage chat messageText) as [response|err] eqn:E; simpl.
  - eexists. split; [reflexivity|]. left. exists response. auto.
  - eexists. split; [reflexivity|]. right. exists err. auto.
Qed.

(** X13. One exchange of the chat.  Without a chat [handleSendMessage] does
    nothing.  With one, it adds the message of the user and then one
    message of the assistant, whose text is the reply of the model or the
    apology of [sendMessageInChat]; its own [catch] block never runs,
    since that promise is never rejected.  The messages before are kept in
    order, the state ends idle, and the image, the products and the chat
    are untouched. *)
Theorem chat_exchange_appends_two_messages (state prev : AppState Chat)
  messageText dateNow newDate dateNow' newDate' :
  (currentChat state = None ->
   send state messageText dateNow newDate dateNow' newDate' = [])
  /\ (forall chat,
        currentChat state = Some chat ->
        exists reply,
          sendMessageInChat Chat sendMessage chat messageText = Resolved reply
          /\ send state messageText dateNow newDate dateNow' newDate'
             = [userMessageAdded Chat messageText dateNow newDate;
                aiMessageAdded Chat reply dateNow' newDate']
          /\ let final :=
               applyUpdates
                 (send state messageText dateNow newDate dateNow' newDate')
                 prev in
             chatMessages final
             = chatMessages prev
               ++ [ {| id := numberToString dateNow; sender := user;
                       text := Some messageText; timestamp := newDate |};
                    {| id := numberToString (dateNow' + 1); sender := ai;
                       text := reply; timestamp := newDate' |} ]
             /\ isLoading final = false
             /\ loadingState final = IDLE
             /\ error final = None
             /\ uploadedImage final = uploadedImage prev
             /\ analyzedText final = analyzedText prev
             /\ similarProducts final = similarProducts prev
             /\ complementaryProducts final = complementaryProducts prev
             /\ currentChat final = currentChat prev).
Proof.
  split.
  - intros H. unfold send, handleSendMessage. rewrite H. reflexivity.
  - intros chat H.
    destruct (sendMessageInChat_resolves chat messageText) as (reply & Hr & _).
    exists reply. split; [exact Hr|].
    assert (E : send state messageText dateNow newDate dateNow' newDate'
                = [userMessageAdded Chat messageText dateNow newDate;
                   aiMessageAdded Chat reply dateNow' newDate']).
    { unfold send, handleSendMessage. rewrite H, Hr. reflexivity. }
    split; [exact E|]. rewrite E. simpl.
    rewrite <- app_assoc. repeat split.
Qed.

(** X14. While the reply is awaited the spinner is drawn and the input
    sends nothing.  In the state after the first update of
    [handleSendMessage], [ChatInterface] is given [isLoading], the last
    message is the one of the user, and [handleSend] calls nothing and
    keeps the input, whatever it is; after the second update the spinner
    is gone. *)
Theorem pending_reply_shows_spinner_and_blocks_input (prev : AppState Chat)
  messageText reply dateNow newDate dateNow' newDate' input :
  let waiting := userMessageAdded Chat messageText dateNow newDate prev in
  let done := aiMessageAdded Chat reply dateNow' newDate' waiting in
  ChatInterface.spinnerShown (chatMessages waiting)
    (ChatInterface.isLoadingOf waiting) = true
  /\ ChatInterface.handleSend input (ChatInterface.isLoadingOf waiting)
     = (None, input)
  /\ ChatInterface.spinnerShown (chatMessages done)
       (ChatInterface.isLoadingOf done) = false.
Proof.
  intros waiting done. unfold waiting, done. split; [|split].
  - unfold ChatInterface.spinnerShown, ChatInterface.isLoadingOf. simpl.
    rewrite length_app. simpl.
    replace (length (chatMessages prev) + 1 - 1)%nat
      with (length (chatMessages prev) + 0)%nat by lia.
    rewrite nth_error_app2 by lia.
    replace (length (chatMessages prev) + 0 - length (chatMessages prev))%nat
      with 0%nat by lia.
    simpl. rewrite Bool.andb_true_r. apply Nat.ltb_lt. lia.
  - unfold ChatInterface.handleSend, ChatInterface.isLoadingOf. simpl.
    rewrite Bool.andb_false_r. reflexivity.
  - unfold ChatInterface.spinnerShown, ChatInterface.isLoadingOf. reflexivity.
Qed.

End AppFacts.

Lemma failed_analysis_is_shown_as_analysis_witness :
  let effects := Samples.uploadWith Samples.offline in
  let final := App.applyUpdates (App.updates effects) (App.initialState unit) in
  App.initialChatPrompt effects
  = Some (App.txt "Tell me more about similar items or what I can pair with this.")
  /\ map App.text (App.chatMessages final)
     = [Some (App.txt "Okay, I've analyzed your image! Here's what I see: "
              ++ js "Error during analysis: " ++ js "fetch failed"
              ++ js ". Please try a different image or prompt.")]
  /\ map App.sender (App.chatMessages final) = [App.ai]
  /\ App.error final = None
  /\ App.similarProducts final = Some (JArray [])
  /\ App.complementaryProducts final = Some (JArray [])
  /\ App.currentChat final = Some tt
  /\ App.loadingState final = App.IDLE.
Proof.
  apply (failed_analysis_is_shown_as_analysis unit Samples.offline
           Samples.noPrompt Samples.trimMessage Samples.createMessage
           Samples.chatCreated Samples.startsWithMessage
           (js "aGVsbG8=") (js "image/png") 1700000000000 1700000000001
           (js "fetch failed") tt (App.initialState unit));
    reflexivity.
Defined.

Lemma analysis_that_is_not_text_fails_upload_witness :
  let effects :=
    Samples.uploadWith
      (Samples.answering (js "{'similarProducts': [{'id': 'sim1'}]}")) in
  let final := App.applyUpdates (App.updates effects) (App.initialState unit) in
  App.initialChatPrompt effects = None
  /\ App.error final
     = Some (App.txt "Failed to analyze image: "
             ++ js "result.analysis.startsWith is not a function")
  /\ App.similarProducts final = Some (JArray [])
  /\ App.complementaryProducts final = Some (JArray [])
  /\ App.chatMessages final = []
  /\ App.currentChat final = None
  /\ App.loadingState final = App.IDLE.
Proof.
  apply (analysis_that_is_not_text_fails_upload unit
           (Samples.answering (js "{'similarProducts': [{'id': 'sim1'}]}"))
           Samples.noPrompt Samples.trimMessage Samples.createMessage
           Samples.chatCreated Samples.startsWithMessage
           (js "aGVsbG8=") (js "image/png") 1700000000000 1700000000001
           (PlainObject
              [(s_similarProducts,
                JArray [JObject [(js "id", JString (js "sim1"))]]);
               (s_complementaryProducts, JArray [])])
           tt (App.initialState unit)).
  - reflexivity.
  - reflexivity.
  - intros s. discriminate.
Defined.

Lemma chat_exchange_appends_two_messages_witness :
  let state :=
    App.uploadFinished unit (errorResponse []) tt [] (App.initialState unit) in
  exists reply,
    sendMessageInChat unit (Samples.chatAnswering (js "Try a denim jacket."))
      tt (js "something warmer")
    = Resolved reply
    /\ App.handleSendMessage unit
         (Samples.chatAnswering (js "Try a denim jacket.")) state
         (js "something warmer") 5 6 7 8
       = [App.userMessageAdded unit (js "something warmer") 5 6;
          App.aiMessageAdded unit reply 7 8]
    /\ let final :=
         App.applyUpdates
           (App.handleSendMessage unit
              (Samples.chatAnswering (js "Try a denim jacket.")) state
              (js "something warmer") 5 6 7 8) state in
       App.chatMessages final
       = App.chatMessages state
         ++ [ {| App.id := App.numberToString 5; App.sender := App.user;
                 App.text := Some (js "something warmer");
                 App.timestamp := 6 |};
              {| App.id := App.numberToString (7 + 1); App.sender := App.ai;
                 App.text := reply; App.timestamp := 8 |} ]
       /\ App.isLoading final = false
       /\ App.loadingState final = App.IDLE
       /\ App.error final = None
       /\ App.uploadedImage final = App.uploadedImage state
       /\ App.analyzedText final = App.analyzedText state
       /\ App.similarProducts final = App.similarProducts state
       /\ App.complementaryProducts final = App.complementaryProducts state
       /\ App.currentChat final = App.currentChat state.
Proof.
  apply (proj2 (chat_exchange_appends_two_messages unit
                  (Samples.chatAnswering (js "Try a denim jacket."))
                  (App.uploadFinished unit (errorResponse []) tt []
                     (App.initialState unit))
                  (App.uploadFinished unit (errorResponse []) tt []
                     (App.initialState unit))
                  (js "something warmer") 5 6 7 8) tt).
  reflexivity.
Defined.

(** ** The components *)

(** X15. [ChatInterface] sends only text, and only when nothing is pending:
    what it hands to [onSendMessage] is the input without its surrounding
    white space, is not empty and has no white space at either end, and the
    input is then emptied; an input of white space only, or any input while
    a reply is awaited, sends nothing and is kept. *)
Theorem chat_input_sends_trimmed_text input isLoading :
  (forall message input',
     ChatInterface.handleSend input isLoading = (Some message, input') ->
     isLoading = false /\ message = trim input /\ message <> []
     /\ trim message = message /\ input' = [])
  /\ (forallb isSpace input = true \/ isLoading = true ->
      ChatInterface.handleSend input isLoading = (None, input))
  /\ (forall message,
        trim input = message -> message <> [] -> isLoading = false ->
        ChatInterface.handleSend input isLoading = (Some message, [])).
Proof.
  unfold ChatInterface.handleSend. split; [|split].
  - intros message input'.
    destruct (trim input) as [|c r] eqn:Et; simpl; [discriminate|].
    destruct isLoading; simpl; [discriminate|].
    intros [= <- <-]. repeat split; try discriminate.
    rewrite <- Et. apply trim_idem.
  - intros [H | H].
    + rewrite (trim_allSpace input H). reflexivity.
    + rewrite H, Bool.andb_false_r. reflexivity.
  - intros message <- Hne ->.
    destruct (trim input); [congruence | reflexivity].
Qed.

Lemma chat_input_sends_trimmed_text_witness :
  ChatInterface.handleSend (js "  a red one ") false
  = (Some (js "a red one"), [])
  /\ ChatInterface.handleSend [SPACE; TAB; 160] false = (None, [SPACE; TAB; 160])
  /\ ChatInterface.handleSend (js "hello") true = (None, js "hello").
Proof.
  split; [|split].
  - apply (proj2 (proj2 (chat_input_sends_trimmed_text (js "  a red one ") false)));
      [reflexivity | discriminate | reflexivity].
  - apply (proj1 (proj2 (chat_input_sends_trimmed_text [SPACE; TAB; 160] false))).
    left. reflexivity.
  - apply (proj1 (proj2 (chat_input_sends_trimmed_text (js "hello") true))).
    right. reflexivity.
Defined.

(** X16. Which files [ImageUpload] reads: exactly those whose type starts
    with [image/] and whose size is at most 5242880 bytes, the bound
    included.  The type is looked at first: a file of another type is
    refused for its type, whatever its size. *)
Theorem upload_accepts_images_up_to_5MB (file : ImageUpload.File) :
  (ImageUpload.handleFileChange (Some file) = Some ImageUpload.Reading
   <-> startsWith (App.txt "image/") (ImageUpload.type file) = true
       /\ ImageUpload.size file <= 5242880)
  /\ (startsWith (App.txt "image/") (ImageUpload.type file) = false ->
      ImageUpload.handleFileChange (Some file)
      = Some (ImageUpload.Refused
                (App.txt "Invalid file type. Please upload an image (jpeg, png, gif, webp).")))
  /\ (startsWith (App.txt "image/") (ImageUpload.type file) = true ->
      5242880 < ImageUpload.size file ->
      ImageUpload.handleFileChange (Some file)
      = Some (ImageUpload.Refused
                (App.txt "File is too large. Maximum size is 5MB."))).
Proof.
  unfold ImageUpload.handleFileChange.
  change (5 * 1024 * 1024) with 5242880.
  destruct (startsWith (App.txt "image/") (ImageUpload.type file)) eqn:Et;
    simpl.
  - destruct (5242880 <? ImageUpload.size file) eqn:Es.
    + apply N.ltb_lt in Es. split; [|split].
      * split; [discriminate | intros [_ H]; lia].
      * discriminate.
      * reflexivity.
    + apply N.ltb_ge in Es. split; [|split].
      * split; auto.
      * discriminate.
      * intros _ H. lia.
  - split; [|split].
    + split; [discriminate | intros [H _]; discriminate].
    + reflexivity.
    + discriminate.
Qed.

Lemma upload_accepts_images_up_to_5MB_witness :
  ImageUpload.handleFileChange
    (Some {| ImageUpload.type := js "image/svg+xml";
             ImageUpload.size := 5242880 |})
  = Some ImageUpload.Reading
  /\ ImageUpload.handleFileChange
       (Some {| ImageUpload.type := js "application/pdf";
                ImageUpload.size := 10 |})
     = Some (ImageUpload.Refused
               (App.txt "Invalid file type. Please upload an image (jpeg, png, gif, webp)."))
  /\ ImageUpload.handleFileChange
       (Some {| ImageUpload.type := js "image/png";
                ImageUpload.size := 5242881 |})
     = Some (ImageUpload.Refused
               (App.txt "File is too large. Maximum size is 5MB.")).
Proof.
  split; [|split].
  - apply (proj1 (upload_accepts_images_up_to_5MB
                    {| ImageUpload.type := js "image/svg+xml";
                       ImageUpload.size := 5242880 |})).
    split; [reflexivity | simpl; lia].
  - apply (proj1 (proj2 (upload_accepts_images_up_to_5MB
                    {| ImageUpload.type := js "application/pdf";
                       ImageUpload.size := 10 |}))).
    reflexivity.
  - apply (proj2 (proj2 (upload_accepts_images_up_to_5MB
                    {| ImageUpload.type := js "image/png";
                       ImageUpload.size := 5242881 |})));
      [reflexivity | reflexivity].
Defined.

Lemma split_no_separator sep s :
  forallb (fun c => negb (c =? sep)) s = true -> ImageUpload.split sep s = [s].
Proof.
  induction s as [|c r IH]; [reflexivity|]. simpl.
  rewrite Bool.andb_true_iff, Bool.negb_true_iff. intros [-> H].
  rewrite IH by assumption. reflexivity.
Qed.

Lemma split_first_separator sep a b :
  forallb (fun c => negb (c =? sep)) a = true ->
  ImageUpload.split sep (a ++ sep :: b) = a :: ImageUpload.split sep b.
Proof.
  induction a as [|c r IH]; simpl.
  - intros _. rewrite N.eqb_refl. reflexivity.
  - rewrite Bool.andb_true_iff, Bool.negb_true_iff. intros [-> H].
    rewrite IH by assumption. reflexivity.
Qed.

Lemma split_nonempty sep s : ImageUpload.split sep s <> [].
Proof.
  induction s as [|c r IH]; simpl; [discriminate|].
  destruct (c =? sep); [discriminate|].
  destruct (ImageUpload.split sep r); discriminate.
Qed.

(** X17. What [ImageUpload] hands to [onImageUpload].  From a data URL,
    a header without comma, a comma and a payload without comma, it hands
    over the payload and the type of the file; a payload with a comma is
    cut at that comma; from a text without comma it hands over
    [undefined]. *)
Theorem upload_hands_over_the_payload file header payload rest :
  forallb (fun c => negb (c =? COMMA)) header = true ->
  forallb (fun c => negb (c =? COMMA)) payload = true ->
  ImageUpload.onloadend file (header ++ COMMA :: payload)
  = (Some payload, ImageUpload.type file)
  /\ ImageUpload.onloadend file (header ++ COMMA :: payload ++ COMMA :: rest)
     = (Some payload, ImageUpload.type file)
  /\ ImageUpload.onloadend file header = (None, ImageUpload.type file).
Proof.
  intros Hh Hp. unfold ImageUpload.onloadend. split; [|split].
  - rewrite (split_first_separator COMMA header payload Hh).
    rewrite (split_no_separator COMMA payload Hp). reflexivity.
  - rewrite (split_first_separator COMMA header _ Hh).
    rewrite (split_first_separator COMMA payload rest Hp). reflexivity.
  - rewrite (split_no_separator COMMA header Hh). reflexivity.
Qed.

Lemma upload_hands_over_the_payload_witness :
  ImageUpload.onloadend
    {| ImageUpload.type := js "image/png"; ImageUpload.size := 5 |}
    (js "data:image/png;base64,aGVsbG8=")
  = (Some (js "aGVsbG8="), js "image/png").
Proof.
  apply (proj1 (upload_hands_over_the_payload
                  {| ImageUpload.type := js "image/png"; ImageUpload.size := 5 |}
                  (js "data:image/png;base64") (js "aGVsbG8=") []
                  eq_refl eq_refl)).
Defined.

(** X18. What a product card shows.  The description is shown whole when
    it has at most 100 code units; a longer one is cut to its first 100
    code units followed by three dots, so the text shown never has more
    than 103.  The source of the image is never empty: it is the URL of
    the product, unless that is empty. *)
Theorem product_card_text_is_bounded description imageUrl id :
  (length (ProductCard.shownDescription description) <= 103)%nat
  /\ ((length description <= 100)%nat ->
      ProductCard.shownDescription description = description)
  /\ ((100 < length description)%nat ->
      ProductCard.shownDescription description
      = firstn 100 description ++ App.txt "..."
      /\ length (ProductCard.shownDescription description) = 103%nat)
  /\ ProductCard.imageSrc imageUrl id <> []
  /\ (imageUrl <> [] -> ProductCard.imageSrc imageUrl id = imageUrl).
Proof.
  unfold ProductCard.shownDescription, ProductCard.imageSrc.
  split; [|split; [|split; [|split]]].
  - rewrite length_app, length_firstn.
    destruct (100 <? length description)%nat;
      [change (length (App.txt "...")) with 3%nat
      |change (length (@nil N)) with 0%nat]; lia.
  - intros H. apply Nat.leb_le in H as H'.
    assert (E : (100 <? length description)%nat = false)
      by (apply Nat.ltb_ge; exact H).
    rewrite E, app_nil_r. apply firstn_all2. exact H.
  - intros H. assert (E : (100 <? length description)%nat = true)
      by (apply Nat.ltb_lt; exact H).
    rewrite E. split; [reflexivity|].
    rewrite length_app, length_firstn.
    change (length (App.txt "...")) with 3%nat. lia.
  - destruct imageUrl; simpl; discriminate.
  - destruct imageUrl; simpl; congruence.
Qed.

Lemma product_card_text_is_bounded_witness :
  ProductCard.shownDescription (js "A timeless denim jacket.")
  = js "A timeless denim jacket."
  /\ ProductCard.imageSrc [] (js "sim1")
     = App.txt "https://picsum.photos/seed/sim1/300/200".
Proof.
  split.
  - apply (proj1 (proj2 (product_card_text_is_bounded
                           (js "A timeless denim jacket.") [] []))).
    simpl. lia.
  - reflexivity.
Defined.
